(** * Zom-B simulation core: combat engine, world model, host protocol

    A shallow embedding of the TypeScript sources
      - [lib/gameBalance.ts]      (module [Balance])
      - [lib/combatEngine.ts]     (module [Combat])
      - [lib/rotjsIntegration.ts] (module [World])
      - [components/GameScreen.tsx], [services/peerService.ts], [types.ts]
                                  (modules [Host], [Client])
      - [lib/peerGameProtocol.ts] (module [Protocol])
      - [lib/worldStateManager.ts] (module [Manager])
      - [lib/explorationSystem.ts] (module [Explore])
      - [lib/zombieAI.ts]         (module [Ai])
      - [components/MapView.tsx]  (module [View])
    together with the properties of the specification that concern them
    and further properties of the code.

    Conventions.
      - JavaScript numbers that the code only ever counts with (action
        points, rounds, skill levels, enemy hit points, coordinates) are [Z];
        numbers that take fractional values (probabilities, the player's hit
        points after a 37.5 heal, damage before [Math.floor]) are exact
        rationals [Q].  Rounding of IEEE doubles is not modelled.
      - [Math.random()] is an oracle [random : nat -> Q]; the engine state
        counts the draws made so far, so the k-th call returns [random k].
      - In-place mutation of the engine's objects is explicit state passing
        in the monad [Combat.M].
      - The rot-js library and the JavaScript built-ins [parseFloat] and
        [Date.now] are not part of the repository: they are the fields of
        the record [World.Rot], over which every theorem is quantified. *)

From Stdlib Require Import ZArith QArith Qround Qminmax Lqa Lia List String Ascii Bool.
From stdpp Require Import gmap strings list pretty.
From Stdlib Require Import Sorted.
Import ListNotations.

Local Open Scope string_scope.
Local Open Scope Z_scope.

(** ** JavaScript strings and numbers *)

Module Js.

(** [c.toLowerCase()] on the ASCII range. *)
Definition lower_ascii (c : ascii) : ascii :=
  let n := nat_of_ascii c in
  if ((65 <=? n) && (n <=? 90))%nat then ascii_of_nat (n + 32) else c.

Fixpoint toLowerCase (s : string) : string :=
  match s with
  | EmptyString => EmptyString
  | String c s' => String (lower_ascii c) (toLowerCase s')
  end.

(** [s.includes(sub)]: [sub] occurs in [s] as a contiguous substring. *)
Fixpoint includes (sub s : string) : bool :=
  String.prefix sub s ||
  match s with
  | EmptyString => false
  | String _ s' => includes sub s'
  end.

(** Truthiness of a possibly missing string: [undefined], [null] and the
    empty string are falsy. *)
Definition truthy (o : option string) : bool :=
  match o with
  | Some s => negb (String.eqb s "")
  | None => false
  end.

(** [o || dflt] on strings. *)
Definition str_or (o : option string) (dflt : string) : string :=
  match o with
  | Some s => if String.eqb s "" then dflt else s
  | None => dflt
  end.

(** [arr.includes(x)] on an array of strings. *)
Definition arr_includes (x : string) (arr : list string) : bool :=
  existsb (String.eqb x) arr.

(** [arr.indexOf(x)] followed by [arr.splice(index, 1)] when [index > -1]:
    the first occurrence is removed. *)
Fixpoint remove_first (x : string) (arr : list string) : list string :=
  match arr with
  | [] => []
  | y :: tl => if String.eqb y x then tl else y :: remove_first x tl
  end.

(** Strict comparisons on rationals, as booleans. *)
Definition Qltb (a b : Q) : bool := negb (Qle_bool b a).
Definition Qleb (a b : Q) : bool := Qle_bool a b.

End Js.

(** ** gameBalance.ts *)

Module Balance.

(** [GAME_BALANCE.combat] *)
Definition baseActionPoints : Z := 3.
Definition maxActionPoints : Z := 3.
Definition baseDamage : Q := 10.
Definition damageVariance : Q := 0.2.
Definition criticalHitChance : Q := 0.1.
Definition criticalMultiplier : Q := 1.5.
Definition defenseDamageReduction : Q := 0.5.
Definition fleeBaseChance : Q := 0.6.

(** [GAME_BALANCE.skills] *)
Definition baseSuccessChance : Q := 0.4.
Definition bonusPerLevel : Q := 0.05.
Definition maxSkillLevel : Z := 10.
Definition melee_critBonus : Q := 0.15.
Definition melee_stunChance : Q := 0.2.
Definition melee_executionChance : Q := 0.25.
Definition firearms_jamChance_1to3 : Q := 0.05.
Definition firearms_jamChance_4to7 : Q := 0.02.
Definition firearms_headshotBonus : Q := 0.2.
Definition firearms_apRefund : bool := true.
Definition medical_healingBonus : Q := 0.5.

(** [GAME_BALANCE.progression] *)
Definition skillGrowthOnCritical : Z := 1.

Inductive SkillType := melee | firearms.

(** [calculateDamage(baseDamage, targetDefense, isCritical)]; [r] is the
    value its single [Math.random()] call returns. *)
Definition calculateDamage (base targetDefense : Q) (isCritical : bool) (r : Q) : Z :=
  let damage := (base * (1 + (r * 2 - 1) * damageVariance))%Q in
  let damage := Qmax 1 (damage - targetDefense) in
  let damage := if isCritical then (damage * criticalMultiplier)%Q else damage in
  Qfloor damage.

(** [calculateSkillSuccessChance(skillLevel)] *)
Definition calculateSkillSuccessChance (skillLevel : Z) : Q :=
  let effectiveLevel := Z.min skillLevel maxSkillLevel in
  (baseSuccessChance + inject_Z effectiveLevel * bonusPerLevel)%Q.

(** The chance [rollCriticalHit] compares its draw with. *)
Definition critChance (skillLevel : Z) (skillType : SkillType) : Q :=
  let c := criticalHitChance in
  let c := match skillType with
           | melee => if (4 <=? skillLevel) && (skillLevel <=? 7)
                      then (c + melee_critBonus)%Q else c
           | firearms => c
           end in
  match skillType with
  | firearms => if (4 <=? skillLevel) && (skillLevel <=? 7)
                then (c + firearms_headshotBonus)%Q else c
  | melee => c
  end.

(** [rollCriticalHit(skillLevel, skillType)] with draw [r]. *)
Definition rollCriticalHit (skillLevel : Z) (skillType : SkillType) (r : Q) : bool :=
  Js.Qltb r (critChance skillLevel skillType).

End Balance.

(** ** types.ts and combatEngine.ts *)

Module Combat.
Import Balance.

(** *** Data (types.ts, combatEngine.ts) *)

Inductive Range := Melee | Near | Far.

Record Enemy := {
  e_id : string;
  e_name : string;
  e_hp : Z;
  e_maxHp : Z;
  e_status : string;
  e_intent : option string;
  e_range : option Range
}.

Inductive GamePhase := exploration | combat.

Record GameState := {
  hp : Q;
  maxHp : Q;
  infectionLevel : Q;
  supplies : Z;
  day : Z;
  time : string;
  location : string;
  inventory : list string;
  equippedWeapon : option string;
  skills : gmap string Z;
  phase : GamePhase;
  actionPoints : Z;
  gs_maxActionPoints : Z;
  enemies : list Enemy;
  lastActionSummary : string
}.

Inductive CombatPhase := player_turn | enemy_turn | victory | defeat | fled.

Inductive CombatActionType := attack | defend | use_item | flee | move.

Inductive Direction := closer | away.

Record CombatAction := {
  a_type : CombatActionType;
  a_targetId : option string;
  a_itemId : option string;
  a_direction : option Direction
}.

Inductive ResultType :=
  | r_damage | r_heal | r_defend | r_flee_success | r_flee_fail | r_move
  | r_enemy_attack | r_skill_increase | r_execution | r_stun | r_jam
  | r_ap_refund.

(** The template literals of the [message] fields, with the values they
    interpolate. *)
Inductive Message :=
  | MsgInvalid                       (* Invalid action: Not enough AP or invalid target *)
  | MsgJam (weapon : string)         (* Weapon jammed! ${equippedWeapon} failed to fire. *)
  | MsgMiss (name : string)          (* Attack missed ${target.name}! *)
  | MsgExecution (name : string)     (* EXECUTION! ${target.name} decapitated instantly! *)
  | MsgRefund                        (* Kill Streak! +1 AP refunded *)
  | MsgDealt (damage : Z) (name : string) (hp maxHp : Z)
                                     (* Dealt ${damage} damage to ${target.name} (${hp}/${maxHp} HP remaining) *)
  | MsgStun (name : string)          (* ${target.name} is stunned! *)
  | MsgSkillUp (skill : string) (level : Z)
                                     (* ${skillName} skill increased to Level ${level}! *)
  | MsgDefend                        (* Defensive stance activated. ... *)
  | MsgHealed (item : string) (amount hp maxHp : Q)
                                     (* Used ${itemId}. Restored ${healAmount} HP (${hp}/${maxHp}) *)
  | MsgCannotUse (item : string)     (* ${itemId} cannot be used in combat *)
  | MsgFled                          (* Successfully fled from combat! Location changed. *)
  | MsgFleeFail                      (* Flee attempt failed! Enemies block your escape. *)
  | MsgMove (towards : bool)         (* Repositioned ${closer to | away from} enemies *)
  | MsgRecover (name : string)       (* ${enemy.name} is recovering from stun *)
  | MsgEnemyAttack (name : string) (damage : Z) (hp maxHp : Q).
                                     (* ${enemy.name} attacks! Dealt ${damage} damage (Player HP: ${hp}/${maxHp}) *)

Record CombatResult := {
  r_success : bool;
  r_type : ResultType;
  r_amount : option Q;
  r_targetId : option string;
  r_targetName : option string;
  r_message : Message;
  r_critical : option bool
}.

Record CombatState := {
  c_phase : CombatPhase;
  round : Z;
  playerActionPoints : Z;
  defendActive : bool;
  log : list CombatResult
}.

(** The two private fields of [class CombatEngine], and the number of
    [Math.random()] calls made since the engine was created. *)
Record Engine := {
  gameState : GameState;
  combatState : CombatState;
  drawn : nat
}.

(** *** Field assignments *)

Definition set_e_hp (v : Z) (e : Enemy) : Enemy :=
  {| e_id := e_id e; e_name := e_name e; e_hp := v; e_maxHp := e_maxHp e;
     e_status := e_status e; e_intent := e_intent e; e_range := e_range e |}.

Definition set_e_status (v : string) (e : Enemy) : Enemy :=
  {| e_id := e_id e; e_name := e_name e; e_hp := e_hp e; e_maxHp := e_maxHp e;
     e_status := v; e_intent := e_intent e; e_range := e_range e |}.

Definition set_e_range (v : option Range) (e : Enemy) : Enemy :=
  {| e_id := e_id e; e_name := e_name e; e_hp := e_hp e; e_maxHp := e_maxHp e;
     e_status := e_status e; e_intent := e_intent e; e_range := v |}.

Definition set_hp (v : Q) (g : GameState) : GameState :=
  {| hp := v; maxHp := maxHp g; infectionLevel := infectionLevel g;
     supplies := supplies g; day := day g; time := time g; location := location g;
     inventory := inventory g; equippedWeapon := equippedWeapon g;
     skills := skills g; phase := phase g; actionPoints := actionPoints g;
     gs_maxActionPoints := gs_maxActionPoints g; enemies := enemies g;
     lastActionSummary := lastActionSummary g |}.

Definition set_inventory (v : list string) (g : GameState) : GameState :=
  {| hp := hp g; maxHp := maxHp g; infectionLevel := infectionLevel g;
     supplies := supplies g; day := day g; time := time g; location := location g;
     inventory := v; equippedWeapon := equippedWeapon g;
     skills := skills g; phase := phase g; actionPoints := actionPoints g;
     gs_maxActionPoints := gs_maxActionPoints g; enemies := enemies g;
     lastActionSummary := lastActionSummary g |}.

Definition set_skills (v : gmap string Z) (g : GameState) : GameState :=
  {| hp := hp g; maxHp := maxHp g; infectionLevel := infectionLevel g;
     supplies := supplies g; day := day g; time := time g; location := location g;
     inventory := inventory g; equippedWeapon := equippedWeapon g;
     skills := v; phase := phase g; actionPoints := actionPoints g;
     gs_maxActionPoints := gs_maxActionPoints g; enemies := enemies g;
     lastActionSummary := lastActionSummary g |}.

Definition set_phase (v : GamePhase) (g : GameState) : GameState :=
  {| hp := hp g; maxHp := maxHp g; infectionLevel := infectionLevel g;
     supplies := supplies g; day := day g; time := time g; location := location g;
     inventory := inventory g; equippedWeapon := equippedWeapon g;
     skills := skills g; phase := v; actionPoints := actionPoints g;
     gs_maxActionPoints := gs_maxActionPoints g; enemies := enemies g;
     lastActionSummary := lastActionSummary g |}.

Definition set_actionPoints (v : Z) (g : GameState) : GameState :=
  {| hp := hp g; maxHp := maxHp g; infectionLevel := infectionLevel g;
     supplies := supplies g; day := day g; time := time g; location := location g;
     inventory := inventory g; equippedWeapon := equippedWeapon g;
     skills := skills g; phase := phase g; actionPoints := v;
     gs_maxActionPoints := gs_maxActionPoints g; enemies := enemies g;
     lastActionSummary := lastActionSummary g |}.

Definition set_maxActionPoints (v : Z) (g : GameState) : GameState :=
  {| hp := hp g; maxHp := maxHp g; infectionLevel := infectionLevel g;
     supplies := supplies g; day := day g; time := time g; location := location g;
     inventory := inventory g; equippedWeapon := equippedWeapon g;
     skills := skills g; phase := phase g; actionPoints := actionPoints g;
     gs_maxActionPoints := v; enemies := enemies g;
     lastActionSummary := lastActionSummary g |}.

Definition set_enemies (v : list Enemy) (g : GameState) : GameState :=
  {| hp := hp g; maxHp := maxHp g; infectionLevel := infectionLevel g;
     supplies := supplies g; day := day g; time := time g; location := location g;
     inventory := inventory g; equippedWeapon := equippedWeapon g;
     skills := skills g; phase := phase g; actionPoints := actionPoints g;
     gs_maxActionPoints := gs_maxActionPoints g; enemies := v;
     lastActionSummary := lastActionSummary g |}.

Definition set_c_phase (v : CombatPhase) (c : CombatState) : CombatState :=
  {| c_phase := v; round := round c; playerActionPoints := playerActionPoints c;
     defendActive := defendActive c; log := log c |}.

Definition set_round (v : Z) (c : CombatState) : CombatState :=
  {| c_phase := c_phase c; round := v; playerActionPoints := playerActionPoints c;
     defendActive := defendActive c; log := log c |}.

Definition set_playerActionPoints (v : Z) (c : CombatState) : CombatState :=
  {| c_phase := c_phase c; round := round c; playerActionPoints := v;
     defendActive := defendActive c; log := log c |}.

Definition set_defendActive (v : bool) (c : CombatState) : CombatState :=
  {| c_phase := c_phase c; round := round c; playerActionPoints := playerActionPoints c;
     defendActive := v; log := log c |}.

Definition set_log (v : list CombatResult) (c : CombatState) : CombatState :=
  {| c_phase := c_phase c; round := round c; playerActionPoints := playerActionPoints c;
     defendActive := defendActive c; log := v |}.

(** *** The engine monad *)

Section Engine.

(** The k-th value returned by [Math.random()]. *)
Variable random : nat -> Q.

Definition M (A : Type) : Type := Engine -> A * Engine.

Definition ret {A} (a : A) : M A := fun s => (a, s).

Definition bind {A B} (m : M A) (k : A -> M B) : M B :=
  fun s => let (a, s') := m s in k a s'.

Notation "x <- m ;; k" := (bind m (fun x => k))
  (at level 100, m at next level, right associativity).
Notation "m ;;; k" := (bind m (fun _ => k))
  (at level 100, right associativity).

Definition get : M Engine := fun s => (s, s).

Definition modify_gs (f : GameState -> GameState) : M unit :=
  fun s => (tt, {| gameState := f (gameState s); combatState := combatState s;
                   drawn := drawn s |}).

Definition modify_cs (f : CombatState -> CombatState) : M unit :=
  fun s => (tt, {| gameState := gameState s; combatState := f (combatState s);
                   drawn := drawn s |}).

Definition Math_random : M Q :=
  fun s => (random (drawn s),
            {| gameState := gameState s; combatState := combatState s;
               drawn := S (drawn s) |}).

(** [cond && Math.random() < chance]: the draw is made only when [cond]
    holds. *)
Definition roll_if (cond : bool) (chance : Q) : M bool :=
  if cond then r <- Math_random ;; ret (Js.Qltb r chance) else ret false.

Definition when (b : bool) (m : M unit) : M unit := if b then m else ret tt.

(** *** The constructor *)

Definition new_CombatEngine (g : GameState) : Engine :=
  {| gameState := g;
     combatState := {| c_phase := player_turn; round := 1;
                       playerActionPoints := actionPoints g;
                       defendActive := false; log := [] |};
     drawn := 0 |}.

(** *** Helpers *)

Definition has_id (i : string) (e : Enemy) : bool := String.eqb (e_id e) i.

(** The object [enemies.find(e => e.id === targetId)] returns is mutated
    in place: the first enemy with that id changes. *)
Fixpoint update_target (i : string) (f : Enemy -> Enemy) (es : list Enemy) : list Enemy :=
  match es with
  | [] => []
  | e :: tl => if has_id i e then f e :: tl else e :: update_target i f tl
  end.

Definition modify_target (i : string) (f : Enemy -> Enemy) : M unit :=
  modify_gs (fun g => set_enemies (update_target i f (enemies g)) g).

(** [this.gameState.skills[name] || 1] *)
Definition skill_or_1 (sk : gmap string Z) (name : string) : Z :=
  match sk !! name with
  | Some l => if l =? 0 then 1 else l
  | None => 1
  end.

(** [isFirearm(weaponName)] *)
Definition isFirearm (weaponName : option string) : bool :=
  if negb (Js.truthy weaponName) then false else
  let name := Js.toLowerCase (Js.str_or weaponName "") in
  Js.includes "gun" name || Js.includes "pistol" name || Js.includes "rifle" name ||
  Js.includes "shotgun" name || Js.includes "smg" name ||
  Js.includes "revolver" name || Js.includes "bow" name.

Definition alive (e : Enemy) : bool := 0 <? e_hp e.

(** [Math.min(playerActionPoints + 1, maxActionPoints)] and the
    [ap_refund] record. *)
Definition refundAP : M (list CombatResult) :=
  modify_cs (fun c => set_playerActionPoints
                        (Z.min (playerActionPoints c + 1) maxActionPoints) c) ;;;
  ret [ {| r_success := true; r_type := r_ap_refund; r_amount := None;
           r_targetId := None; r_targetName := None; r_message := MsgRefund;
           r_critical := None |} ].

(** *** isActionValid *)

Definition isActionValid (action : CombatAction) (s : Engine) : bool :=
  match c_phase (combatState s) with
  | player_turn =>
    if playerActionPoints (combatState s) <? 1 then false else
    let attack_ok :=
      match a_type action with
      | attack =>
        if negb (Js.truthy (a_targetId action)) then false else
        match find (has_id (Js.str_or (a_targetId action) "")) (enemies (gameState s)) with
        | Some target => negb (e_hp target <=? 0)
        | None => false
        end
      | _ => true
      end in
    if negb attack_ok then false else
    match a_type action with
    | use_item =>
      if negb (Js.truthy (a_itemId action)) then false else
      Js.arr_includes (Js.str_or (a_itemId action) "") (inventory (gameState s))
    | _ => true
    end
  | _ => false
  end.

(** *** processAttack *)

Definition targetDefense (target : Enemy) : Q :=
  if 50 <? e_maxHp target then (inject_Z (e_maxHp target) / 10)%Q else 2%Q.

Definition processAttack (targetId : string) : M (list CombatResult) :=
  s0 <- get ;;
  let g := gameState s0 in
  match find (has_id targetId) (enemies g) with
  | None => ret []
  | Some target =>
    let weapon := Js.str_or (equippedWeapon g) "Fists" in
    let isF := isFirearm (Some weapon) in
    let skillType := if isF then firearms else melee in
    let skillName := if isF then "Firearms" else "Melee" in
    let skillLevel := skill_or_1 (skills g) skillName in
    (* Roll for firearm jam *)
    jammed <- roll_if (isF && (skillLevel <=? 7))
                      (if skillLevel <=? 3 then firearms_jamChance_1to3
                       else firearms_jamChance_4to7) ;;
    if jammed then
      ret [ {| r_success := false; r_type := r_jam; r_amount := None;
               r_targetId := None; r_targetName := None;
               r_message := MsgJam weapon; r_critical := None |} ]
    else
    (* Roll for hit: Math.random() > hitChance is a miss *)
    rh <- Math_random ;;
    if Js.Qltb (calculateSkillSuccessChance skillLevel) rh then
      ret [ {| r_success := false; r_type := r_damage; r_amount := None;
               r_targetId := Some targetId; r_targetName := Some (e_name target);
               r_message := MsgMiss (e_name target); r_critical := None |} ]
    else
    (* Roll for critical *)
    rc <- Math_random ;;
    let isCritical := rollCriticalHit skillLevel skillType rc in
    (* Check for execution *)
    executed <- roll_if (negb isF && (8 <=? skillLevel) && isCritical)
                        melee_executionChance ;;
    if executed then
      modify_target targetId (set_e_hp 0) ;;;
      refund <- (if isF && (8 <=? skillLevel) && firearms_apRefund
                 then refundAP else ret []) ;;
      ret ({| r_success := true; r_type := r_execution; r_amount := None;
              r_targetId := Some targetId; r_targetName := Some (e_name target);
              r_message := MsgExecution (e_name target);
              r_critical := Some true |} :: refund)
    else
    (* Calculate and apply damage *)
    rd <- Math_random ;;
    let damage := calculateDamage baseDamage (targetDefense target) isCritical rd in
    let hp' := Z.max 0 (e_hp target - damage) in
    modify_target targetId (set_e_hp hp') ;;;
    let dealt := {| r_success := true; r_type := r_damage;
                    r_amount := Some (inject_Z damage);
                    r_targetId := Some targetId; r_targetName := Some (e_name target);
                    r_message := MsgDealt damage (e_name target) hp' (e_maxHp target);
                    r_critical := Some isCritical |} in
    (* Check for stun (melee level 4-7) *)
    stunned <- roll_if (negb isF && (4 <=? skillLevel) && (skillLevel <=? 7))
                       melee_stunChance ;;
    when stunned (modify_target targetId (set_e_status "Stunned")) ;;;
    let stun := if stunned
                then [ {| r_success := true; r_type := r_stun; r_amount := None;
                          r_targetId := Some targetId;
                          r_targetName := Some (e_name target);
                          r_message := MsgStun (e_name target);
                          r_critical := None |} ]
                else [] in
    (* Check for AP refund on kill (firearms level 8-10) *)
    refund <- (if (hp' <=? 0) && isF && (8 <=? skillLevel) && firearms_apRefund
               then refundAP else ret []) ;;
    (* Skill increase on critical *)
    let grown := skillLevel + skillGrowthOnCritical in
    let grows := isCritical && (skillLevel <? maxSkillLevel) in
    when grows (modify_gs (fun g => set_skills (<[skillName := grown]> (skills g)) g)) ;;;
    let skillup := if grows
                   then [ {| r_success := true; r_type := r_skill_increase;
                             r_amount := None; r_targetId := None;
                             r_targetName := None;
                             r_message := MsgSkillUp skillName grown;
                             r_critical := None |} ]
                   else [] in
    ret (dealt :: stun ++ refund ++ skillup)%list
  end.

(** *** processDefend *)

Definition processDefend : M (list CombatResult) :=
  modify_cs (set_defendActive true) ;;;
  ret [ {| r_success := true; r_type := r_defend; r_amount := None;
           r_targetId := None; r_targetName := None; r_message := MsgDefend;
           r_critical := None |} ].

(** *** processUseItem *)

Definition isHealingItem (itemId : string) : bool :=
  let itemLower := Js.toLowerCase itemId in
  Js.includes "bandage" itemLower || Js.includes "medkit" itemLower ||
  Js.includes "heal" itemLower.

Definition processUseItem (itemId : string) : M (list CombatResult) :=
  if isHealingItem itemId then
    s0 <- get ;;
    let medicalLevel := skill_or_1 (skills (gameState s0)) "Medical" in
    let healAmount := if 4 <=? medicalLevel
                      then (25 * (1 + medical_healingBonus))%Q else 25%Q in
    let hp' := Qmin (maxHp (gameState s0)) (hp (gameState s0) + healAmount) in
    modify_gs (set_hp hp') ;;;
    modify_gs (fun g => set_inventory (Js.remove_first itemId (inventory g)) g) ;;;
    ret [ {| r_success := true; r_type := r_heal; r_amount := Some healAmount;
             r_targetId := None; r_targetName := None;
             r_message := MsgHealed itemId healAmount hp' (maxHp (gameState s0));
             r_critical := None |} ]
  else
    ret [ {| r_success := false; r_type := r_heal; r_amount := None;
             r_targetId := None; r_targetName := None;
             r_message := MsgCannotUse itemId; r_critical := None |} ].

(** *** processFlee *)

Definition processFlee : M (list CombatResult) :=
  r <- Math_random ;;
  if Js.Qltb r fleeBaseChance then
    modify_cs (set_c_phase fled) ;;;
    modify_gs (set_phase exploration) ;;;
    modify_gs (set_enemies []) ;;;
    ret [ {| r_success := true; r_type := r_flee_success; r_amount := None;
             r_targetId := None; r_targetName := None; r_message := MsgFled;
             r_critical := None |} ]
  else
    ret [ {| r_success := false; r_type := r_flee_fail; r_amount := None;
             r_targetId := None; r_targetName := None; r_message := MsgFleeFail;
             r_critical := None |} ].

(** *** processMove *)

Definition is_closer (d : option Direction) : bool :=
  match d with Some closer => true | _ => false end.

Definition shift_range (d : option Direction) (e : Enemy) : Enemy :=
  if is_closer d then
    match e_range e with
    | Some Far => set_e_range (Some Near) e
    | Some Near => set_e_range (Some Melee) e
    | _ => e
    end
  else
    match e_range e with
    | Some Melee => set_e_range (Some Near) e
    | Some Near => set_e_range (Some Far) e
    | _ => e
    end.

Definition processMove (d : option Direction) : M (list CombatResult) :=
  modify_gs (fun g => set_enemies (map (shift_range d) (enemies g)) g) ;;;
  ret [ {| r_success := true; r_type := r_move; r_amount := None;
           r_targetId := None; r_targetName := None;
           r_message := MsgMove (is_closer d); r_critical := None |} ].

(** *** endPlayerTurn and processEnemyTurn *)

Definition endPlayerTurn : M unit := modify_cs (set_c_phase enemy_turn).

(** [enemy.status?.toLowerCase().includes('stun')] *)
Definition isStunned (e : Enemy) : bool :=
  Js.includes "stun" (Js.toLowerCase (e_status e)).

(** The damage one enemy deals, from its [maxHp], the defending flag and
    the draw [r]. *)
Definition enemyDamage (enemyMaxHp : Z) (defending : bool) (r : Q) : Z :=
  let damage : Z := if 50 <? enemyMaxHp then 15 else 8 in
  let damage : Z := if defending
                    then Qfloor (inject_Z damage * (1 - defenseDamageReduction))
                    else damage in
  let damage : Z := Qfloor (inject_Z damage * (0.8 + r * 0.4)) in
  Z.max 1 damage.

(** The body of [aliveEnemies.forEach]: the enemy as it is left, and the
    record it pushes. *)
Definition enemyAct (e : Enemy) : M (Enemy * CombatResult) :=
  if isStunned e then
    ret (set_e_status "Active" e,
         {| r_success := false; r_type := r_enemy_attack; r_amount := None;
            r_targetId := None; r_targetName := Some (e_name e);
            r_message := MsgRecover (e_name e); r_critical := None |})
  else
    s0 <- get ;;
    r <- Math_random ;;
    let damage := enemyDamage (e_maxHp e) (defendActive (combatState s0)) r in
    let hp' := Qmax 0 (hp (gameState s0) - inject_Z damage) in
    modify_gs (set_hp hp') ;;;
    ret (e,
         {| r_success := true; r_type := r_enemy_attack;
            r_amount := Some (inject_Z damage);
            r_targetId := None; r_targetName := Some (e_name e);
            r_message := MsgEnemyAttack (e_name e) damage hp' (maxHp (gameState s0));
            r_critical := None |}).

(** [enemies.filter(e => e.hp > 0).forEach(...)]: the enemies act in list
    order, the dead ones are passed over. *)
Fixpoint enemiesAct (es : list Enemy) : M (list Enemy * list CombatResult) :=
  match es with
  | [] => ret ([], [])
  | e :: tl =>
    if alive e then
      er <- enemyAct e ;;
      rest <- enemiesAct tl ;;
      ret (fst er :: fst rest, snd er :: snd rest)
    else
      rest <- enemiesAct tl ;;
      ret (e :: fst rest, snd rest)
  end.

Definition processEnemyTurn : M (list CombatResult) :=
  s0 <- get ;;
  acted <- enemiesAct (enemies (gameState s0)) ;;
  modify_gs (set_enemies (fst acted)) ;;;
  (* Reset defend status, start new player turn *)
  modify_cs (set_defendActive false) ;;;
  modify_cs (fun c => set_round (round c + 1) c) ;;;
  modify_cs (set_c_phase player_turn) ;;;
  modify_cs (set_playerActionPoints baseActionPoints) ;;;
  modify_gs (set_actionPoints baseActionPoints) ;;;
  ret (snd acted).

(** *** checkCombatEnd *)

Definition checkCombatEnd : M unit :=
  s0 <- get ;;
  if Js.Qleb (hp (gameState s0)) 0 then
    modify_cs (set_c_phase defeat) ;;;
    modify_gs (set_phase exploration)
  else
    let aliveEnemies := List.filter alive (enemies (gameState s0)) in
    when (length aliveEnemies =? 0)%nat
      (modify_cs (set_c_phase victory) ;;;
       modify_gs (set_phase exploration) ;;;
       modify_gs (set_enemies [])).

(** *** processAction *)

Definition invalidResult : CombatResult :=
  {| r_success := false; r_type := r_damage; r_amount := None;
     r_targetId := None; r_targetName := None; r_message := MsgInvalid;
     r_critical := None |}.

Definition dispatch (action : CombatAction) : M (list CombatResult) :=
  match a_type action with
  | attack => processAttack (Js.str_or (a_targetId action) "")
  | defend => processDefend
  | use_item => processUseItem (Js.str_or (a_itemId action) "")
  | flee => processFlee
  | move => processMove (a_direction action)
  end.

(** [action.type !== 'flee' || results[0]?.type !== 'flee_success'] *)
Definition deductsAP (action : CombatAction) (results : list CombatResult) : bool :=
  match a_type action, results with
  | flee, r :: _ => match r_type r with r_flee_success => false | _ => true end
  | _, _ => true
  end.

(** "Deduct action point (unless flee succeeded or already handled)" *)
Definition deductActionPoint (action : CombatAction) (results : list CombatResult)
  : M unit :=
  when (deductsAP action results)
    (modify_cs (fun c => set_playerActionPoints (playerActionPoints c - 1) c) ;;;
     s1 <- get ;;
     modify_gs (set_actionPoints (playerActionPoints (combatState s1)))).

(** "Check if player turn should end" *)
Definition endTurnIfSpent (results : list CombatResult) : M (list CombatResult) :=
  s <- get ;;
  if playerActionPoints (combatState s) <=? 0
  then endPlayerTurn ;;;
       enemyResults <- processEnemyTurn ;;
       ret (results ++ enemyResults)%list
  else ret results.

(** "Update combat log" *)
Definition appendLog (results : list CombatResult) : M unit :=
  modify_cs (fun c => set_log (log c ++ results)%list c).

(** The steps of [processAction] that follow the deduction. *)
Definition finishAction (results : list CombatResult) : M (list CombatResult) :=
  results <- endTurnIfSpent results ;;
  checkCombatEnd ;;;
  appendLog results ;;;
  ret results.

Definition processAction (action : CombatAction) : M (list CombatResult) :=
  s0 <- get ;;
  if negb (isActionValid action s0) then ret [invalidResult] else
  results <- dispatch action ;;
  deductActionPoint action results ;;;
  results <- endTurnIfSpent results ;;
  checkCombatEnd ;;;
  appendLog results ;;;
  ret results.

(** The engine after a sequence of [processAction] calls. *)
Fixpoint play (actions : list CombatAction) (s : Engine) : Engine :=
  match actions with
  | [] => s
  | action :: rest => play rest (snd (processAction action s))
  end.

End Engine.

(** The fields of the game state that only [dispatch] can write: no later
    step of [processAction] touches them. *)
Definition kit_kept (g g' : GameState) : Prop :=
  skills g' = skills g /\ inventory g' = inventory g /\ maxHp g' = maxHp g /\
  equippedWeapon g' = equippedWeapon g.

(** What [processAttack] leaves alone: it writes enemies and skills, and
    action points only through the refund, which keeps them between their
    old value and the maximum. *)
Definition attack_frame (s s' : Engine) : Prop :=
  Z.min (playerActionPoints (combatState s)) maxActionPoints <=
    playerActionPoints (combatState s') /\
  playerActionPoints (combatState s') <=
    Z.max (playerActionPoints (combatState s)) maxActionPoints /\
  c_phase (combatState s') = c_phase (combatState s) /\
  round (combatState s') = round (combatState s) /\
  defendActive (combatState s') = defendActive (combatState s) /\
  log (combatState s') = log (combatState s) /\
  hp (gameState s') = hp (gameState s) /\
  maxHp (gameState s') = maxHp (gameState s) /\
  inventory (gameState s') = inventory (gameState s) /\
  equippedWeapon (gameState s') = equippedWeapon (gameState s) /\
  phase (gameState s') = phase (gameState s).

(** The engine after [playerActionPoints -= 1] and the copy of the new
    value into [gameState.actionPoints]. *)
Definition spend (s : Engine) : Engine :=
  {| gameState := set_actionPoints (playerActionPoints (combatState s) - 1)
                    (gameState s);
     combatState := set_playerActionPoints (playerActionPoints (combatState s) - 1)
                      (combatState s);
     drawn := drawn s |}.

(** The record [processUseItem] returns for an item that does not heal. *)
Definition cannotUse (itemId : string) : CombatResult :=
  {| r_success := false; r_type := r_heal; r_amount := None;
     r_targetId := None; r_targetName := None;
     r_message := MsgCannotUse itemId; r_critical := None |}.

(** A computation relates every state to the state it leaves. *)
Definition keeps (R : Engine -> Engine -> Prop) {A} (m : M A) : Prop :=
  forall s, R s (snd (m s)).

(** *** initiateCombat *)

(** The fields of [GAME_BALANCE.zombieTypes] that [initiateCombat] reads. *)
Record ZombieTypeConfig := {
  z_name : string; z_hp : Z; z_maxHp : Z; z_attack : Z; z_defense : Z
}.

Definition zombieTypes (type : string) : option ZombieTypeConfig :=
  if String.eqb type "Walker" then
    Some {| z_name := "Walker"; z_hp := 30; z_maxHp := 30; z_attack := 8; z_defense := 2 |}
  else if String.eqb type "Runner" then
    Some {| z_name := "Runner"; z_hp := 20; z_maxHp := 20; z_attack := 12; z_defense := 1 |}
  else if String.eqb type "Tank" then
    Some {| z_name := "Tank"; z_hp := 80; z_maxHp := 80; z_attack := 15; z_defense := 8 |}
  else if String.eqb type "Spitter" then
    Some {| z_name := "Spitter"; z_hp := 25; z_maxHp := 25; z_attack := 10; z_defense := 3 |}
  else if String.eqb type "Screamer" then
    Some {| z_name := "Screamer"; z_hp := 35; z_maxHp := 35; z_attack := 5; z_defense := 4 |}
  else None.

(** [zombieTypes.map((type, index) => ...)]; [None] is the [TypeError]
    raised on a type the table lacks. *)
Fixpoint spawn (index : Z) (types : list string) : option (list Enemy) :=
  match types with
  | [] => Some []
  | type :: tl =>
    match zombieTypes type, spawn (index + 1) tl with
    | Some config, Some rest =>
      Some ({| e_id := ("z" ++ pretty (index + 1))%string; e_name := z_name config;
               e_hp := z_hp config; e_maxHp := z_maxHp config;
               e_status := "Active"; e_intent := Some "Lunge Attack";
               e_range := Some Near |} :: rest)
    | _, _ => None
    end
  end.

Definition initiateCombat (g : GameState) (types : list string) (isNight : bool)
  : option GameState :=
  match spawn 0 types with
  | Some es =>
    Some (set_enemies es
           (set_maxActionPoints maxActionPoints
             (set_actionPoints baseActionPoints (set_phase combat g))))
  | None => None
  end.

End Combat.

(** ** rotjsIntegration.ts *)

Module World.

(** *** Data *)

Inductive TileType := floor | wall | door | grass | water | building | ruins.

(** An entry of [resources] is [None] where the source stores the
    [undefined] of an out-of-range array read. *)
Record Tile := {
  t_type : TileType;
  explored : bool;
  visible : bool;
  resources : option (list (option string));
  zombiesCleared : option bool
}.

Notation "'Grid'" := (list (list Tile)) (only parsing).

Record WorldMap := {
  width : Z;
  height : Z;
  tiles : Grid;
  seed : string
}.

Record Position := { pos_x : Z; pos_y : Z }.

Definition set_type (v : TileType) (t : Tile) : Tile :=
  {| t_type := v; explored := explored t; visible := visible t;
     resources := resources t; zombiesCleared := zombiesCleared t |}.

Definition set_visible (v : bool) (t : Tile) : Tile :=
  {| t_type := t_type t; explored := explored t; visible := v;
     resources := resources t; zombiesCleared := zombiesCleared t |}.

Definition set_explored (v : bool) (t : Tile) : Tile :=
  {| t_type := t_type t; explored := v; visible := visible t;
     resources := resources t; zombiesCleared := zombiesCleared t |}.

Definition set_resources (v : list (option string)) (t : Tile) : Tile :=
  {| t_type := t_type t; explored := explored t; visible := visible t;
     resources := Some v; zombiesCleared := zombiesCleared t |}.

Definition set_tiles (v : Grid) (w : WorldMap) : WorldMap :=
  {| width := width w; height := height w; tiles := v; seed := seed w |}.

Definition is_wall (t : TileType) : bool :=
  match t with wall => true | _ => false end.

Definition is_grass (t : TileType) : bool :=
  match t with grass => true | _ => false end.

(** *** Array reads and writes *)

(** [arr[i]]: [None] is [undefined] (negative or past the end). *)
Definition at_index {A} (arr : list A) (i : Z) : option A :=
  if i <? 0 then None else arr !! Z.to_nat i.

(** [tiles[y] && tiles[y][x]] *)
Definition tileAt (g : Grid) (x y : Z) : option Tile :=
  match at_index g y with
  | Some row => at_index row x
  | None => None
  end.

(** [tiles[y][x].field = v]: [None] is the [TypeError] raised when the row
    or the tile is missing. *)
Definition updTile (f : Tile -> Tile) (x y : Z) (g : Grid) : option Grid :=
  match at_index g y with
  | Some row =>
    match at_index row x with
    | Some t => Some (<[Z.to_nat y := <[Z.to_nat x := f t]> row]> g)
    | None => None
    end
  | None => None
  end.

(** The guarded write [if (tiles[y] && tiles[y][x]) tiles[y][x].field = v]. *)
Definition updTileIfPresent (f : Tile -> Tile) (x y : Z) (g : Grid) : Grid :=
  match updTile f x y g with
  | Some g' => g'
  | None => g
  end.

(** The nested initialisation loops [for y < height, for x < width]. *)
Definition initTiles (width height : Z) (t : TileType) : Grid :=
  replicate (Z.to_nat height)
    (replicate (Z.to_nat width)
       {| t_type := t; explored := false; visible := false;
          resources := None; zombiesCleared := None |}).

(** *** The rot-js library and the JavaScript runtime *)

Record Room := {
  getDoors : list (Z * Z);      (* the cells room.getDoors reports *)
  getCenter : Z * Z             (* room.getCenter() *)
}.

Record DiggerOptions := {
  roomWidth : Z * Z; roomHeight : Z * Z; corridorLength : Z * Z;
  dugPercentage : Q
}.

Record CellularOptions := { born : list Z; survive : list Z }.

(** What the code calls and does not define.  A map generator is a
    function of its arguments and of the state of [ROT.RNG]; it reports
    the cells [(x, y, value)] its [create] callback is called with.
    [ROT.RNG.setSeed] overwrites the whole generator state. *)
Record Rot := {
  rng : Type;
  parseFloat : string -> option Q;                 (* [None] is NaN *)
  setSeed : Q -> rng;
  getUniformInt : Z -> Z -> rng -> Z * rng;
  digger_create : Z -> Z -> DiggerOptions -> rng ->
                  (list (Z * Z * Z) * list Room) * rng;
  cellular : Type;
  cellular_new : Z -> Z -> CellularOptions -> cellular;
  cellular_randomize : Q -> cellular -> rng -> cellular * rng;
  cellular_create : cellular -> rng -> (cellular * list (Z * Z * Z)) * rng;
  fov_compute : (Z -> Z -> bool) -> Z -> Z -> Z -> list (Z * Z);
  astar_compute : (Z -> Z -> bool) -> Z * Z -> Z * Z -> list (Z * Z)
}.

(** The ambient state a generator call runs in: the clock [Date.now()]
    reads and the state [ROT.RNG] was left in. *)
Record Env (R : Rot) := { clock : Z; rngState : rng R }.
Arguments clock {R} _.
Arguments rngState {R} _.

Section Generators.

Context (R : Rot).

(** [parseFloat(actualSeed) || 12345] *)
Definition seedNumber (actualSeed : string) : Q :=
  match parseFloat R actualSeed with
  | Some q => if Qeq_bool q 0 then 12345%Q else q
  | None => 12345%Q
  end.

(** [seed || Date.now().toString()] *)
Definition actualSeed (seed : option string) (now : Z) : string :=
  Js.str_or seed (pretty now).

(** The [create] callback of a generator, run over the reported cells:
    [tiles[y][x].type = value === on ? a : b]. *)
Fixpoint paint (on : Z) (a b : TileType) (cells : list (Z * Z * Z)) (g : Grid)
  : option Grid :=
  match cells with
  | [] => Some g
  | (x, y, value) :: tl =>
    match updTile (set_type (if value =? on then a else b)) x y g with
    | Some g' => paint on a b tl g'
    | None => None
    end
  end.

(** [rooms.forEach(room => room.getDoors((x, y) => ...))] *)
Definition addDoors (rooms : list Room) (g : Grid) : Grid :=
  fold_left (fun g room =>
               fold_left (fun g '(x, y) => updTileIfPresent (set_type door) x y g)
                         (getDoors room) g)
            rooms g.

Definition resourceTypes : list string :=
  ["Scrap Metal"; "Canned Food"; "Bandages"; "Ammo"].

(** [rooms.forEach(room => { const [cx, cy] = room.getCenter(); ... })] *)
Fixpoint addResources (rooms : list Room) (g : Grid) (s : rng R) : Grid * rng R :=
  match rooms with
  | [] => (g, s)
  | room :: tl =>
    let '(cx, cy) := getCenter room in
    match tileAt g cx cy with
    | Some _ =>
      let '(i, s') := getUniformInt R 0 (Z.of_nat (length resourceTypes) - 1) s in
      addResources tl
        (updTileIfPresent (set_resources [at_index resourceTypes i]) cx cy g) s'
    | None => addResources tl g s
    end
  end.

Definition diggerOptions : DiggerOptions :=
  {| roomWidth := (5, 9); roomHeight := (5, 9); corridorLength := (3, 7);
     dugPercentage := 0.4%Q |}.

(** [generateProceduralWorld(width, height, seed)]; the result is [None]
    when the source raises a [TypeError]. *)
Definition generateProceduralWorld (width height : Z) (seed : option string)
    (env : Env R) : option WorldMap * Env R :=
  let actual := actualSeed seed (clock env) in
  let s0 := setSeed R (seedNumber actual) in
  let tiles0 := initTiles width height wall in
  let '((cells, rooms), s1) := digger_create R width height diggerOptions s0 in
  match paint 0 floor wall cells tiles0 with
  | None => (None, {| clock := clock env; rngState := s1 |})
  | Some tiles1 =>
    let tiles2 := addDoors rooms tiles1 in
    let '(tiles3, s2) := addResources rooms tiles2 s1 in
    (Some {| width := width; height := height; tiles := tiles3; seed := actual |},
     {| clock := clock env; rngState := s2 |})
  end.

(** [for (let i = 0; i < n; i++) cellular.create()] *)
Fixpoint iterate_create (n : nat) (c : cellular R) (s : rng R) : cellular R * rng R :=
  match n with
  | O => (c, s)
  | S n' => let '((c', _), s') := cellular_create R c s in iterate_create n' c' s'
  end.

(** The ten attempts at placing a building. *)
Fixpoint addBuildings (n : nat) (width height : Z) (g : Grid) (s : rng R)
  : option Grid * rng R :=
  match n with
  | O => (Some g, s)
  | S n' =>
    let '(x, s1) := getUniformInt R 1 (width - 2) s in
    let '(y, s2) := getUniformInt R 1 (height - 2) s1 in
    match tileAt g x y with
    | None => (None, s2)
    | Some t =>
      if is_grass (t_type t) then
        addBuildings n' width height
          (updTileIfPresent
             (fun t => set_resources [Some "Medical Supplies"; Some "Tools"; Some "Food"]
                         (set_type building t)) x y g) s2
      else addBuildings n' width height g s2
    end
  end.

Definition cellularOptions : CellularOptions :=
  {| born := [4; 5; 6; 7; 8]; survive := [2; 3; 4; 5] |}.

(** [generateCellularWorld(width, height, seed)] *)
Definition generateCellularWorld (width height : Z) (seed : option string)
    (env : Env R) : option WorldMap * Env R :=
  let actual := actualSeed seed (clock env) in
  let s0 := setSeed R (seedNumber actual) in
  let tiles0 := initTiles width height grass in
  let c0 := cellular_new R width height cellularOptions in
  let '(c1, s1) := cellular_randomize R 0.5%Q c0 s0 in
  let '(c2, s2) := iterate_create 4 c1 s1 in
  let '((_, cells), s3) := cellular_create R c2 s2 in
  match paint 1 grass water cells tiles0 with
  | None => (None, {| clock := clock env; rngState := s3 |})
  | Some tiles1 =>
    match addBuildings 10 width height tiles1 s3 with
    | (None, s4) => (None, {| clock := clock env; rngState := s4 |})
    | (Some tiles2, s4) =>
      (Some {| width := width; height := height; tiles := tiles2; seed := actual |},
       {| clock := clock env; rngState := s4 |})
    end
  end.

(** The level styles of [WorldStateManager.initializeWorld] and its
    [switch (type)]. *)
Inductive LevelType := dungeon | outdoor | mixed.

Definition generate (width height : Z) (seed : option string) (style : LevelType)
    (env : Env R) : option WorldMap * Env R :=
  match style with
  | outdoor => generateCellularWorld width height seed env
  | _ => generateProceduralWorld width height seed env
  end.

(** *** Field of view *)

(** The closure [lightPasses] of [calculateFOV] and [hasLineOfSight].
    Inside the declared bounds the source reads [world.tiles[y][x].type]
    unguarded; on a well-formed world (see [well_formed] below) the tile is
    always there, which is the [Some] case. *)
Definition lightPasses (world : WorldMap) (x y : Z) : bool :=
  if (x <? 0) || (y <? 0) || (width world <=? x) || (height world <=? y) then false
  else match tileAt (tiles world) x y with
       | Some tile => negb (is_wall (t_type tile))
       | None => false
       end.

(** The callback of [fov.compute]: the key is added to the set, and the
    tile, when there is one, becomes visible and explored. *)
Definition see (acc : gset (Z * Z) * Grid) (v : Z * Z) : gset (Z * Z) * Grid :=
  let '(vx, vy) := v in
  ({[ (vx, vy) ]} ∪ fst acc,
   updTileIfPresent (fun t => set_explored true (set_visible true t)) vx vy (snd acc)).

(** [calculateFOV(world, x, y, radius)]: the returned set and the world as
    the call leaves it. *)
Definition calculateFOV (world : WorldMap) (x y radius : Z)
  : gset (Z * Z) * WorldMap :=
  let visited := fov_compute R (lightPasses world) x y radius in
  let '(vis, g) := fold_left see visited (∅, tiles world) in
  (vis, set_tiles g world).

(** [for (x = 0; x < n; x++) row[x].visible = false] *)
Fixpoint resetRow (n : nat) (row : list Tile) : option (list Tile) :=
  match n with
  | O => Some row
  | S n' =>
    match row with
    | [] => None
    | t :: tl =>
      match resetRow n' tl with
      | Some tl' => Some (set_visible false t :: tl')
      | None => None
      end
    end
  end.

(** [for (y = 0; y < m; y++) for (x = 0; x < n; x++) ...] *)
Fixpoint resetRows (m n : nat) (g : Grid) : option Grid :=
  match m with
  | O => Some g
  | S m' =>
    match g with
    | [] => if (n =? 0)%nat then resetRows m' n [] else None
    | row :: tl =>
      match resetRow n row, resetRows m' n tl with
      | Some row', Some tl' => Some (row' :: tl')
      | _, _ => None
      end
    end
  end.

(** [updateVisibility(world, x, y, radius)]; [None] is the [TypeError] of
    the reset loop on a grid smaller than the declared size. *)
Definition updateVisibility (world : WorldMap) (x y radius : Z) : option WorldMap :=
  match resetRows (Z.to_nat (height world)) (Z.to_nat (width world)) (tiles world) with
  | Some g => Some (snd (calculateFOV (set_tiles g world) x y radius))
  | None => None
  end.

(** *** Line of sight *)

(** [hasLineOfSight(world, start, end)]: a path search towards [end]
    whose passability test is [lightPasses]; [clear] is cleared by a
    reported cell light does not pass. *)
Definition hasLineOfSight (world : WorldMap) (start end_ : Position) : bool :=
  let line := astar_compute R (lightPasses world)
                (pos_x end_, pos_y end_) (pos_x start, pos_y start) in
  forallb (fun '(x, y) => lightPasses world x y) line.

End Generators.

(** *** Well-formed worlds and the visibility invariant *)

(** The grid has [height] rows of [width] tiles. *)
Definition well_formed (w : WorldMap) : Prop :=
  0 <= width w /\ 0 <= height w /\
  length (tiles w) = Z.to_nat (height w) /\
  Forall (fun row => length row = Z.to_nat (width w)) (tiles w).

(** [visible] is a subset of [explored]. *)
Definition visible_explored (g : Grid) : Prop :=
  forall x y t, tileAt g x y = Some t -> visible t = true -> explored t = true.

(** No tile is marked visible: the state a generator leaves. *)
Definition hidden (g : Grid) : Prop :=
  forall x y t, tileAt g x y = Some t -> visible t = false.

(** [g] has [h] rows of [w] tiles. *)
Definition dims (w h : nat) (g : Grid) : Prop :=
  length g = h /\ Forall (fun row => length row = w) g.

(** No [explored] flag of [g] is reset in [g']. *)
Definition explored_kept (g g' : Grid) : Prop :=
  forall x y t, tileAt g x y = Some t -> explored t = true ->
    exists t', tileAt g' x y = Some t' /\ explored t' = true.

(** The worlds the program can hold: what a generator returns, and what
    the visibility functions make of such a world. *)
Inductive reachable (R : Rot) : WorldMap -> Prop :=
  | reach_generate width height seed style env w :
      0 <= width -> 0 <= height ->
      fst (generate R width height seed style env) = Some w ->
      reachable R w
  | reach_calculateFOV w x y radius :
      reachable R w -> reachable R (snd (calculateFOV R w x y radius))
  | reach_updateVisibility w x y radius w' :
      reachable R w -> updateVisibility R w x y radius = Some w' ->
      reachable R w'.

End World.

(** ** types.ts, peerGameProtocol.ts, peerService.ts, GameScreen.tsx *)

Module Host.
Import Combat.

(** *** Messages *)

Record PlayerCharacter := { pc_name : string; profession : string; perk : string }.

Inductive Role := user | model | system.

(** [interface Message] of types.ts: an entry of the chat stream. *)
Record ChatMessage := {
  m_id : string;
  role : Role;
  text : string;
  imageUrl : option string;
  timestamp : Z;
  isVisualizing : option bool
}.

(** [type PeerData] of types.ts: the packets the peer service is typed
    to carry. *)
Inductive PeerData :=
  | STATE_SYNC (gameState : GameState) (messages : list ChatMessage)
  | ACTION (text : string)
  | HANDSHAKE (character : PlayerCharacter).

Inductive RequestReason := out_of_sync | reconnect | initial.

Inductive Outcome := won | lost | escaped.   (* 'victory' | 'defeat' | 'fled' *)

(** [type GameMessage] of peerGameProtocol.ts. *)
Inductive GameMessage :=
  | G_HANDSHAKE (character : PlayerCharacter) (clientVersion : string)
  | G_HANDSHAKE_ACK (hostVersion worldSeed : string) (currentGameState : GameState)
  | G_STATE_SYNC (gameState : GameState) (messages : list ChatMessage) (timestamp : Z)
  | G_STATE_REQUEST (reason : RequestReason)
  | G_GAME_ACTION (actionId action : string) (payload : CombatAction + string)
                  (timestamp : Z)
  | G_ACTION_RESULT (actionId : string) (success : bool)
                    (results : list CombatResult) (newGameState : GameState)
  | G_ACTION_REJECTED (actionId reason : string) (currentGameState : GameState)
  | G_COMBAT_START (enemyTypes : list string) (isNight : bool)
  | G_COMBAT_UPDATE (gameState : GameState) (combatLog : list CombatResult)
  | G_COMBAT_END (outcome : Outcome)
  | G_PLAYER_MESSAGE (playerId message : string)
  | G_PLAYER_DISCONNECTED (playerId : string)
  | G_PING (timestamp : Z)
  | G_PONG (timestamp : Z)
  | G_ERROR (code message : string).

(** What arrives on the data connection: [conn.on('data')] hands any
    object to the callback, cast to [PeerData]. *)
Inductive Data :=
  | Typed (d : PeerData)
  | Untyped (m : GameMessage).

(** [data.type] *)
Definition data_type (d : Data) : string :=
  match d with
  | Typed (STATE_SYNC _ _) => "STATE_SYNC"
  | Typed (ACTION _) => "ACTION"
  | Typed (HANDSHAKE _) => "HANDSHAKE"
  | Untyped (G_HANDSHAKE _ _) => "HANDSHAKE"
  | Untyped (G_HANDSHAKE_ACK _ _ _) => "HANDSHAKE_ACK"
  | Untyped (G_STATE_SYNC _ _ _) => "STATE_SYNC"
  | Untyped (G_STATE_REQUEST _) => "STATE_REQUEST"
  | Untyped (G_GAME_ACTION _ _ _ _) => "GAME_ACTION"
  | Untyped (G_ACTION_RESULT _ _ _ _) => "ACTION_RESULT"
  | Untyped (G_ACTION_REJECTED _ _ _) => "ACTION_REJECTED"
  | Untyped (G_COMBAT_START _ _) => "COMBAT_START"
  | Untyped (G_COMBAT_UPDATE _ _) => "COMBAT_UPDATE"
  | Untyped (G_COMBAT_END _) => "COMBAT_END"
  | Untyped (G_PLAYER_MESSAGE _ _) => "PLAYER_MESSAGE"
  | Untyped (G_PLAYER_DISCONNECTED _) => "PLAYER_DISCONNECTED"
  | Untyped (G_PING _) => "PING"
  | Untyped (G_PONG _) => "PONG"
  | Untyped (G_ERROR _ _) => "ERROR"
  end.

(** [data.text] *)
Definition data_text (d : Data) : option string :=
  match d with
  | Typed (ACTION t) => Some t
  | _ => None
  end.

(** *** The host side of GameScreen *)

Record GameConfig := { isMultiplayer : bool; cfg_isHost : bool }.

Definition isClient (c : GameConfig) : bool := isMultiplayer c && negb (cfg_isHost c).
Definition isHost (c : GameConfig) : bool := isMultiplayer c && cfg_isHost c.

(** The component state ([useState]) and the connection of the peer
    service. *)
Record Screen := {
  s_messages : list ChatMessage;
  s_input : string;
  s_gameState : GameState;
  s_isProcessing : bool;
  connOpen : bool               (* this.conn && this.conn.open *)
}.

(** What a handler does besides updating the state. *)
Inductive Effect :=
  | Sent (d : PeerData)          (* conn.send(data) *)
  | Warned                       (* console.warn: connection not open *)
  | AskEngine (actionText : string).
                                 (* await GeminiService.sendGameAction(actionText) *)

(** [peerService.send(data)] *)
Definition send (s : Screen) (d : PeerData) : list Effect :=
  if connOpen s then [Sent d] else [Warned].

(** The host broadcast effect,
    [useEffect(..., [gameState, messages, isHost])]: it runs after a
    render in which one of its dependencies changed. *)
Definition broadcast (c : GameConfig) (changed : bool) (s : Screen) : list Effect :=
  if changed && isHost c then send s (STATE_SYNC (s_gameState s) (s_messages s))
  else [].

(** [s.trim()] is empty: only white space. *)
Definition is_space (c : ascii) : bool :=
  let n := nat_of_ascii c in ((n =? 32) || ((9 <=? n) && (n <=? 13)))%nat.

Fixpoint blank (s : string) : bool :=
  match s with
  | EmptyString => true
  | String c s' => is_space c && blank s'
  end.

(** The synchronous part of [handleSend(customAction)] on the host, as
    the listener registered at mount time runs it: it closes over the
    first render, where [input] is empty and [isProcessing] is false. *)
Definition handleSend (c : GameConfig) (now : Z) (customAction : string) (s : Screen)
  : Screen * list Effect :=
  let input := "" in
  let isProcessing := false in
  let actionText := Js.str_or (Some customAction) input in
  if blank actionText || isProcessing then (s, []) else
  let userMsg := {| m_id := pretty now; role := user; text := actionText;
                    imageUrl := None; timestamp := now; isVisualizing := None |} in
  let s' := {| s_messages := (s_messages s ++ [userMsg])%list; s_input := "";
               s_gameState := s_gameState s; s_isProcessing := true;
               connOpen := connOpen s |} in
  (s', (broadcast c true s' ++ [AskEngine actionText])%list).

(** The listener the host registers with [peerService.onData]. *)
Definition hostOnData (c : GameConfig) (now : Z) (data : Data) (s : Screen)
  : Screen * list Effect :=
  if String.eqb (data_type data) "ACTION"
  then handleSend c now (Js.str_or (data_text data) "") s
  else (s, []).

(** The STATE_SYNC packets among the effects of a handler. *)
Definition syncs_sent (es : list Effect) : nat :=
  length (List.filter (fun e => match e with Sent (STATE_SYNC _ _) => true | _ => false end) es).

End Host.

(** ** The formulas of the specification, as it words them *)

Module Spec.

(** "floor(max(1, base(10) x (1 +- 0.2 variance) - targetDefense) x
    (1.5 if critical else 1))", [variance] being the signed factor in
    [-1, 1]. *)
Definition attack_damage (variance targetDefense : Q) (critical : bool) : Z :=
  Qfloor (Qmax 1 (10 * (1 + 0.2 * variance) - targetDefense)
          * (if critical then 1.5 else 1))%Q.

(** "base(8, or 15 if maxHp>50)" *)
Definition enemy_base (enemyMaxHp : Z) : Q := if 50 <? enemyMaxHp then 15%Q else 8%Q.

(** "floor(max(1, base x uniform(0.8,1.2)) x (0.5 if player defended else
    1))", [u] being the uniform factor. *)
Definition enemy_damage (enemyMaxHp : Z) (defended : bool) (u : Q) : Z :=
  Qfloor (Qmax 1 (enemy_base enemyMaxHp * u) * (if defended then 0.5 else 1))%Q.

(** The order in which the code applies the same steps: the defence
    reduction is floored first, the variance is floored next, the minimum
    of 1 comes last. *)
Definition enemy_damage_as_coded (enemyMaxHp : Z) (defended : bool) (u : Q) : Z :=
  Z.max 1
    (Qfloor (inject_Z (Qfloor (enemy_base enemyMaxHp * (if defended then 0.5 else 1)))
             * u))%Q.

End Spec.

(** ** Sample data *)

Module Sample.
Import Combat.

Definition walker : Enemy :=
  {| e_id := "z1"; e_name := "Walker"; e_hp := 30; e_maxHp := 30;
     e_status := "Active"; e_intent := Some "Lunge Attack"; e_range := Some Near |}.

Definition tank : Enemy :=
  {| e_id := "z2"; e_name := "Tank"; e_hp := 80; e_maxHp := 80;
     e_status := "Active"; e_intent := Some "Lunge Attack"; e_range := Some Near |}.

(** A survivor fighting bare-handed with the given Melee level. *)
Definition survivor (meleeLevel : Z) (es : list Enemy) : GameState :=
  {| hp := 100; maxHp := 100; infectionLevel := 0; supplies := 5; day := 1;
     time := "Morning"; location := "Safehouse (Basement)";
     inventory := ["Bandage"; "Scrap Metal"]; equippedWeapon := None;
     skills := <["Melee" := meleeLevel]> ∅; phase := combat;
     actionPoints := 3; gs_maxActionPoints := 3; enemies := es;
     lastActionSummary := "" |}.

Definition act (t : CombatActionType) (target item : option string) : CombatAction :=
  {| a_type := t; a_targetId := target; a_itemId := item; a_direction := None |}.

(** A host in the middle of a fight, its connection open. *)
Definition screen : Host.Screen :=
  {| Host.s_messages := []; Host.s_input := "";
     Host.s_gameState := survivor 1 [walker];
     Host.s_isProcessing := false; Host.connOpen := true |}.

Definition hosting : Host.GameConfig :=
  {| Host.isMultiplayer := true; Host.cfg_isHost := true |}.

(** An oracle that returns the listed draws, then 0.5 for ever. *)
Definition draws (l : list Q) : nat -> Q := fun k => nth k l 0.5%Q.

End Sample.

(** ** A small executable library instance

    The theorems below hold for every [World.Rot].  To run the code on
    concrete inputs an instance is needed; this one is deliberately
    simple: a linear congruential generator, a digger that carves
    interior cells chosen by the generator state, a field of view without
    shadows, and a breadth-first path search over the eight neighbours. *)

Module SampleRot.
Import World.

Definition digit (c : ascii) : option Z :=
  let n := nat_of_ascii c in
  if ((48 <=? n) && (n <=? 57))%nat then Some (Z.of_nat n - 48) else None.

Fixpoint digits (acc : option Z) (s : string) : option Z :=
  match s with
  | EmptyString => acc
  | String c s' =>
    match digit c with
    | Some d => digits (Some (10 * default 0 acc + d)) s'
    | None => acc
    end
  end.

(** The leading decimal integer of a string, as [parseFloat] reads it;
    NaN when there is none. *)
Definition parseFloat (s : string) : option Q :=
  match digits None s with
  | Some n => Some (inject_Z n)
  | None => None
  end.

Definition next (s : Z) : Z := (s * 1103515245 + 12345) mod 2147483648.

Definition setSeed (q : Q) : Z := Qfloor q.

Definition getUniformInt (a b s : Z) : Z * Z :=
  let lo := Z.min a b in
  let hi := Z.max a b in
  (lo + s mod (hi - lo + 1), next s).

(** All cells [(x, y)] of a [w] by [h] map, row by row. *)
Definition cellsOf (w h : Z) : list (Z * Z) :=
  y ← seqZ 0 h; x ← seqZ 0 w; [(x, y)].

Definition interior (w h x y : Z) : bool :=
  (0 <? x) && (x <? w - 1) && (0 <? y) && (y <? h - 1).

Definition digger_create (w h : Z) (_ : DiggerOptions) (s : Z)
  : (list (Z * Z * Z) * list Room) * Z :=
  ((map (fun '(x, y) =>
           (x, y, if interior w h x y && negb ((x + y + s) mod 3 =? 0) then 0 else 1))
        (cellsOf w h),
    [ {| getDoors := [(0, h / 2)]; getCenter := (w / 2, h / 2) |} ]),
   next s).

Definition cellular_new (w h : Z) (_ : CellularOptions) : list (Z * Z * Z) :=
  map (fun '(x, y) => (x, y, 0)) (cellsOf w h).

Definition cellular_randomize (_ : Q) (c : list (Z * Z * Z)) (s : Z)
  : list (Z * Z * Z) * Z :=
  (map (fun '(x, y, _) => (x, y, (x + 2 * y + s) mod 2)) c, next s).

Definition cellular_create (c : list (Z * Z * Z)) (s : Z)
  : (list (Z * Z * Z) * list (Z * Z * Z)) * Z :=
  ((c, c), s).

(** The origin, then (when light passes there) the square of the given
    radius around it. *)
Definition fov_compute (pass : Z -> Z -> bool) (x y r : Z) : list (Z * Z) :=
  (x, y) ::
  (if pass x y
   then List.filter (fun '(vx, vy) => negb ((vx =? x) && (vy =? y)))
          (vy ← seqZ (y - r) (2 * r + 1); vx ← seqZ (x - r) (2 * r + 1); [(vx, vy)])
   else []).

Definition dirs8 : list (Z * Z) :=
  [(0, -1); (1, -1); (1, 0); (1, 1); (0, 1); (-1, 1); (-1, 0); (-1, -1)].

Definition cell_eqb (a b : Z * Z) : bool := (fst a =? fst b) && (snd a =? snd b).

(** Breadth-first search from the target; [todo] holds the partial paths,
    each headed by the cell to expand and ending at the target. *)
Fixpoint search (fuel : nat) (pass : Z -> Z -> bool) (from : Z * Z)
    (todo : list (list (Z * Z))) (done : list (Z * Z)) : list (Z * Z) :=
  match fuel with
  | O => []
  | S fuel' =>
    match todo with
    | [] => []
    | [] :: rest => search fuel' pass from rest done
    | (cell :: prev) :: rest =>
      if existsb (cell_eqb cell) done then search fuel' pass from rest done
      else if cell_eqb cell from then cell :: prev
      else
        let ns := List.filter
                    (fun n => pass (fst n) (snd n) && negb (existsb (cell_eqb n) done))
                    (map (fun d => (fst cell + fst d, snd cell + snd d)) dirs8) in
        search fuel' pass from (rest ++ map (fun n => n :: cell :: prev) ns)%list
               (cell :: done)
    end
  end.

(** The cells reported from [from] to the target, none when there is no
    path. *)
Definition astar_compute (pass : Z -> Z -> bool) (to from : Z * Z) : list (Z * Z) :=
  search 4096 pass from [[to]] [].

Definition rot : Rot :=
  {| rng := Z;
     World.parseFloat := parseFloat;
     World.setSeed := setSeed;
     World.getUniformInt := getUniformInt;
     World.digger_create := digger_create;
     cellular := list (Z * Z * Z);
     World.cellular_new := cellular_new;
     World.cellular_randomize := cellular_randomize;
     World.cellular_create := cellular_create;
     World.fov_compute := fov_compute;
     World.astar_compute := astar_compute |}.

(** A world drawn row by row: [#] is a wall, anything else is floor. *)
Definition tileOf (c : ascii) (vis expl : bool) : Tile :=
  {| t_type := if Ascii.eqb c "#" then wall else floor; explored := expl;
     visible := vis; resources := None; zombiesCleared := None |}.

Definition rowOf (s : string) : list Tile :=
  map (fun c => tileOf c false false) (list_ascii_of_string s).

Definition worldOf (rows : list string) : WorldMap :=
  {| width := match rows with r :: _ => Z.of_nat (String.length r) | [] => 0 end;
     height := Z.of_nat (length rows);
     tiles := map rowOf rows;
     seed := "sample" |}.

(** A room with a pillar in its middle. *)
Definition pillar : WorldMap := worldOf ["..."; ".#."; "..."].

Definition west : Position := {| pos_x := 0; pos_y := 1 |}.
Definition east : Position := {| pos_x := 2; pos_y := 1 |}.

(** A corridor of five tiles whose far end is flagged visible though it
    was never explored: the flags of a world are whatever the caller
    passes, for instance what [importState] reads from a saved string. *)
Definition stale : WorldMap :=
  {| width := 5; height := 1;
     tiles := [[tileOf "." false false; tileOf "." false false;
                tileOf "." false false; tileOf "." false false;
                tileOf "." true false]];
     seed := "sample" |}.

(** A world that declares two rows and holds one. *)
Definition short : WorldMap :=
  {| width := 2; height := 2;
     tiles := [[tileOf "." false false; tileOf "." false false]];
     seed := "sample" |}.

(** The dungeon generated from the seed "7", an empty world if the
    generator fails. *)
Definition dungeon7 : WorldMap :=
  match fst (generate rot 5 4 (Some "7") dungeon (Build_Env rot 0 0)) with
  | Some w => w
  | None => worldOf []
  end.

End SampleRot.

(** ** gameBalance.ts: spawning *)

Module Spawn.
Import Balance.

(** The keys of [GAME_BALANCE.zombieTypes] with their [spawnWeight], in
    the order [Object.keys] lists them. *)
Definition spawnTable : list (string * Q) :=
  [("Walker", 0.5%Q); ("Runner", 0.2%Q); ("Tank", 0.1%Q); ("Spitter", 0.15%Q);
   ("Screamer", 0.05%Q)].

Definition zombieTypeNames : list string := map fst spawnTable.

(** "Night increases dangerous types" *)
Definition dangerous (type : string) : bool :=
  String.eqb type "Runner" || String.eqb type "Tank" || String.eqb type "Screamer".

(** [types.map(type => ...)] *)
Definition weights (isNight : bool) : list Q :=
  map (fun '(type, w) => if isNight && dangerous type then (w * 1.5)%Q else w)
      spawnTable.

(** [weights.reduce((sum, w) => sum + w, 0)] *)
Definition totalWeight (isNight : bool) : Q := fold_left Qplus (weights isNight) 0%Q.

(** The loop [random -= weights[i]; if (random <= 0) return types[i]];
    [None] when the loop runs to its end. *)
Fixpoint pick (types : list string) (ws : list Q) (random : Q) : option string :=
  match types, ws with
  | type :: types', w :: ws' =>
    let random := (random - w)%Q in
    if Js.Qleb random 0 then Some type else pick types' ws' random
  | _, _ => None
  end.

(** [selectZombieType(isNight)] with draw [r], on exact numbers: the
    code's sums and products of 0.2, 0.1 and 0.05 are rounded, which moves
    its thresholds by a few units in the last place. *)
Definition selectZombieType (isNight : bool) (r : Q) : string :=
  match pick zombieTypeNames (weights isNight) (r * totalWeight isNight) with
  | Some type => type
  | None => nth 0 zombieTypeNames ""       (* types[0], the fallback *)
  end.

Inductive LocationType := safe | urban | wilderness | hostile.

(** [calculateZombieSpawnCount(locationType, isNight)] with draw [r]. *)
Definition calculateZombieSpawnCount (locationType : LocationType) (isNight : bool)
    (r : Q) : Z :=
  let baseCount :=
    match locationType with
    | hostile => if isNight then 3 else 2
    | urban => if isNight then 2 else 1
    | wilderness => 1
    | safe => 0
    end in
  Z.max 1 (baseCount + (if Js.Qltb 0.5 r then 1 else -1)).

End Spawn.

(** ** Invariants of the combat engine *)

Module Invariants.
Import Combat.

(** No enemy is left with negative hit points. *)
Definition enemies_stand (s s' : Engine) : Prop :=
  Forall (fun e => 0 <= e_hp e) (enemies (gameState s)) ->
  Forall (fun e => 0 <= e_hp e) (enemies (gameState s')).

(** The engine and the game state it carries agree on the action points
    and on whether the fight goes on. *)
Definition in_step (s : Engine) : Prop :=
  actionPoints (gameState s) = playerActionPoints (combatState s) /\
  match c_phase (combatState s) with
  | player_turn => phase (gameState s) = combat
  | victory | defeat => phase (gameState s) = exploration
  | enemy_turn | fled => False
  end.

End Invariants.

(** ** peerGameProtocol.ts *)

Module Protocol.
Import Combat.

(** *** MessageValidator.validateAction *)

Record Verdict := { valid : bool; reason : option string }.

Definition rejected (why : string) : Verdict := {| valid := false; reason := Some why |}.
Definition accepted : Verdict := {| valid := true; reason := None |}.

Definition is_combat (p : GamePhase) : bool :=
  match p with combat => true | exploration => false end.

Definition is_flee (t : CombatActionType) : bool :=
  match t with flee => true | _ => false end.

(** [validateAction(action, gameState)] *)
Definition validateAction (action : CombatAction) (gameState : GameState) : Verdict :=
  if negb (is_combat (phase gameState)) && negb (is_flee (a_type action))
  then rejected "Not in combat phase" else
  if actionPoints gameState <? 1 then rejected "Insufficient action points" else
  let attack_check : option string :=
    match a_type action with
    | attack =>
      if negb (Js.truthy (a_targetId action)) then Some "No target specified" else
      match find (has_id (Js.str_or (a_targetId action) "")) (enemies gameState) with
      | Some target => if e_hp target <=? 0 then Some "Invalid or dead target" else None
      | None => Some "Invalid or dead target"
      end
    | _ => None
    end in
  match attack_check with
  | Some why => rejected why
  | None =>
    match a_type action with
    | use_item =>
      if negb (Js.truthy (a_itemId action)) then rejected "No item specified" else
      if negb (Js.arr_includes (Js.str_or (a_itemId action) "") (inventory gameState))
      then rejected "Item not in inventory" else accepted
    | _ => accepted
    end
  end.

(** *** ActionQueue *)

Record QueueEntry := { q_action : CombatAction; q_timestamp : Z }.

(** The two private fields of [class ActionQueue]. *)
Record ActionQueue := {
  queue : gmap string QueueEntry;
  pendingActionId : option string
}.

Definition new_ActionQueue : ActionQueue := {| queue := ∅; pendingActionId := None |}.

(** [enqueue(actionId, action)] at clock reading [now]. *)
Definition enqueue (now : Z) (actionId : string) (action : CombatAction)
    (q : ActionQueue) : ActionQueue :=
  {| queue := <[actionId := {| q_action := action; q_timestamp := now |}]> (queue q);
     pendingActionId := if negb (Js.truthy (pendingActionId q))
                        then Some actionId else pendingActionId q |}.

(** [dequeue(actionId)] *)
Definition dequeue (actionId : string) (q : ActionQueue) : ActionQueue :=
  {| queue := delete actionId (queue q);
     pendingActionId := if decide (pendingActionId q = Some actionId)
                        then None else pendingActionId q |}.

(** [getPending()] *)
Definition getPending (q : ActionQueue) : option (string * CombatAction) :=
  if negb (Js.truthy (pendingActionId q)) then None else
  let actionId := Js.str_or (pendingActionId q) "" in
  match queue q !! actionId with
  | Some entry => Some (actionId, q_action entry)
  | None => None
  end.

(** [clear()] *)
Definition clear (q : ActionQueue) : ActionQueue := new_ActionQueue.

(** [isTimedOut(actionId, timeoutMs)] at clock reading [now]. *)
Definition isTimedOut (now : Z) (actionId : string) (timeoutMs : Z) (q : ActionQueue)
  : bool :=
  match queue q !! actionId with
  | Some entry => timeoutMs <? now - q_timestamp entry
  | None => false
  end.

(** The calls a client can make on its queue. *)
Inductive QueueCall :=
  | Enqueue (now : Z) (actionId : string) (action : CombatAction)
  | Dequeue (actionId : string)
  | Clear.

Definition call (c : QueueCall) (q : ActionQueue) : ActionQueue :=
  match c with
  | Enqueue now actionId action => enqueue now actionId action q
  | Dequeue actionId => dequeue actionId q
  | Clear => clear q
  end.

(** The queue after a sequence of calls, the first call first. *)
Definition calls (cs : list QueueCall) (q : ActionQueue) : ActionQueue :=
  fold_left (fun q c => call c q) cs q.

(** The pending action is one of the queued ones. *)
Definition pending_is_queued (q : ActionQueue) : Prop :=
  forall actionId, pendingActionId q = Some actionId -> is_Some (queue q !! actionId).

(** *** StateSyncManager *)

Record StateSyncManager := { lastSyncTimestamp : Z }.

Definition new_StateSyncManager : StateSyncManager := {| lastSyncTimestamp := 0 |}.

Definition syncIntervalMs : Z := 500.

(** [shouldSync(forceSync)] at clock reading [now]. *)
Definition shouldSync (forceSync : bool) (now : Z) (m : StateSyncManager)
  : bool * StateSyncManager :=
  if forceSync then (true, m) else
  if syncIntervalMs <=? now - lastSyncTimestamp m
  then (true, {| lastSyncTimestamp := now |})
  else (false, m).

(** A sequence of [shouldSync] calls, each with its [forceSync] flag and
    the clock reading it ran at: the readings of the unforced calls that
    were answered [true]. *)
Fixpoint granted (polls : list (bool * Z)) (m : StateSyncManager) : list Z :=
  match polls with
  | [] => []
  | (forceSync, now) :: rest =>
    let (answer, m') := shouldSync forceSync now m in
    if answer && negb forceSync then now :: granted rest m' else granted rest m'
  end.

End Protocol.

(** ** rotjsIntegration.ts: positions and searches *)

Module Nav.
Import World.

(** [tile.type !== 'wall' && tile.type !== 'water'] *)
Definition passable (t : TileType) : bool :=
  match t with
  | wall | water => false
  | _ => true
  end.

(** [nx >= 0 && ny >= 0 && nx < world.width && ny < world.height] *)
Definition in_bounds (world : WorldMap) (x y : Z) : bool :=
  (0 <=? x) && (0 <=? y) && (x <? width world) && (y <? height world).

(** [manhattanDistance(a, b)] *)
Definition manhattanDistance (a b : Position) : Z :=
  Z.abs (pos_x a - pos_x b) + Z.abs (pos_y a - pos_y b).

(** The distance in which [findNearestPassable] widens its search: the
    larger of the two coordinate differences. *)
Definition chebyshev (a b : Position) : Z :=
  Z.max (Z.abs (pos_x a - pos_x b)) (Z.abs (pos_y a - pos_y b)).

(** The offsets [(dx, dy)] one pass of the two inner loops of
    [findNearestPassable] visits, in order: those of the square of the
    given radius that lie on its border. *)
Definition ring (radius : Z) : list (Z * Z) :=
  dx ← seqZ (- radius) (2 * radius + 1);
  dy ← seqZ (- radius) (2 * radius + 1);
  if negb (Z.abs dx =? radius) && negb (Z.abs dy =? radius) then [] else [(dx, dy)].

(** [for (let radius = 0; radius <= maxRadius; radius++)] *)
Definition offsets (maxRadius : Z) : list (Z * Z) :=
  radius ← seqZ 0 (maxRadius + 1); ring radius.

(** The body of the loops, over the offsets still to visit.  The outer
    [None] is the [TypeError] of reading a tile the grid lacks. *)
Fixpoint firstPassable (world : WorldMap) (x y : Z) (offs : list (Z * Z))
  : option (option Position) :=
  match offs with
  | [] => Some None
  | (dx, dy) :: rest =>
    let nx := x + dx in
    let ny := y + dy in
    if in_bounds world nx ny then
      match tileAt (tiles world) nx ny with
      | None => None
      | Some tile =>
        if passable (t_type tile) then Some (Some {| pos_x := nx; pos_y := ny |})
        else firstPassable world x y rest
      end
    else firstPassable world x y rest
  end.

(** The test the loops make of one offset: inside the world and on a
    walkable tile. *)
Definition good (world : WorldMap) (x y : Z) (d : Z * Z) : bool :=
  in_bounds world (x + fst d) (y + snd d) &&
  match tileAt (tiles world) (x + fst d) (y + snd d) with
  | Some tile => passable (t_type tile)
  | None => false
  end.

(** [findNearestPassable(world, position)] *)
Definition findNearestPassable (world : WorldMap) (position : Position)
  : option (option Position) :=
  firstPassable world (pos_x position) (pos_y position) (offsets 10).

(** [Math.sqrt((x - px) ** 2 + (y - py) ** 2) >= minDistance], on exact
    numbers: the square root of a sum of squares is at least [d] when [d]
    is not positive or its square is at most the sum. *)
Definition far_enough (x y : Z) (playerPos : Position) (minDistance : Q) : bool :=
  Js.Qleb minDistance 0 ||
  Js.Qleb (minDistance * minDistance)
          (inject_Z ((x - pos_x playerPos) ^ 2 + (y - pos_y playerPos) ^ 2)).

(** A JavaScript array of [A]s as [SeededRNG.shuffle] can leave it: its
    elements ([None] where it holds [undefined] or a hole), and the values
    stored under negative keys, which are properties and no elements. *)
Record JsArray (A : Type) := {
  elems : list (option A);
  props : gmap Z (option A)
}.
Arguments elems {A} _.
Arguments props {A} _.

(** [arr[i]] *)
Definition read {A} (arr : JsArray A) (i : Z) : option A :=
  if i <? 0 then default None (props arr !! i)
  else default None (elems arr !! Z.to_nat i).

(** [arr[i] = v]: past the end the array grows, the gap being holes. *)
Definition write {A} (arr : JsArray A) (i : Z) (v : option A) : JsArray A :=
  if i <? 0 then {| elems := elems arr; props := <[i := v]> (props arr) |}
  else if i <? Z.of_nat (length (elems arr))
       then {| elems := <[Z.to_nat i := v]> (elems arr); props := props arr |}
       else {| elems := (elems arr
                         ++ replicate (Z.to_nat i - length (elems arr)) None ++ [v])%list;
               props := props arr |}.

(** [[copy[i], copy[j]] = [copy[j], copy[i]]] *)
Definition swap {A} (i j : Z) (copy : JsArray A) : JsArray A :=
  let a := read copy j in
  let b := read copy i in
  write (write copy i a) j b.

Section Random.
Context (R : Rot).

(** The [while] loop of [findZombieSpawnPoints], with the attempts that
    are left of the 100. *)
Fixpoint spawnSearch (attemptsLeft : nat) (world : WorldMap) (playerPos : Position)
    (count : Z) (minDistance : Q) (spawnPoints : list Position) (s : rng R)
  : option (list Position) * rng R :=
  match attemptsLeft with
  | O => (Some spawnPoints, s)
  | S attemptsLeft' =>
    if Z.of_nat (length spawnPoints) <? count then
      let '(x, s1) := getUniformInt R 0 (width world - 1) s in
      let '(y, s2) := getUniformInt R 0 (height world - 1) s1 in
      match tileAt (tiles world) x y with
      | None => (None, s2)
      | Some tile =>
        if passable (t_type tile) && far_enough x y playerPos minDistance
        then spawnSearch attemptsLeft' world playerPos count minDistance
               (spawnPoints ++ [{| pos_x := x; pos_y := y |}]) s2
        else spawnSearch attemptsLeft' world playerPos count minDistance
               spawnPoints s2
      end
    else (Some spawnPoints, s)
  end.

(** [findZombieSpawnPoints(world, playerPos, count, minDistance)] *)
Definition findZombieSpawnPoints (world : WorldMap) (playerPos : Position)
    (count : Z) (minDistance : Q) (s : rng R) : option (list Position) * rng R :=
  spawnSearch 100 world playerPos count minDistance [] s.

(** The centre [getRandomPassablePosition] falls back to. *)
Definition centre (world : WorldMap) : Position :=
  {| pos_x := width world / 2; pos_y := height world / 2 |}.

Fixpoint randomSearch (attemptsLeft : nat) (world : WorldMap) (s : rng R)
  : option Position * rng R :=
  match attemptsLeft with
  | O => (Some (centre world), s)
  | S attemptsLeft' =>
    let '(x, s1) := getUniformInt R 0 (width world - 1) s in
    let '(y, s2) := getUniformInt R 0 (height world - 1) s1 in
    match tileAt (tiles world) x y with
    | None => (None, s2)
    | Some tile =>
      if passable (t_type tile) then (Some {| pos_x := x; pos_y := y |}, s2)
      else randomSearch attemptsLeft' world s2
    end
  end.

(** [getRandomPassablePosition(world)] *)
Definition getRandomPassablePosition (world : WorldMap) (s : rng R)
  : option Position * rng R :=
  randomSearch 100 world s.

(** The closure [passableCallback] of [findPath]; as for [lightPasses],
    the tile is always there on a well-formed world. *)
Definition passableCallback (world : WorldMap) (x y : Z) : bool :=
  if (x <? 0) || (y <? 0) || (width world <=? x) || (height world <=? y) then false
  else match tileAt (tiles world) x y with
       | Some tile => passable (t_type tile)
       | None => false
       end.

(** [findPath(world, start, goal)]: the cells the path search reports,
    without the first. *)
Definition findPath (world : WorldMap) (start goal : Position) : list Position :=
  tail (map (fun '(x, y) => {| pos_x := x; pos_y := y |})
            (astar_compute R (passableCallback world)
               (pos_x goal, pos_y goal) (pos_x start, pos_y start))).

(** The loop of [SeededRNG.shuffle], [i] running down to 1. *)
Fixpoint shuffleLoop {A} (i : nat) (copy : JsArray A) (s : rng R)
  : JsArray A * rng R :=
  match i with
  | O => (copy, s)
  | S i' =>
    let '(j, s') := getUniformInt R 0 (Z.of_nat i) s in
    shuffleLoop i' (swap (Z.of_nat i) j copy) s'
  end.

(** [shuffle(array)]: the elements of the copy it returns. *)
Definition shuffle {A} (array : list A) (s : rng R) : list (option A) * rng R :=
  let '(copy, s') :=
    shuffleLoop (length array - 1) {| elems := Some <$> array; props := ∅ |} s in
  (elems copy, s').

End Random.


(** What rot-js documents of [ROT.RNG.getUniformInt(lo, hi)]: the result
    lies between the two bounds. *)
Definition ranged (R : Rot) : Prop :=
  forall lo hi s, lo <= hi -> lo <= fst (getUniformInt R lo hi s) <= hi.

End Nav.

(** ** worldStateManager.ts *)

Module Manager.
Import World Nav.

Record WorldState := {
  world : option WorldMap;
  playerPosition : Position;
  visibleTiles : gset (Z * Z);
  currentLevel : Z;
  levelType : LevelType
}.

(** The two private fields of [class WorldStateManager]. *)
Record WorldStateManager := {
  worldState : WorldState;
  visionRadius : Z
}.

Definition new_WorldStateManager : WorldStateManager :=
  {| worldState := {| world := None; playerPosition := {| pos_x := 0; pos_y := 0 |};
                      visibleTiles := ∅; currentLevel := 0; levelType := dungeon |};
     visionRadius := 8 |}.

Inductive Heading := north | south | east | west.

Section Manager.
Context (R : Rot).

(** [updateFOV()]: [calculateFOV] marks the tiles of the world the
    manager holds, and its result replaces the visible set. *)
Definition updateFOV (m : WorldStateManager) : WorldStateManager :=
  match world (worldState m) with
  | None => m
  | Some w =>
    let '(visibleSet, w') :=
      calculateFOV R w (pos_x (playerPosition (worldState m)))
                   (pos_y (playerPosition (worldState m))) (visionRadius m) in
    {| worldState := {| world := Some w';
                        playerPosition := playerPosition (worldState m);
                        visibleTiles := visibleSet;
                        currentLevel := currentLevel (worldState m);
                        levelType := levelType (worldState m) |};
       visionRadius := visionRadius m |}
  end.

(** [initializeWorld(width, height, seed, type)]; [None] is a
    [TypeError] raised on the way. *)
Definition initializeWorld (width height : Z) (seed : option string) (type : LevelType)
    (env : Env R) (m : WorldStateManager) : option WorldStateManager * Env R :=
  match generate R width height seed type env with
  | (None, env') => (None, env')
  | (Some w, env') =>
    match getRandomPassablePosition R w (rngState env') with
    | (None, s) => (None, {| clock := clock env'; rngState := s |})
    | (Some startPosition, s) =>
      (Some (updateFOV
               {| worldState := {| world := Some w; playerPosition := startPosition;
                                   visibleTiles := ∅; currentLevel := 1;
                                   levelType := type |};
                  visionRadius := visionRadius m |}),
       {| clock := clock env'; rngState := s |})
    end
  end.

(** [movePlayer(newPosition)]: the boolean it returns and the manager it
    leaves; [None] is the [TypeError] of reading a row the grid lacks. *)
Definition movePlayer (newPosition : Position) (m : WorldStateManager)
  : option (bool * WorldStateManager) :=
  match world (worldState m) with
  | None => Some (false, m)
  | Some w =>
    let x := pos_x newPosition in
    let y := pos_y newPosition in
    if (x <? 0) || (y <? 0) || (width w <=? x) || (height w <=? y)
    then Some (false, m) else
    match at_index (tiles w) y with
    | None => None
    | Some row =>
      match at_index row x with
      | None => Some (false, m)
      | Some tile =>
        if negb (passable (t_type tile)) then Some (false, m) else
        Some (true,
              updateFOV
                {| worldState := {| world := world (worldState m);
                                    playerPosition := newPosition;
                                    visibleTiles := visibleTiles (worldState m);
                                    currentLevel := currentLevel (worldState m);
                                    levelType := levelType (worldState m) |};
                   visionRadius := visionRadius m |})
      end
    end
  end.

(** [movePlayerDirection(direction)] *)
Definition movePlayerDirection (direction : Heading) (m : WorldStateManager)
  : option (bool * WorldStateManager) :=
  let x := pos_x (playerPosition (worldState m)) in
  let y := pos_y (playerPosition (worldState m)) in
  movePlayer
    {| pos_x := match direction with east => x + 1 | west => x - 1 | _ => x end;
       pos_y := match direction with south => y + 1 | north => y - 1 | _ => y end |}
    m.

(** [spawnZombies(count, minDistance)] *)
Definition spawnZombies (count : Z) (minDistance : Q) (s : rng R) (m : WorldStateManager)
  : option (list Position) * rng R :=
  match world (worldState m) with
  | None => (Some [], s)
  | Some w => findZombieSpawnPoints R w (playerPosition (worldState m)) count
                minDistance s
  end.

(** [isPositionVisible(position)] *)
Definition isPositionVisible (position : Position) (m : WorldStateManager) : bool :=
  bool_decide ((pos_x position, pos_y position) ∈ visibleTiles (worldState m)).

(** [setVisionRadius(radius)] *)
Definition setVisionRadius (radius : Z) (m : WorldStateManager) : WorldStateManager :=
  updateFOV {| worldState := worldState m;
               visionRadius := Z.max 1 (Z.min radius 20) |}.

(** [getTileAt(position)] *)
Definition getTileAt (position : Position) (m : WorldStateManager) : option Tile :=
  match world (worldState m) with
  | None => None
  | Some w => tileAt (tiles w) (pos_x position) (pos_y position)
  end.

(** [isTileExplored(position)] *)
Definition isTileExplored (position : Position) (m : WorldStateManager) : bool :=
  match getTileAt position m with
  | Some tile => explored tile
  | None => false
  end.

(** [generateNextLevel()] *)
Definition generateNextLevel (env : Env R) (m : WorldStateManager)
  : option WorldStateManager * Env R :=
  let nextLevel := currentLevel (worldState m) + 1 in
  let seed := ("level-" ++ pretty nextLevel ++ "-" ++ pretty (clock env))%string in
  let width := 40 + nextLevel / 2 * 5 in
  let height := 30 + nextLevel / 2 * 5 in
  initializeWorld width height (Some seed) (levelType (worldState m)) env m.

(** The calls made on the manager, but for [importState], which installs
    whatever the saved string holds. *)
Inductive Call :=
  | InitializeWorld (width height : Z) (seed : option string) (type : LevelType)
  | MovePlayer (newPosition : Position)
  | MovePlayerDirection (direction : Heading)
  | UpdateFOV
  | SetVisionRadius (radius : Z)
  | GenerateNextLevel.

Definition perform (c : Call) (env : Env R) (m : WorldStateManager)
  : option WorldStateManager * Env R :=
  match c with
  | InitializeWorld width height seed type => initializeWorld width height seed type env m
  | MovePlayer newPosition => (snd <$> movePlayer newPosition m, env)
  | MovePlayerDirection direction => (snd <$> movePlayerDirection direction m, env)
  | UpdateFOV => (Some (updateFOV m), env)
  | SetVisionRadius radius => (Some (setVisionRadius radius m), env)
  | GenerateNextLevel => generateNextLevel env m
  end.

(** A session: the calls in order, stopped by the first error. *)
Fixpoint session (cs : list Call) (env : Env R) (m : WorldStateManager)
  : option WorldStateManager * Env R :=
  match cs with
  | [] => (Some m, env)
  | c :: rest =>
    match perform c env m with
    | (Some m', env') => session rest env' m'
    | (None, env') => (None, env')
    end
  end.

End Manager.

(** An [initializeWorld] call asks for a size that is not negative. *)
Definition sized (c : Call) : Prop :=
  match c with
  | InitializeWorld width height _ _ => 0 <= width /\ 0 <= height
  | _ => True
  end.

(** What a manager that holds a world can be relied on for: the world
    was generated and then only looked at, the tiles in the visible set
    are flagged visible and explored, and the vision radius is that of a
    new manager or a clamped one. *)
Definition sound (R : Rot) (m : WorldStateManager) : Prop :=
  1 <= visionRadius m <= 20 /\
  0 <= currentLevel (worldState m) <= 1 /\
  match world (worldState m) with
  | None => True
  | Some w =>
    reachable R w /\
    forall x y tile, (x, y) ∈ visibleTiles (worldState m) ->
      tileAt (tiles w) x y = Some tile ->
      visible tile = true /\ explored tile = true
  end.

End Manager.

(** ** explorationSystem.ts *)

Module Explore.
Import Balance Combat Spawn.

(** [GAME_BALANCE.world] *)
Definition encounterBaseChance : Q := 0.1.
Definition encounterNightMultiplier : Q := 2.0.

(** [gameState.time === 'Night' || gameState.time === 'Evening'] *)
Definition isNightTime (time : string) : bool :=
  String.eqb time "Night" || String.eqb time "Evening".

(** [calculateEncounterChance(gameState, tileType)], [difficulty] being
    [this.currentLevel.difficulty]. *)
Definition calculateEncounterChance (difficulty : Z) (time : string)
    (tileType : World.TileType) : Q :=
  let baseChance := encounterBaseChance in
  let baseChance :=
    match tileType with
    | World.ruins | World.building => (baseChance * 2)%Q
    | _ => baseChance
    end in
  let baseChance := if isNightTime time
                    then (baseChance * encounterNightMultiplier)%Q else baseChance in
  let baseChance := (baseChance * (1 + inject_Z difficulty * 0.1))%Q in
  Qmin baseChance 0.8.

(** [getLocationTypeFromTile()], from the tile [getTileAt] returns for
    the player's position. *)
Definition getLocationTypeFromTile (currentTile : option World.Tile) : LocationType :=
  match currentTile with
  | None => wilderness
  | Some tile =>
    match World.t_type tile with
    | World.building | World.ruins => hostile
    | World.floor | World.door => urban
    | World.grass => wilderness
    | _ => urban
    end
  end.

(** The [gameStateUpdates] and [spawnedEnemies] of the result of
    [generateEncounter]; the narrative text is left out. *)
Record Encounter := {
  en_phase : GamePhase;
  en_enemies : list Enemy;
  en_actionPoints : Z;
  en_maxActionPoints : Z
}.

Section Draws.
Variable random : nat -> Q.

(** The loop [for (let i = 0; i < zombieCount; i++)]: the [left]
    iterations that remain, [i] being the index reached and [drawn] the
    number of [Math.random()] calls made.  [None] is the [TypeError] of a
    type the table lacks. *)
Fixpoint spawnEnemies (isNight : bool) (left : nat) (i : Z) (drawn : nat)
  : option (list Enemy) :=
  match left with
  | O => Some []
  | S left' =>
    let zombieType := selectZombieType isNight (random drawn) in
    match zombieTypes zombieType, spawnEnemies isNight left' (i + 1) (S drawn) with
    | Some zombieConfig, Some rest =>
      Some ({| e_id := ("z" ++ pretty (i + 1))%string; e_name := z_name zombieConfig;
               e_hp := z_hp zombieConfig; e_maxHp := z_maxHp zombieConfig;
               e_status := "Active"; e_intent := Some "Lunge Attack";
               e_range := Some Near |} :: rest)
    | _, _ => None
    end
  end.

(** [generateEncounter(gameState, position)], [currentTile] being the
    tile under the player and [drawn] the number of draws made so far. *)
Definition generateEncounter (time : string) (currentTile : option World.Tile)
    (drawn : nat) : option Encounter :=
  let isNight := isNightTime time in
  let locationType := getLocationTypeFromTile currentTile in
  let zombieCount := calculateZombieSpawnCount locationType isNight (random drawn) in
  match spawnEnemies isNight (Z.to_nat zombieCount) 0 (S drawn) with
  | Some enemies =>
    Some {| en_phase := combat; en_enemies := enemies;
            en_actionPoints := baseActionPoints;
            en_maxActionPoints := maxActionPoints |}
  | None => None
  end.

End Draws.

(** The [gameStateUpdates] of [handleRest(gameState)]: the new [hp] and
    [supplies], or nothing when the supplies do not cover the cost. *)
Definition handleRest (gameState : GameState) : option (Q * Z) :=
  let healAmount := Qmin 20 (maxHp gameState - hp gameState) in
  let supplyCost := 1 in
  if supplies gameState <? supplyCost then None
  else Some (Qmin (hp gameState + healAmount) (maxHp gameState),
             supplies gameState - supplyCost).

End Explore.

(** ** components/MapView.tsx *)

Module View.
Import World.

(** An entry of the [enemies] property of the map. *)
Record Marker := {
  mk_id : string;
  mk_position : Position;
  mk_name : string;
  mk_hp : Z
}.

Definition viewportWidth (showMinimap : bool) (width : Z) : Z :=
  if showMinimap then Z.min width 20 else Z.min width 40.

Definition viewportHeight (showMinimap : bool) (height : Z) : Z :=
  if showMinimap then Z.min height 15 else Z.min height 30.

(** The first column and the first row of the viewport. *)
Definition startX (showMinimap : bool) (world : WorldMap) (playerPosition : Position)
  : Z :=
  let viewportWidth := viewportWidth showMinimap (width world) in
  Z.max 0 (Z.min (pos_x playerPosition - viewportWidth / 2)
                 (width world - viewportWidth)).

Definition startY (showMinimap : bool) (world : WorldMap) (playerPosition : Position)
  : Z :=
  let viewportHeight := viewportHeight showMinimap (height world) in
  Z.max 0 (Z.min (pos_y playerPosition - viewportHeight / 2)
                 (height world - viewportHeight)).

(** [e.position.x === x && e.position.y === y] *)
Definition stands_at (x y : Z) (e : Marker) : bool :=
  (pos_x (mk_position e) =? x) && (pos_y (mk_position e) =? y).

(** [getTileColor(x, y)]: the class names of the cell. *)
Definition getTileColor (world : WorldMap) (playerPosition : Position)
    (visibleTiles : gset (Z * Z)) (enemies : list Marker) (x y : Z) : string :=
  match tileAt (tiles world) x y with
  | None => "bg-slate-950"
  | Some tile =>
    let isVisible := bool_decide ((x, y) ∈ visibleTiles) in
    let isPlayer := (x =? pos_x playerPosition) && (y =? pos_y playerPosition) in
    let hasEnemy := existsb (stands_at x y) enemies in
    if isPlayer
    then "bg-blue-500 border border-blue-300 shadow-[0_0_10px_rgba(59,130,246,0.5)]"
    else if hasEnemy && isVisible
    then "bg-red-600 border border-red-400 shadow-[0_0_8px_rgba(220,38,38,0.4)]"
    else if isVisible then
      match t_type tile with
      | floor => "bg-slate-700"
      | wall => "bg-slate-900 border border-slate-800"
      | door => "bg-yellow-900 border border-yellow-700"
      | grass => "bg-green-900"
      | water => "bg-blue-900"
      | building => "bg-slate-600 border border-slate-500"
      | ruins => "bg-stone-700"
      end
    else if explored tile then
      match t_type tile with
      | floor => "bg-slate-900 opacity-40"
      | wall => "bg-slate-950 opacity-40"
      | door => "bg-yellow-950 opacity-40"
      | grass => "bg-green-950 opacity-40"
      | water => "bg-blue-950 opacity-40"
      | building => "bg-slate-800 opacity-40"
      | ruins => "bg-stone-900 opacity-40"
      end
    else "bg-slate-950"
  end.

(** What [getTileContent(x, y)] draws in the cell. *)
Inductive Content := User | Skull | Dot | Nothing.

Definition getTileContent (world : WorldMap) (playerPosition : Position)
    (visibleTiles : gset (Z * Z)) (enemies : list Marker) (x y : Z) : Content :=
  match tileAt (tiles world) x y with
  | None => Nothing
  | Some tile =>
    let isVisible := bool_decide ((x, y) ∈ visibleTiles) in
    let isPlayer := (x =? pos_x playerPosition) && (y =? pos_y playerPosition) in
    let enemy := List.find (stands_at x y) enemies in
    if isPlayer then User
    else if (match enemy with Some _ => true | None => false end) && isVisible then Skull
    else if isVisible &&
            match resources tile with
            | Some rs => (0 <? length rs)%nat
            | None => false
            end
    then Dot
    else Nothing
  end.

End View.

(** ** components/GameScreen.tsx: the client side *)

Module Client.
Import Combat Host.

(** [handleSend(customAction)] as the interface runs it, in a render
    whose state is [s]. *)
Definition handleSend (c : GameConfig) (now : Z) (customAction : option string)
    (s : Screen) : Screen * list Effect :=
  let actionText := Js.str_or customAction (s_input s) in
  if blank actionText || s_isProcessing s then (s, []) else
  if isClient c then
    ({| s_messages := s_messages s; s_input := ""; s_gameState := s_gameState s;
        s_isProcessing := true; connOpen := connOpen s |},
     send s (ACTION actionText))
  else
    let userMsg := {| m_id := pretty now; role := user; text := actionText;
                      imageUrl := None; timestamp := now; isVisualizing := None |} in
    let s' := {| s_messages := (s_messages s ++ [userMsg])%list; s_input := "";
                 s_gameState := s_gameState s; s_isProcessing := true;
                 connOpen := connOpen s |} in
    (s', (broadcast c true s' ++ [AskEngine actionText])%list).

(** The listener a client registers with [peerService.onData]. *)
Definition clientOnData (data : PeerData) (s : Screen) : Screen :=
  match data with
  | STATE_SYNC gameState messages =>
    {| s_messages := messages; s_input := s_input s; s_gameState := gameState;
       s_isProcessing := false; connOpen := connOpen s |}
  | _ => s
  end.

End Client.

(** ** zombieAI.ts *)

Module Ai.
Import Combat World Nav.

Inductive Mode := idle | patrol | alert | chase | attacking | stunned.

Record ZombieAIState := {
  position : Position;
  lastKnownPlayerPosition : option Position;
  aggroLevel : Z;
  state : Mode;
  stunDuration : Z;
  screamCooldown : Z
}.

Inductive ActionType := act_move | act_attack | act_scream | act_block | act_wait.

Record ZombieAIAction := {
  ai_type : ActionType;
  targetPosition : option Position;
  ai_damage : option Z;
  description : string
}.

(** The two private fields of [class ZombieAI]. *)
Record ZombieAI := {
  aiStates : gmap string ZombieAIState;
  ai_world : option WorldMap
}.

Definition new_ZombieAI : ZombieAI := {| aiStates := ∅; ai_world := None |}.

Definition set_position (v : Position) (a : ZombieAIState) : ZombieAIState :=
  {| position := v; lastKnownPlayerPosition := lastKnownPlayerPosition a;
     aggroLevel := aggroLevel a; state := state a; stunDuration := stunDuration a;
     screamCooldown := screamCooldown a |}.

Definition set_stunDuration (v : Z) (a : ZombieAIState) : ZombieAIState :=
  {| position := position a; lastKnownPlayerPosition := lastKnownPlayerPosition a;
     aggroLevel := aggroLevel a; state := state a; stunDuration := v;
     screamCooldown := screamCooldown a |}.

Definition set_screamCooldown (v : Z) (a : ZombieAIState) : ZombieAIState :=
  {| position := position a; lastKnownPlayerPosition := lastKnownPlayerPosition a;
     aggroLevel := aggroLevel a; state := state a; stunDuration := stunDuration a;
     screamCooldown := v |}.

Definition set_state (v : Mode) (a : ZombieAIState) : ZombieAIState :=
  {| position := position a; lastKnownPlayerPosition := lastKnownPlayerPosition a;
     aggroLevel := aggroLevel a; state := v; stunDuration := stunDuration a;
     screamCooldown := screamCooldown a |}.

(** The player has been seen: the two writes of [calculateAction]. *)
Definition sees (playerPosition : Position) (a : ZombieAIState) : ZombieAIState :=
  {| position := position a; lastKnownPlayerPosition := Some playerPosition;
     aggroLevel := Z.min 100 (aggroLevel a + 10); state := state a;
     stunDuration := stunDuration a; screamCooldown := screamCooldown a |}.

(** The object [initializeZombie] stores. *)
Definition fresh (position : Position) : ZombieAIState :=
  {| position := position; lastKnownPlayerPosition := None; aggroLevel := 50;
     state := patrol; stunDuration := 0; screamCooldown := 0 |}.

(** The map with the object of [zombieId] replaced: the objects of the
    map are mutated in place. *)
Definition store (zombieId : string) (a : ZombieAIState) (ai : ZombieAI) : ZombieAI :=
  {| aiStates := <[zombieId := a]> (aiStates ai); ai_world := ai_world ai |}.

(** [initializeZombie(zombieId, position)] *)
Definition initializeZombie (zombieId : string) (position : Position) (ai : ZombieAI)
  : ZombieAI :=
  store zombieId (fresh position) ai.

(** [setWorld(world)] *)
Definition setWorld (world : WorldMap) (ai : ZombieAI) : ZombieAI :=
  {| aiStates := aiStates ai; ai_world := Some world |}.

(** [updatePosition(zombieId, newPosition)] *)
Definition updatePosition (zombieId : string) (newPosition : Position) (ai : ZombieAI)
  : ZombieAI :=
  match aiStates ai !! zombieId with
  | Some aiState => store zombieId (set_position newPosition aiState) ai
  | None => ai
  end.

(** [stunZombie(zombieId, duration)] *)
Definition stunZombie (zombieId : string) (duration : Z) (ai : ZombieAI) : ZombieAI :=
  match aiStates ai !! zombieId with
  | Some aiState =>
    store zombieId (set_state stunned (set_stunDuration duration aiState)) ai
  | None => ai
  end.

(** [calculateDistance(zombie, playerPosition)] *)
Definition calculateDistance (zombie : Enemy) : Z :=
  match e_range zombie with
  | Some Melee => 1
  | Some Near => 3
  | Some Far => 8
  | None => 5
  end.

(** [getIntentDescription(actionType)] *)
Definition getIntentDescription (t : ActionType) : string :=
  match t with
  | act_attack => "Lunge Attack"
  | act_move => "Approach"
  | act_scream => "Screaming"
  | act_block => "Defensive Stance"
  | act_wait => "Searching"
  end.

Definition set_e_intent (v : option string) (e : Enemy) : Enemy :=
  {| e_id := e_id e; e_name := e_name e; e_hp := e_hp e; e_maxHp := e_maxHp e;
     e_status := e_status e; e_intent := v; e_range := e_range e |}.

Section Turns.
Context (R : Rot).
Variable random : nat -> Q.

(** [decideAction(zombie, aiState, playerPosition, distance)]: the
    action, the AI state of the zombie as it is left, and the number of
    draws made.  [None] is the [TypeError] of reading [config.attack] for
    a name the table lacks. *)
Definition decideAction (zombie : Enemy) (aiState : ZombieAIState)
    (playerPosition : Position) (distance : Z) (world : option WorldMap) (drawn : nat)
  : option (ZombieAIAction * ZombieAIState * nat) :=
  let zombieType := e_name zombie in
  if distance <=? 1 then
    match zombieTypes zombieType with
    | None => None
    | Some config =>
      let damage := Qfloor (inject_Z (z_attack config) * (0.8 + random drawn * 0.4)) in
      Some ({| ai_type := act_attack; targetPosition := None; ai_damage := Some damage;
               description := (e_name zombie ++ " lunges at you! Dealt "
                               ++ pretty damage ++ " damage.")%string |},
            aiState, S drawn)
    end
  else if String.eqb zombieType "Screamer" && (screamCooldown aiState =? 0)
          && (distance <=? 5) then
    Some ({| ai_type := act_scream; targetPosition := None; ai_damage := None;
             description := (e_name zombie ++
               " releases a piercing scream, calling for reinforcements!")%string |},
          set_screamCooldown 3 aiState, drawn)
  else if String.eqb zombieType "Tank"
          && Js.Qltb (inject_Z (e_hp zombie)) (inject_Z (e_maxHp zombie) * 0.3) then
    Some ({| ai_type := act_block; targetPosition := None; ai_damage := None;
             description := (e_name zombie ++
               " adopts a defensive stance, bracing for impact")%string |},
          aiState, drawn)
  else
    let waits :=
      Some ({| ai_type := act_wait; targetPosition := None; ai_damage := None;
               description := (e_name zombie ++ " searches for targets")%string |},
            aiState, drawn) in
    match lastKnownPlayerPosition aiState, world with
    | Some _, Some w =>
      match findPath R w (position aiState) playerPosition with
      | nextPosition :: _ =>
        Some ({| ai_type := act_move; targetPosition := Some nextPosition;
                 ai_damage := None;
                 description := (e_name zombie ++
                   (if String.eqb zombieType "Runner" then " sprints" else " shambles")
                   ++ " toward you")%string |},
              set_position nextPosition aiState, drawn)
      | [] => waits
      end
    | _, _ => waits
    end.

(** [calculateAction(zombie, zombieId, playerPosition, gameState)] *)
Definition calculateAction (zombie : Enemy) (zombieId : string)
    (playerPosition : Position) (ai : ZombieAI) (drawn : nat)
  : option (ZombieAIAction * ZombieAI * nat) :=
  let aiState := default (fresh playerPosition) (aiStates ai !! zombieId) in
  if 0 <? stunDuration aiState then
    Some ({| ai_type := act_wait; targetPosition := None; ai_damage := None;
             description := (e_name zombie ++ " is stunned and recovering")%string |},
          store zombieId (set_stunDuration (stunDuration aiState - 1) aiState) ai,
          drawn)
  else
    let aiState := if 0 <? screamCooldown aiState
                   then set_screamCooldown (screamCooldown aiState - 1) aiState
                   else aiState in
    let distance := calculateDistance zombie in
    let aiState :=
      match ai_world ai with
      | Some world =>
        if hasLineOfSight R world (position aiState) playerPosition
        then sees playerPosition aiState else aiState
      | None => aiState
      end in
    match decideAction zombie aiState playerPosition distance (ai_world ai) drawn with
    | Some (action, aiState', drawn') =>
      Some (action, store zombieId aiState' ai, drawn')
    | None => None
    end.

(** [updateEnemyRange(enemy, playerPosition)] *)
Definition updateEnemyRange (enemy : Enemy) (playerPosition : Position) (ai : ZombieAI)
  : Enemy :=
  match aiStates ai !! e_id enemy with
  | None => enemy
  | Some aiState =>
    let distance := manhattanDistance (position aiState) playerPosition in
    set_e_range (Some (if distance <=? 1 then Melee
                       else if distance <=? 5 then Near else Far)) enemy
  end.

(** [processZombieTurns(gameState, playerPosition)]: the actions, the
    enemies as the loop leaves them, the AI and the number of draws. *)
Fixpoint processZombieTurns (enemies : list Enemy) (playerPosition : Position)
    (ai : ZombieAI) (drawn : nat)
  : option (list ZombieAIAction * list Enemy * ZombieAI * nat) :=
  match enemies with
  | [] => Some ([], [], ai, drawn)
  | enemy :: rest =>
    if 0 <? e_hp enemy then
      match calculateAction enemy (e_id enemy) playerPosition ai drawn with
      | None => None
      | Some (action, ai1, drawn1) =>
        let enemy1 := set_e_intent (Some (getIntentDescription (ai_type action))) enemy in
        let enemy2 := match ai_type action with
                      | act_move => updateEnemyRange enemy1 playerPosition ai1
                      | _ => enemy1
                      end in
        match processZombieTurns rest playerPosition ai1 drawn1 with
        | None => None
        | Some (actions, rest', ai2, drawn2) =>
          Some (action :: actions, enemy2 :: rest', ai2, drawn2)
        end
      end
    else
      match processZombieTurns rest playerPosition ai drawn with
      | None => None
      | Some (actions, rest', ai2, drawn2) => Some (actions, enemy :: rest', ai2, drawn2)
      end
  end.

(** [k] consecutive calls of [calculateAction] for the same zombie: the
    actions, the first first. *)
Fixpoint turns (k : nat) (zombie : Enemy) (zombieId : string)
    (playerPosition : Position) (ai : ZombieAI) (drawn : nat)
  : option (list ZombieAIAction * ZombieAI * nat) :=
  match k with
  | O => Some ([], ai, drawn)
  | S k' =>
    match calculateAction zombie zombieId playerPosition ai drawn with
    | None => None
    | Some (action, ai1, drawn1) =>
      match turns k' zombie zombieId playerPosition ai1 drawn1 with
      | None => None
      | Some (actions, ai2, drawn2) => Some (action :: actions, ai2, drawn2)
      end
    end
  end.

End Turns.

(** [action.type === 'attack'] *)
Definition is_attack (a : ZombieAIAction) : bool :=
  match ai_type a with act_attack => true | _ => false end.

(** What the AI may change of an enemy: its intent and its range. *)
Definition same_body (e e' : Enemy) : Prop :=
  e_id e' = e_id e /\ e_name e' = e_name e /\ e_hp e' = e_hp e /\
  e_maxHp e' = e_maxHp e /\ e_status e' = e_status e.

(** The world the AI was given, if any, holds the rows and columns its
    width and height announce: there the callbacks of the two path
    searches never read a tile that is missing. *)
Definition world_ok (ai : ZombieAI) : Prop :=
  match ai_world ai with
  | Some w => well_formed w
  | None => True
  end.

End Ai.


(** * Properties *)

(** ** Comparisons *)

Module JsFacts.
Import Js.

Lemma Qltb_lt a b : Qltb a b = true <-> (a < b)%Q.
Proof.
  unfold Qltb. rewrite negb_true_iff.
  split; intros H.
  - apply Qnot_le_lt. intros Hle. apply Qle_bool_iff in Hle. congruence.
  - destruct (Qle_bool b a) eqn:E; [|reflexivity].
    apply Qle_bool_iff in E. exfalso. apply (Qlt_not_le _ _ H E).
Qed.

Lemma Qltb_ge a b : Qltb a b = false <-> (b <= a)%Q.
Proof.
  unfold Qltb. rewrite negb_false_iff. apply Qle_bool_iff.
Qed.

End JsFacts.

(** ** The combat engine *)

Module CombatFacts.
Import Balance Combat JsFacts.

Section Facts.
Variable random : nat -> Q.

Local Notation "'AP' s" := (playerActionPoints (combatState s))
  (at level 10, s at level 9).

(** *** The steps of [processAction] *)

Lemma kit_kept_refl g : kit_kept g g.
Proof. repeat split. Qed.

Lemma kit_kept_trans g1 g2 g3 : kit_kept g1 g2 -> kit_kept g2 g3 -> kit_kept g1 g3.
Proof.
  unfold kit_kept. intros (a & b & c & d) (a' & b' & c' & d').
  repeat split; congruence.
Qed.

Ltac run := unfold bind, get, ret, when, modify_gs, modify_cs, Math_random; simpl.

Lemma processAction_steps (action : CombatAction) (s : Engine) :
  isActionValid action s = true ->
  processAction random action s =
  (let (results, s1) := dispatch random action s in
   let (_, s2) := deductActionPoint action results s1 in
   finishAction random results s2).
Proof.
  intros Hv. unfold processAction, finishAction, bind, get. rewrite Hv. simpl.
  destruct (dispatch random action s) as [results s1].
  destruct (deductActionPoint action results s1) as [u s2].
  reflexivity.
Qed.

Lemma processAction_rejected (action : CombatAction) (s : Engine) :
  isActionValid action s = false ->
  processAction random action s = ([invalidResult], s).
Proof.
  intros Hv. unfold processAction, bind, get. rewrite Hv. reflexivity.
Qed.

Lemma enemiesAct_frame (es : list Enemy) : forall s,
  let s' := snd (enemiesAct random es s) in
  combatState s' = combatState s /\ kit_kept (gameState s) (gameState s') /\
  enemies (gameState s') = enemies (gameState s).
Proof.
  induction es as [|e tl IH]; intros s; simpl.
  - repeat split.
  - destruct (alive e).
    + unfold bind at 1. unfold enemyAct.
      destruct (isStunned e); run.
      * specialize (IH s). destruct (enemiesAct random tl s) as [rest s2]. simpl in *. exact IH.
      * match goal with |- context [enemiesAct random tl ?x] => specialize (IH x) end.
        match goal with |- context [enemiesAct random tl ?x] => destruct (enemiesAct random tl x) as [rest s2] end.
        simpl in *. exact IH.
    + unfold bind. specialize (IH s). destruct (enemiesAct random tl s) as [rest s2].
      simpl in *. exact IH.
Qed.

Lemma processEnemyTurn_frame (s : Engine) :
  let s' := snd (processEnemyTurn random s) in
  AP s' = baseActionPoints /\ c_phase (combatState s') = player_turn /\
  round (combatState s') = round (combatState s) + 1 /\
  defendActive (combatState s') = false /\
  kit_kept (gameState s) (gameState s').
Proof.
  unfold processEnemyTurn. run.
  pose proof (enemiesAct_frame (enemies (gameState s)) s) as H.
  destruct (enemiesAct random (enemies (gameState s)) s) as [acted s1].
  simpl in *. destruct H as (Hc & Hk & He).
  rewrite Hc. repeat split; apply Hk.
Qed.

Lemma checkCombatEnd_frame (s : Engine) :
  let s' := snd (checkCombatEnd s) in
  AP s' = AP s /\ kit_kept (gameState s) (gameState s') /\
  hp (gameState s') = hp (gameState s) /\ drawn s' = drawn s /\
  round (combatState s') = round (combatState s).
Proof.
  unfold checkCombatEnd. run.
  destruct (Js.Qleb (hp (gameState s)) 0); simpl.
  - repeat split.
  - destruct (length (List.filter alive (enemies (gameState s))) =? 0)%nat; simpl; repeat split.
Qed.

Lemma finishAction_frame (results : list CombatResult) (s : Engine) :
  let s' := snd (finishAction random results s) in
  kit_kept (gameState s) (gameState s') /\
  (0 < AP s -> AP s' = AP s /\ hp (gameState s') = hp (gameState s) /\
               round (combatState s') = round (combatState s) /\
               fst (finishAction random results s) = results) /\
  (AP s <= 0 -> AP s' = baseActionPoints /\
                round (combatState s') = round (combatState s) + 1).
Proof.
  unfold finishAction, endTurnIfSpent, endPlayerTurn, appendLog. run.
  destruct (Z.leb_spec (AP s) 0) as [Hle|Hgt].
  - match goal with |- context [processEnemyTurn random ?x] =>
      pose proof (processEnemyTurn_frame x) as H;
      destruct (processEnemyTurn random x) as [er s1] end.
    simpl in H. destruct H as (Ha & Hp & Hr & Hd & Hk).
    pose proof (checkCombatEnd_frame s1) as H2.
    destruct (checkCombatEnd s1) as [u s2]. simpl in *.
    destruct H2 as (Ha2 & Hk2 & Hh2 & Hd2 & Hr2).
    split; [eapply kit_kept_trans; eauto|].
    split; [lia|]. intros _. split; congruence.
  - pose proof (checkCombatEnd_frame s) as H2.
    destruct (checkCombatEnd s) as [u s2]. simpl in *.
    destruct H2 as (Ha2 & Hk2 & Hh2 & Hd2 & Hr2).
    split; [assumption|]. split; [|lia]. intros _. repeat split; congruence.
Qed.

Section Keeps.
Context (R : Engine -> Engine -> Prop) `{!PreOrder R}.

Lemma keeps_ret {A} (a : A) : keeps R (ret a).
Proof. intros s. simpl. reflexivity. Qed.

Lemma keeps_get : keeps R get.
Proof. intros s. simpl. reflexivity. Qed.

Lemma keeps_bind {A B} (m : M A) (k : A -> M B) :
  keeps R m -> (forall a, keeps R (k a)) -> keeps R (bind m k).
Proof.
  intros Hm Hk s. unfold bind. specialize (Hm s).
  destruct (m s) as [a s1]. simpl in Hm.
  etransitivity; [exact Hm | apply Hk].
Qed.

End Keeps.

(** Walks down a computation: binds are split, conditionals are decided,
    and the primitive steps are left to [leaf]. *)
Ltac keeps_walk leaf :=
  repeat (cbv zeta;
          match goal with
          | |- keeps _ (bind _ _) => apply keeps_bind; [exact _| |intros ?]
          | |- keeps _ (ret _) => apply keeps_ret; exact _
          | |- keeps _ get => apply keeps_get; exact _
          | |- keeps _ (if ?b then _ else _) => destruct b
          | |- keeps _ (match ?x with Some _ => _ | None => _ end) => destruct x
          | |- keeps _ (when _ _) => unfold when
          | |- keeps _ (roll_if _ _ _) => unfold roll_if
          | |- keeps _ _ => leaf
          end).

#[local] Instance attack_frame_preorder : PreOrder attack_frame.
Proof.
  split.
  - intros s. unfold attack_frame. repeat split; lia.
  - intros s1 s2 s3 H12 H23. unfold attack_frame in *.
    destruct H12 as (? & ? & ? & ? & ? & ? & ? & ? & ? & ? & ?).
    destruct H23 as (? & ? & ? & ? & ? & ? & ? & ? & ? & ? & ?).
    repeat split; try congruence; lia.
Qed.

Lemma processAttack_frame (targetId : string) :
  keeps attack_frame (processAttack random targetId).
Proof.
  unfold processAttack.
  keeps_walk ltac:(solve [intros s; unfold refundAP, modify_target; run;
                          unfold attack_frame; simpl; repeat split; lia]).
Qed.

Lemma isActionValid_true (action : CombatAction) (s : Engine) :
  isActionValid action s = true ->
  c_phase (combatState s) = player_turn /\ 1 <= AP s.
Proof.
  unfold isActionValid. destruct (c_phase (combatState s)); try discriminate.
  destruct (Z.ltb_spec (AP s) 1); [discriminate|]. auto.
Qed.

Lemma dispatch_AP (action : CombatAction) (s : Engine) :
  let s' := snd (dispatch random action s) in
  Z.min (AP s) maxActionPoints <= AP s' <= Z.max (AP s) maxActionPoints.
Proof.
  unfold dispatch. destruct (a_type action).
  - pose proof (processAttack_frame (Js.str_or (a_targetId action) "") s) as H.
    simpl. split; apply H.
  - simpl. lia.
  - unfold processUseItem. destruct (isHealingItem _); simpl; lia.
  - unfold processFlee. run. destruct (Js.Qltb _ _); simpl; lia.
  - simpl. lia.
Qed.

Lemma deductActionPoint_AP (action : CombatAction) (results : list CombatResult)
    (s : Engine) :
  let s' := snd (deductActionPoint action results s) in
  AP s' = (if deductsAP action results then AP s - 1 else AP s) /\
  kit_kept (gameState s) (gameState s') /\ hp (gameState s') = hp (gameState s) /\
  round (combatState s') = round (combatState s).
Proof.
  unfold deductActionPoint. destruct (deductsAP action results); run; repeat split.
Qed.

(** *** Action points *)

Lemma processAction_AP (action : CombatAction) (s : Engine) :
  isActionValid action s = true ->
  let s' := snd (processAction random action s) in
  1 <= AP s' <= Z.max (AP s) maxActionPoints.
Proof.
  intros Hv. destruct (isActionValid_true _ _ Hv) as [_ Hap].
  rewrite (processAction_steps _ _ Hv).
  pose proof (dispatch_AP action s) as Hd.
  destruct (dispatch random action s) as [results s1]. simpl in Hd.
  pose proof (deductActionPoint_AP action results s1) as (Hded & _).
  destruct (deductActionPoint action results s1) as [u s2]. simpl in Hded.
  pose proof (finishAction_frame results s2) as (_ & Hpos & Hneg).
  simpl. unfold maxActionPoints, baseActionPoints in *.
  assert (Hflee : deductsAP action results = false -> 1 <= AP s2).
  { intros E. rewrite E in Hded. lia. }
  destruct (deductsAP action results).
  - destruct (Z.lt_ge_cases 0 (AP s2)) as [Hp|Hn].
    + destruct (Hpos Hp) as (-> & _). lia.
    + destruct Hneg as (-> & _); lia.
  - specialize (Hflee eq_refl). destruct Hpos as (-> & _); lia.
Qed.

Lemma AP_in_range_step (action : CombatAction) (s : Engine) :
  0 <= AP s <= maxActionPoints ->
  0 <= AP (snd (processAction random action s)) <= maxActionPoints.
Proof.
  intros Hrange. destruct (isActionValid action s) eqn:Hv.
  - pose proof (processAction_AP action s Hv) as H. simpl in H. lia.
  - rewrite (processAction_rejected _ _ Hv). exact Hrange.
Qed.





(** An engine started on the state [initiateCombat] returns stays in
    range through every sequence of actions. *)
Lemma play_keeps_AP_in_range (actions : list CombatAction) : forall s,
  0 <= AP s <= maxActionPoints ->
  0 <= AP (play random actions s) <= maxActionPoints.
Proof.
  induction actions as [|action rest IH]; intros s Hs; simpl; [exact Hs|].
  apply IH. apply AP_in_range_step. exact Hs.
Qed.

Lemma combat_stays_in_range (g g' : GameState) (types : list string)
    (isNight : bool) (actions : list CombatAction) :
  initiateCombat g types isNight = Some g' ->
  0 <= AP (play random actions (new_CombatEngine g')) <= maxActionPoints.
Proof.
  unfold initiateCombat. destruct (spawn 0 types); [|discriminate].
  intros [= <-]. apply play_keeps_AP_in_range. simpl.
  unfold baseActionPoints, maxActionPoints. lia.
Qed.

(** *** Flee *)

Lemma flee_is_valid (action : CombatAction) (s : Engine) :
  a_type action = flee -> c_phase (combatState s) = player_turn -> 1 <= AP s ->
  isActionValid action s = true.
Proof.
  intros Ha Hp Hap. unfold isActionValid. rewrite Hp, Ha.
  destruct (Z.ltb_spec (AP s) 1); [lia|reflexivity].
Qed.

(** C3 -- a successful flee does not end in the phase [fled]:
    [processFlee] sets it, and [checkCombatEnd], which [processAction]
    runs next on the emptied enemy list, overwrites it with [victory]
    (with [defeat] when the player's hp is not positive).  The rest of
    the claim holds: the game phase is exploration, the enemy list is
    empty, no action point is deducted. *)
Theorem flee_success_ends_in_victory (action : CombatAction) (s : Engine) :
  a_type action = flee ->
  c_phase (combatState s) = player_turn ->
  1 <= AP s ->
  (random (drawn s) < fleeBaseChance)%Q ->
  let s' := snd (processAction random action s) in
  c_phase (combatState s') =
    (if Js.Qleb (hp (gameState s)) 0 then defeat else victory)
  /\ c_phase (combatState s') <> fled
  /\ phase (gameState s') = exploration
  /\ enemies (gameState s') = []
  /\ AP s' = AP s.
Proof.
  intros Ha Hp Hap Hr.
  rewrite (processAction_steps _ _ (flee_is_valid _ _ Ha Hp Hap)).
  unfold dispatch. rewrite Ha.
  unfold processFlee. run.
  apply Qltb_lt in Hr. rewrite Hr. simpl.
  unfold deductActionPoint, deductsAP. rewrite Ha. simpl.
  unfold finishAction, endTurnIfSpent. run.
  destruct (Z.leb_spec (AP s) 0); [lia|].
  simpl. unfold checkCombatEnd, appendLog. run.
  destruct (Js.Qleb (hp (gameState s)) 0) eqn:E; simpl;
    repeat split; auto; discriminate.
Qed.

(** A failed flee costs one action point like any other action. *)
Lemma flee_failure_deducts_one (action : CombatAction) (s : Engine) :
  a_type action = flee ->
  c_phase (combatState s) = player_turn ->
  1 < AP s ->
  (fleeBaseChance <= random (drawn s))%Q ->
  let s' := snd (processAction random action s) in
  AP s' = AP s - 1 /\ c_phase (combatState s') <> fled.
Proof.
  intros Ha Hp Hap Hr.
  rewrite (processAction_steps _ _ (flee_is_valid _ _ Ha Hp ltac:(lia))).
  unfold dispatch. rewrite Ha.
  unfold processFlee. run.
  apply Qltb_ge in Hr. rewrite Hr. simpl.
  unfold deductActionPoint, deductsAP. rewrite Ha. simpl.
  unfold finishAction, endTurnIfSpent. run.
  destruct (Z.leb_spec (AP s - 1) 0); [lia|].
  simpl. unfold checkCombatEnd, appendLog. run.
  destruct (Js.Qleb (hp (gameState s)) 0) eqn:E; simpl;
    [split; [reflexivity|discriminate]|].
  destruct (length (List.filter alive (enemies (gameState s))) =? 0)%nat; simpl;
    (split; [reflexivity|rewrite ?Hp; discriminate]).
Qed.

(** *** Attacks *)

Lemma valid_attack_target (action : CombatAction) (s : Engine) :
  a_type action = attack -> isActionValid action s = true ->
  exists target,
    find (has_id (Js.str_or (a_targetId action) "")) (enemies (gameState s))
      = Some target /\ 0 < e_hp target.
Proof.
  intros Ha. unfold isActionValid. rewrite Ha.
  destruct (c_phase (combatState s)); try discriminate.
  destruct (AP s <? 1); [discriminate|].
  destruct (Js.truthy (a_targetId action)); simpl; [|discriminate].
  destruct (find _ _) as [target|]; simpl; [|discriminate].
  destruct (Z.leb_spec (e_hp target) 0); simpl; [discriminate|].
  intros _. exists target. split; [reflexivity|assumption].
Qed.

(** C4 -- an execution is a critical success that does not grow the
    skill: the execution branch of [processAttack] returns before the
    skill increase.  A bare-handed attacker of Melee level 8 or more whose
    attack hits, is critical and executes ends the action with the skill
    table unchanged. *)
Theorem execution_leaves_skill_unchanged (action : CombatAction) (s : Engine)
    (level : Z) :
  a_type action = attack ->
  isActionValid action s = true ->
  isFirearm (Some (Js.str_or (equippedWeapon (gameState s)) "Fists")) = false ->
  skill_or_1 (skills (gameState s)) "Melee" = level ->
  8 <= level ->
  (random (drawn s) <= calculateSkillSuccessChance level)%Q ->
  (random (S (drawn s)) < criticalHitChance)%Q ->
  (random (S (S (drawn s))) < melee_executionChance)%Q ->
  let (results, s') := processAction random action s in
  (exists r rest, results = r :: rest /\
                  r_type r = r_execution /\ r_critical r = Some true) /\
  skills (gameState s') = skills (gameState s) /\
  skill_or_1 (skills (gameState s')) "Melee" = level.
Proof.
  intros Ha Hv HisF Hlevel H8 Hhit Hcrit Hexec.
  destruct (valid_attack_target _ _ Ha Hv) as (target & Hfind & Halive).
  rewrite (processAction_steps _ _ Hv).
  unfold dispatch. rewrite Ha.
  unfold processAttack, roll_if, modify_target, refundAP. run.
  rewrite Hfind, HisF. simpl. rewrite Hlevel.
  apply Qltb_ge in Hhit. rewrite Hhit.
  unfold rollCriticalHit, critChance.
  destruct (Z.leb_spec 8 level); [|lia].
  destruct (Z.leb_spec level 7); [lia|].
  rewrite ?andb_false_r. simpl.
  apply Qltb_lt in Hcrit. rewrite Hcrit. simpl.
  apply Qltb_lt in Hexec. rewrite Hexec. simpl.
  match goal with |- context [deductActionPoint action ?r ?x] =>
    pose proof (deductActionPoint_AP action r x) as (_ & Hk1 & _);
    destruct (deductActionPoint action r x) as [u s2] end.
  match goal with |- context [finishAction random ?r ?x] =>
    pose proof (finishAction_frame r x) as (Hk2 & Hpos & Hneg);
    destruct (finishAction random r x) as [results s3] eqn:Efin end.
  simpl in *.
  assert (Hsk : skills (gameState s3) = skills (gameState s)).
  { destruct Hk1 as (Hk1 & _). destruct Hk2 as (Hk2 & _).
    rewrite Hk2, Hk1. reflexivity. }
  split; [|split; [exact Hsk | rewrite Hsk; exact Hlevel]].
  unfold finishAction, endTurnIfSpent in Efin. revert Efin. run.
  destruct (AP s2 <=? 0).
  - destruct (processEnemyTurn random _) as [er s4]. simpl.
    destruct (checkCombatEnd s4). simpl. unfold appendLog. run.
    intros [= <- _]. eauto.
  - simpl. destruct (checkCombatEnd s2). simpl. unfold appendLog. run.
    intros [= <- _]. eauto.
Qed.

Lemma find_update_target (i : string) (f : Enemy -> Enemy) (es : list Enemy)
    (t : Enemy) :
  find (has_id i) es = Some t -> e_id (f t) = e_id t ->
  find (has_id i) (update_target i f es) = Some (f t).
Proof.
  intros Hfind Hid. induction es as [|e tl IH]; simpl in *; [discriminate|].
  destruct (has_id i e) eqn:E.
  - injection Hfind as ->. simpl. unfold has_id in *. rewrite Hid, E. reflexivity.
  - simpl. rewrite E. auto.
Qed.

Lemma calculateDamage_spec (defense : Q) (crit : bool) (r : Q) :
  calculateDamage baseDamage defense crit r
  = Spec.attack_damage (2 * r - 1) defense crit.
Proof.
  unfold calculateDamage, Spec.attack_damage, baseDamage, damageVariance,
    criticalMultiplier.
  apply Qfloor_comp.
  assert (E : (10 * (1 + (r * 2 - 1) * 0.2) - defense ==
               10 * (1 + 0.2 * (2 * r - 1)) - defense)%Q) by ring.
  destruct crit.
  - apply Qmult_comp; [apply Q.max_compat; [reflexivity|exact E]|reflexivity].
  - rewrite Qmult_1_r. apply Q.max_compat; [reflexivity|exact E].
Qed.

(** Decides the conditionals that steer the control flow, one at a time. *)
Ltac flow :=
  repeat (match goal with
          | |- context [(if ?b then _ else _) _] => destruct b eqn:?
          end; simpl).

(** C6 -- the damage of a player attack.  [calculateDamage] computes the
    formula of the specification, the signed variance factor being
    [2 * Math.random() - 1]; whenever [processAttack] reports a successful
    damage record, its amount is that formula at the target's defence and
    at the criticality it reports, and the target is left with
    [max(0, hp - amount)]; with variance factor 0, defence 2 and no
    critical the formula gives 8. *)
Theorem attack_damage_formula :
  (forall defense crit r,
     calculateDamage baseDamage defense crit r
     = Spec.attack_damage (2 * r - 1) defense crit) /\
  (forall s targetId res rest s',
     processAttack random targetId s = (res :: rest, s') ->
     r_type res = r_damage -> r_success res = true ->
     exists target target' k crit,
       find (has_id targetId) (enemies (gameState s)) = Some target /\
       find (has_id targetId) (enemies (gameState s')) = Some target' /\
       r_amount res
       = Some (inject_Z (Spec.attack_damage (2 * random k - 1)
                           (targetDefense target) crit)) /\
       r_critical res = Some crit /\
       e_hp target'
       = Z.max 0 (e_hp target - Spec.attack_damage (2 * random k - 1)
                                  (targetDefense target) crit)) /\
  Spec.attack_damage 0 2 false = 8.
Proof.
  split; [exact calculateDamage_spec|]. split; [|reflexivity].
  intros s targetId res rest s'.
  unfold processAttack, roll_if, modify_target, refundAP. run.
  destruct (find (has_id targetId) (enemies (gameState s))) as [target|] eqn:Hfind;
    simpl; [|discriminate].
  flow.
  all: intros [= <- <- <-]; simpl; try discriminate; intros _ _.
  all: rewrite !calculateDamage_spec.
  all: eexists target, _, _, _.
  all: (split; [reflexivity|]).
  all: (split; [|split; [reflexivity|split; [reflexivity|]]]).
  all: try (repeat first [exact Hfind | eapply find_update_target; [|reflexivity]]).
  all: reflexivity.
Qed.

(** The sibling path: a critical hit that goes through the damage
    computation grows the skill by exactly one level below the cap, and
    leaves it alone at the cap. *)
Lemma critical_damage_grows_skill (s : Engine) (targetId : string)
    (res : CombatResult) (rest : list CombatResult) (s' : Engine) :
  processAttack random targetId s = (res :: rest, s') ->
  r_type res = r_damage -> r_critical res = Some true ->
  let isF := isFirearm (Some (Js.str_or (equippedWeapon (gameState s)) "Fists")) in
  let name := if isF then "Firearms" else "Melee" in
  let level := skill_or_1 (skills (gameState s)) name in
  skills (gameState s')
  = if level <? maxSkillLevel
    then <[name := level + skillGrowthOnCritical]> (skills (gameState s))
    else skills (gameState s).
Proof.
  unfold processAttack, roll_if, modify_target, refundAP. run.
  destruct (find (has_id targetId) (enemies (gameState s))) as [target|] eqn:Hfind;
    simpl; [|discriminate].
  flow.
  all: intros [= <- <- <-]; simpl; try discriminate; intros _ [= Hc].
  all: rewrite Hc in *; simpl in *.
  all: repeat match goal with
              | H : (_ <? maxSkillLevel) = _ |- _ => rewrite H
              end.
  all: try reflexivity; try discriminate.
Qed.

(** *** The enemy turn *)



(** Where the formula of the specification and the code agree: when the
    player did not defend, and against enemies of at most 50 maxHp. *)
Lemma enemy_damage_agrees (enemyMaxHp : Z) (defended : bool) (r : Q) :
  (0 <= r)%Q -> defended = false \/ enemyMaxHp <= 50 ->
  Spec.enemy_damage_as_coded enemyMaxHp defended (0.8 + r * 0.4)
  = Spec.enemy_damage enemyMaxHp defended (0.8 + r * 0.4).
Proof.
  intros Hr Hcase.
  unfold Spec.enemy_damage_as_coded, Spec.enemy_damage, Spec.enemy_base.
  set (u := (0.8 + r * 0.4)%Q).
  assert (Hu : (0.8 <= u)%Q) by (unfold u; lra).
  assert (Hfloor : forall b : Z, 2 <= b ->
            Z.max 1 (Qfloor (inject_Z b * u)) = Qfloor (inject_Z b * u)).
  { intros b Hb. apply Z.max_r.
    change 1 with (Qfloor 1). apply Qfloor_resp_le.
    assert (2 <= inject_Z b)%Q
      by (change 2%Q with (inject_Z 2); rewrite <- Zle_Qle; exact Hb).
    nra. }
  destruct (50 <? enemyMaxHp) eqn:Hbig, defended.
  - destruct Hcase as [|Hle]; [discriminate|]. apply Z.ltb_lt in Hbig. lia.
  - change (Qfloor (15 * 1)) with 15. rewrite (Hfloor 15) by lia.
    apply Qfloor_comp. rewrite Q.max_r by (change (inject_Z 15) with 15%Q; lra).
    change (inject_Z 15) with 15%Q. ring.
  - change (Qfloor (8 * 0.5)) with 4. rewrite (Hfloor 4) by lia.
    apply Qfloor_comp. rewrite Q.max_r by lra.
    change (inject_Z 4) with 4%Q. ring.
  - change (Qfloor (8 * 1)) with 8. rewrite (Hfloor 8) by lia.
    apply Qfloor_comp. rewrite Q.max_r by lra.
    change (inject_Z 8) with 8%Q. ring.
Qed.

(** *** Items *)

Lemma arr_includes_In (x : string) (l : list string) :
  In x l -> Js.arr_includes x l = true.
Proof.
  intros H. unfold Js.arr_includes. apply existsb_exists.
  exists x. split; [exact H|apply String.eqb_refl].
Qed.

Lemma finishAction_results (results : list CombatResult) (s : Engine) :
  exists extra, fst (finishAction random results s) = (results ++ extra)%list.
Proof.
  unfold finishAction, endTurnIfSpent, endPlayerTurn, appendLog. run.
  destruct (AP s <=? 0).
  - destruct (processEnemyTurn random _) as [er s1]. simpl.
    destruct (checkCombatEnd s1). simpl. exists er. reflexivity.
  - simpl. destruct (checkCombatEnd s). simpl. exists []. rewrite app_nil_r.
    reflexivity.
Qed.

(** C10 -- using an item that is held but does not heal.  In the
    player's turn with at least one action point, a [use_item] action
    whose (non-empty) item id is in the inventory and names no healing
    item passes validation; the item step returns the failed record
    "cannot be used in combat" and writes nothing; one action point is
    deducted, and the action ends as every action does: [processAction]
    equals [finishAction] on the state with one point less.  Hence the
    inventory is unchanged; with points left, hp is unchanged too and the
    record is the only result; with the last point spent the enemy turn
    runs (new round, points reset). *)
Theorem unusable_item_costs_an_action_point (action : CombatAction) (s : Engine)
    (itemId : string) :
  a_type action = use_item ->
  a_itemId action = Some itemId ->
  itemId <> "" ->
  In itemId (inventory (gameState s)) ->
  isHealingItem itemId = false ->
  c_phase (combatState s) = player_turn ->
  1 <= AP s ->
  let (results, s') := processAction random action s in
  isActionValid action s = true /\
  processAction random action s
  = finishAction random [cannotUse itemId] (spend s) /\
  (exists extra, results = cannotUse itemId :: extra) /\
  inventory (gameState s') = inventory (gameState s) /\
  (1 < AP s -> AP s' = AP s - 1 /\ hp (gameState s') = hp (gameState s) /\
               results = [cannotUse itemId]) /\
  (AP s = 1 -> AP s' = baseActionPoints /\
               round (combatState s') = round (combatState s) + 1).
Proof.
  intros Ha Hitem Hne Hin Hheal Hp Hap.
  assert (Hv : isActionValid action s = true).
  { unfold isActionValid. rewrite Hp, Ha, Hitem.
    destruct (Z.ltb_spec (AP s) 1); [lia|]. simpl.
    destruct (String.eqb_spec itemId ""); [contradiction|]. simpl.
    apply arr_includes_In. exact Hin. }
  assert (Heq : processAction random action s
                = finishAction random [cannotUse itemId] (spend s)).
  { rewrite (processAction_steps _ _ Hv).
    unfold dispatch. rewrite Ha, Hitem. simpl.
    destruct (String.eqb_spec itemId ""); [contradiction|].
    unfold processUseItem. rewrite Hheal. simpl.
    unfold deductActionPoint, deductsAP. rewrite Ha. run. reflexivity. }
  rewrite Heq.
  pose proof (finishAction_frame [cannotUse itemId] (spend s)) as (Hk & Hpos & Hneg).
  pose proof (finishAction_results [cannotUse itemId] (spend s)) as [extra Hres].
  destruct (finishAction random [cannotUse itemId] (spend s)) as [results s'].
  simpl in *.
  split; [exact Hv|]. split; [reflexivity|].
  split; [exists extra; exact Hres|].
  split; [apply Hk|].
  split.
  - intros Hgt. destruct Hpos as (Hap' & Hhp & _ & Hr); [lia|]. auto.
  - intros H1. apply Hneg. lia.
Qed.

End Facts.

(** *** Concrete runs *)

Import Sample.

Ltac qdec := vm_compute; first [reflexivity | discriminate].



Lemma flee_success_ends_in_victory_witness :
  let s := new_CombatEngine (survivor 1 [walker; tank]) in
  let s' := snd (processAction (draws [0.1%Q]) (act flee None None) s) in
  c_phase (combatState s') = victory /\ c_phase (combatState s') <> fled /\
  phase (gameState s') = exploration /\ enemies (gameState s') = [] /\
  playerActionPoints (combatState s') = 3.
Proof.
  apply (flee_success_ends_in_victory (draws [0.1%Q]) (act flee None None)
           (new_CombatEngine (survivor 1 [walker; tank])));
    [reflexivity | reflexivity | vm_compute; discriminate | qdec].
Defined.

Lemma execution_leaves_skill_unchanged_witness :
  let s := new_CombatEngine (survivor 8 [walker; tank]) in
  let (results, s') :=
    processAction (draws [0.1; 0.05; 0.1]%Q) (act attack (Some "z1") None) s in
  (exists r rest, results = r :: rest /\
                  r_type r = r_execution /\ r_critical r = Some true) /\
  skills (gameState s') = skills (gameState s) /\
  skill_or_1 (skills (gameState s')) "Melee" = 8.
Proof.
  apply (execution_leaves_skill_unchanged (draws [0.1; 0.05; 0.1]%Q)
           (act attack (Some "z1") None)
           (new_CombatEngine (survivor 8 [walker; tank])) 8);
    [reflexivity | reflexivity | reflexivity | reflexivity
    | vm_compute; discriminate | qdec | qdec | qdec].
Defined.

Lemma attack_damage_formula_witness :
  let random := draws [0.1; 0.5; 0.5]%Q in
  let s := new_CombatEngine (survivor 1 [walker; tank]) in
  let out := processAttack random "z1" s in
  let res := hd invalidResult (fst out) in
  r_type res = r_damage /\ r_success res = true /\
  exists target target' k crit,
    find (has_id "z1") (enemies (gameState s)) = Some target /\
    find (has_id "z1") (enemies (gameState (snd out))) = Some target' /\
    r_amount res
    = Some (inject_Z (Spec.attack_damage (2 * random k - 1)
                        (targetDefense target) crit)) /\
    r_critical res = Some crit /\
    e_hp target'
    = Z.max 0 (e_hp target - Spec.attack_damage (2 * random k - 1)
                               (targetDefense target) crit).
Proof.
  split; [reflexivity|]. split; [reflexivity|].
  apply (proj1 (proj2 (attack_damage_formula (draws [0.1; 0.5; 0.5]%Q)))
           (new_CombatEngine (survivor 1 [walker; tank])) "z1"
           (hd invalidResult
              (fst (processAttack (draws [0.1; 0.5; 0.5]%Q) "z1"
                      (new_CombatEngine (survivor 1 [walker; tank])))))
           (tl (fst (processAttack (draws [0.1; 0.5; 0.5]%Q) "z1"
                       (new_CombatEngine (survivor 1 [walker; tank])))))
           (snd (processAttack (draws [0.1; 0.5; 0.5]%Q) "z1"
                   (new_CombatEngine (survivor 1 [walker; tank])))));
    reflexivity.
Defined.

(** The run of the specification's example: a hit that is not critical,
    variance factor 0, on a Walker (defence 2), deals exactly 8. *)
Example walker_takes_eight :
  let s := new_CombatEngine (survivor 1 [walker; tank]) in
  let (results, s') := processAttack (draws [0.1; 0.5; 0.5]%Q) "z1" s in
  map r_amount results = [Some (inject_Z 8)] /\
  map e_hp (enemies (gameState s')) = [22; 80].
Proof. vm_compute. split; reflexivity. Qed.

Lemma unusable_item_costs_an_action_point_witness :
  let s := new_CombatEngine (survivor 1 [walker]) in
  let action := act use_item None (Some "Scrap Metal") in
  let (results, s') := processAction (draws []) action s in
  isActionValid action s = true /\
  processAction (draws []) action s
  = finishAction (draws []) [cannotUse "Scrap Metal"] (spend s) /\
  (exists extra, results = cannotUse "Scrap Metal" :: extra) /\
  inventory (gameState s') = inventory (gameState s) /\
  (1 < playerActionPoints (combatState s) ->
     playerActionPoints (combatState s') = playerActionPoints (combatState s) - 1 /\
     hp (gameState s') = hp (gameState s) /\
     results = [cannotUse "Scrap Metal"]) /\
  (playerActionPoints (combatState s) = 1 ->
     playerActionPoints (combatState s') = baseActionPoints /\
     round (combatState s') = round (combatState s) + 1).
Proof.
  apply (unusable_item_costs_an_action_point (draws [])
           (act use_item None (Some "Scrap Metal"))
           (new_CombatEngine (survivor 1 [walker])) "Scrap Metal");
    [reflexivity | reflexivity | discriminate
    | simpl; auto | reflexivity | reflexivity | vm_compute; discriminate].
Defined.



End CombatFacts.

(** ** The world *)

Module WorldFacts.
Import World.

(** *** Reads after writes *)

Lemma at_index_insert {A} (l : list A) (i j : Z) (a b : A) :
  at_index l i = Some a ->
  at_index (<[Z.to_nat i := b]> l) j
  = if j =? i then Some b else at_index l j.
Proof.
  unfold at_index. destruct (Z.ltb_spec i 0); [discriminate|]. intros Hi.
  destruct (Z.ltb_spec j 0).
  - destruct (Z.eqb_spec j i); [lia|reflexivity].
  - destruct (Z.eqb_spec j i) as [->|Hne].
    + apply list_lookup_insert_eq. apply lookup_lt_Some in Hi. exact Hi.
    + apply list_lookup_insert_ne. lia.
Qed.

Lemma tileAt_updTile (f : Tile -> Tile) (x y : Z) (g g' : Grid) (x' y' : Z) :
  updTile f x y g = Some g' ->
  tileAt g' x' y'
  = match tileAt g x' y' with
    | Some t => Some (if (x' =? x) && (y' =? y) then f t else t)
    | None => None
    end.
Proof.
  unfold updTile, tileAt.
  destruct (at_index g y) as [row|] eqn:Hrow; [|discriminate].
  destruct (at_index row x) as [t|] eqn:Ht; [|discriminate].
  intros [= <-]. rewrite (at_index_insert _ _ _ _ _ Hrow).
  destruct (Z.eqb_spec y' y) as [->|Hy].
  - rewrite Hrow, (at_index_insert _ _ _ _ _ Ht).
    destruct (Z.eqb_spec x' x) as [->|Hx]; simpl.
    + rewrite Ht. reflexivity.
    + destruct (at_index row x'); reflexivity.
  - rewrite andb_false_r. destruct (at_index g y') as [row'|]; [|reflexivity].
    destruct (at_index row' x'); reflexivity.
Qed.

Lemma tileAt_updTileIfPresent (f : Tile -> Tile) (x y : Z) (g : Grid) (x' y' : Z) :
  tileAt (updTileIfPresent f x y g) x' y'
  = match tileAt g x' y' with
    | Some t => Some (if (x' =? x) && (y' =? y) then f t else t)
    | None => None
    end.
Proof.
  unfold updTileIfPresent. destruct (updTile f x y g) as [g'|] eqn:E.
  - apply (tileAt_updTile _ _ _ _ _ _ _ E).
  - destruct (tileAt g x' y') as [t|] eqn:Ht; [|reflexivity].
    destruct (Z.eqb_spec x' x) as [->|]; [|reflexivity].
    destruct (Z.eqb_spec y' y) as [->|]; [|reflexivity].
    exfalso. unfold updTile, tileAt in *.
    destruct (at_index g y); [|discriminate].
    destruct (at_index l x); discriminate.
Qed.

(** *** Shape and hidden tiles are kept by writes *)

Lemma updTile_dims (f : Tile -> Tile) (x y : Z) (g g' : Grid) (w h : nat) :
  updTile f x y g = Some g' -> dims w h g -> dims w h g'.
Proof.
  unfold updTile, at_index.
  destruct (y <? 0); simpl; [discriminate|].
  destruct (g !! Z.to_nat y) as [row|] eqn:Hrow; simpl; [|discriminate].
  destruct (x <? 0); simpl; [discriminate|].
  destruct (row !! Z.to_nat x); simpl; [|discriminate].
  intros [= <-] [Hlen Hrows]. unfold dims. split.
  - rewrite length_insert. exact Hlen.
  - apply Forall_insert; [exact Hrows|].
    rewrite length_insert.
    exact (proj1 (Forall_lookup _ _) Hrows _ _ Hrow).
Qed.

Lemma updTileIfPresent_dims (f : Tile -> Tile) (x y : Z) (g : Grid) (w h : nat) :
  dims w h g -> dims w h (updTileIfPresent f x y g).
Proof.
  unfold updTileIfPresent. destruct (updTile f x y g) eqn:E; [|auto].
  apply (updTile_dims _ _ _ _ _ _ _ E).
Qed.

Lemma updTileIfPresent_hidden (f : Tile -> Tile) (x y : Z) (g : Grid) :
  (forall t, visible (f t) = visible t) ->
  hidden g -> hidden (updTileIfPresent f x y g).
Proof.
  intros Hf H x' y' t. rewrite tileAt_updTileIfPresent.
  destruct (tileAt g x' y') as [t0|] eqn:Ht0; [|discriminate].
  intros [= <-]. destruct ((x' =? x) && (y' =? y)); [rewrite Hf|]; eauto.
Qed.

Lemma updTile_hidden (f : Tile -> Tile) (x y : Z) (g g' : Grid) :
  (forall t, visible (f t) = visible t) ->
  updTile f x y g = Some g' -> hidden g -> hidden g'.
Proof.
  intros Hf E H. pose proof (updTileIfPresent_hidden f x y g Hf H) as H'.
  unfold updTileIfPresent in H'. rewrite E in H'. exact H'.
Qed.

Lemma initTiles_dims (width height : Z) (t : TileType) :
  dims (Z.to_nat width) (Z.to_nat height) (initTiles width height t).
Proof.
  unfold initTiles. split.
  - apply length_replicate.
  - apply Forall_replicate. apply length_replicate.
Qed.

Lemma initTiles_hidden (width height : Z) (t : TileType) :
  hidden (initTiles width height t).
Proof.
  intros x y tile. unfold tileAt, at_index, initTiles.
  destruct (y <? 0); simpl; [discriminate|].
  destruct (replicate _ _ !! Z.to_nat y) as [row|] eqn:Hrow; simpl; [|discriminate].
  apply lookup_replicate in Hrow as [-> _].
  destruct (x <? 0); simpl; [discriminate|]. intros Ht.
  apply lookup_replicate in Ht as [-> _]. reflexivity.
Qed.

(** *** The two flags *)

#[local] Instance explored_kept_preorder : PreOrder explored_kept.
Proof.
  split.
  - intros g x y t Ht He. eauto.
  - intros g1 g2 g3 H12 H23 x y t Ht He.
    destruct (H12 _ _ _ Ht He) as (t2 & Ht2 & He2). eauto.
Qed.

Lemma see_visible_explored (acc : gset (Z * Z) * Grid) (v : Z * Z) :
  visible_explored (snd acc) -> visible_explored (snd (see acc v)).
Proof.
  destruct v as [vx vy]. intros H x y t. simpl.
  rewrite tileAt_updTileIfPresent.
  destruct (tileAt (snd acc) x y) as [t0|] eqn:Ht0; [|discriminate].
  intros [= <-]. destruct ((x =? vx) && (y =? vy)); [reflexivity|].
  apply (H _ _ _ Ht0).
Qed.

Lemma see_explored_kept (acc : gset (Z * Z) * Grid) (v : Z * Z) :
  explored_kept (snd acc) (snd (see acc v)).
Proof.
  destruct v as [vx vy]. intros x y t Ht He. simpl.
  rewrite tileAt_updTileIfPresent, Ht.
  eexists. split; [reflexivity|].
  destruct ((x =? vx) && (y =? vy)); [reflexivity|exact He].
Qed.

Lemma fold_see_visible_explored (visited : list (Z * Z)) :
  forall acc, visible_explored (snd acc) ->
              visible_explored (snd (fold_left see visited acc)).
Proof.
  induction visited as [|v tl IH]; intros acc H; simpl; [exact H|].
  apply IH. apply see_visible_explored. exact H.
Qed.

Lemma fold_see_explored_kept (visited : list (Z * Z)) :
  forall acc, explored_kept (snd acc) (snd (fold_left see visited acc)).
Proof.
  induction visited as [|v tl IH]; intros acc; simpl; [reflexivity|].
  etransitivity; [apply see_explored_kept|apply IH].
Qed.

Lemma resetRow_full (row : list Tile) :
  resetRow (length row) row = Some (map (set_visible false) row).
Proof.
  induction row as [|t tl IH]; simpl; [reflexivity|]. rewrite IH. reflexivity.
Qed.

Lemma resetRows_full (n : nat) (g : Grid) :
  Forall (fun row => length row = n) g ->
  resetRows (length g) n g = Some (map (map (set_visible false)) g).
Proof.
  induction 1 as [|row tl Hrow Htl IH]; simpl; [reflexivity|].
  rewrite <- Hrow, resetRow_full, Hrow, IH. reflexivity.
Qed.

Lemma at_index_map {A B} (f : A -> B) (l : list A) (i : Z) :
  at_index (map f l) i = option_map f (at_index l i).
Proof.
  unfold at_index. destruct (i <? 0); [reflexivity|].
  change (map f l) with (f <$> l). rewrite list_lookup_fmap.
  destruct (l !! Z.to_nat i); reflexivity.
Qed.

Lemma tileAt_map (f : Tile -> Tile) (g : Grid) (x y : Z) :
  tileAt (map (map f) g) x y = option_map f (tileAt g x y).
Proof.
  unfold tileAt. rewrite at_index_map.
  destruct (at_index g y) as [row|]; simpl; [|reflexivity].
  apply at_index_map.
Qed.

Lemma hidden_visible_explored (g : Grid) : hidden g -> visible_explored g.
Proof.
  intros H x y t Ht Hv. rewrite (H _ _ _ Ht) in Hv. discriminate.
Qed.

Lemma reset_hidden (g : Grid) : hidden (map (map (set_visible false)) g).
Proof.
  intros x y t. rewrite tileAt_map.
  destruct (tileAt g x y); simpl; [|discriminate]. intros [= <-]. reflexivity.
Qed.

Lemma reset_explored_kept (g : Grid) :
  explored_kept g (map (map (set_visible false)) g).
Proof.
  intros x y t Ht He. rewrite tileAt_map, Ht. simpl. eauto.
Qed.

Section Visibility.
Context (R : Rot).

Lemma calculateFOV_tiles (w : WorldMap) (x y r : Z) :
  tiles (snd (calculateFOV R w x y r))
  = snd (fold_left see (fov_compute R (lightPasses w) x y r) (∅, tiles w)).
Proof.
  unfold calculateFOV.
  destruct (fold_left see _ _) as [vis g]. reflexivity.
Qed.

Lemma calculateFOV_visible_explored (w : WorldMap) (x y r : Z) :
  visible_explored (tiles w) ->
  visible_explored (tiles (snd (calculateFOV R w x y r))).
Proof.
  intros H. rewrite calculateFOV_tiles.
  apply fold_see_visible_explored. exact H.
Qed.

Lemma calculateFOV_explored_kept (w : WorldMap) (x y r : Z) :
  explored_kept (tiles w) (tiles (snd (calculateFOV R w x y r))).
Proof.
  rewrite calculateFOV_tiles.
  apply (fold_see_explored_kept _ (∅, tiles w)).
Qed.

Lemma updateVisibility_total (w : WorldMap) (x y r : Z) :
  well_formed w ->
  updateVisibility R w x y r
  = Some (snd (calculateFOV R
                 (set_tiles (map (map (set_visible false)) (tiles w)) w) x y r)).
Proof.
  intros (_ & _ & Hlen & Hrows). unfold updateVisibility.
  rewrite <- Hlen, (resetRows_full _ _ Hrows). reflexivity.
Qed.

(** On a well-formed world, [calculateFOV] keeps [visible] inside
    [explored] and resets no [explored] flag; [updateVisibility] returns a
    world in which [visible] is inside [explored], and resets no
    [explored] flag either. *)
Lemma recompute_preserves (w : WorldMap) (x y r : Z) :
  well_formed w ->
  (visible_explored (tiles w) ->
   visible_explored (tiles (snd (calculateFOV R w x y r)))) /\
  explored_kept (tiles w) (tiles (snd (calculateFOV R w x y r))) /\
  (exists w', updateVisibility R w x y r = Some w' /\
              visible_explored (tiles w') /\
              explored_kept (tiles w) (tiles w')).
Proof.
  intros Hwf. split; [apply calculateFOV_visible_explored|].
  split; [apply calculateFOV_explored_kept|].
  eexists. split; [apply (updateVisibility_total _ _ _ _ Hwf)|]. split.
  - apply calculateFOV_visible_explored. simpl.
    apply hidden_visible_explored, reset_hidden.
  - etransitivity; [apply reset_explored_kept|].
    apply (calculateFOV_explored_kept (set_tiles _ w)).
Qed.

End Visibility.

(** *** What the generators build *)

Section Generated.
Context (R : Rot).

Lemma paint_keeps (on : Z) (a b : TileType) (cells : list (Z * Z * Z)) (w h : nat) :
  forall g g', paint on a b cells g = Some g' ->
               dims w h g /\ hidden g -> dims w h g' /\ hidden g'.
Proof.
  induction cells as [|[[x y] value] tl IH]; intros g g'; simpl.
  - intros [= <-]. auto.
  - destruct (updTile _ x y g) as [g1|] eqn:E; [|discriminate].
    intros Hp [Hd Hh]. apply (IH _ _ Hp). split.
    + apply (updTile_dims _ _ _ _ _ _ _ E Hd).
    + eapply updTile_hidden; [|exact E|exact Hh]. reflexivity.
Qed.

Lemma addDoors_keeps (rooms : list Room) (w h : nat) :
  forall g, dims w h g /\ hidden g ->
            dims w h (addDoors rooms g) /\ hidden (addDoors rooms g).
Proof.
  unfold addDoors. induction rooms as [|room tl IH]; intros g Hg; simpl; [exact Hg|].
  apply IH. clear IH. revert g Hg.
  induction (getDoors room) as [|[x y] ds IHd]; intros g [Hd Hh]; simpl; [auto|].
  apply IHd. split.
  - apply updTileIfPresent_dims. exact Hd.
  - apply updTileIfPresent_hidden; [reflexivity|exact Hh].
Qed.

Lemma addResources_keeps (rooms : list Room) (w h : nat) :
  forall g s, dims w h g /\ hidden g ->
              dims w h (fst (addResources R rooms g s)) /\
              hidden (fst (addResources R rooms g s)).
Proof.
  induction rooms as [|room tl IH]; intros g s [Hd Hh]; simpl; [auto|].
  destruct (getCenter room) as [cx cy].
  destruct (tileAt g cx cy); [|apply IH; auto].
  destruct (getUniformInt R 0 _ s) as [i s'].
  apply IH. split.
  - apply updTileIfPresent_dims. exact Hd.
  - apply updTileIfPresent_hidden; [reflexivity|exact Hh].
Qed.

Lemma addBuildings_keeps (n : nat) (width height : Z) (w h : nat) :
  forall g s g', fst (addBuildings R n width height g s) = Some g' ->
                 dims w h g /\ hidden g -> dims w h g' /\ hidden g'.
Proof.
  induction n as [|n IH]; intros g s g'; simpl.
  - intros [= <-]. auto.
  - destruct (getUniformInt R 1 (width - 2) s) as [x s1].
    destruct (getUniformInt R 1 (height - 2) s1) as [y s2].
    destruct (tileAt g x y) as [t|]; [|discriminate].
    destruct (is_grass (t_type t)); [|apply IH].
    intros Hb [Hd Hh]. apply (IH _ _ _ Hb). split.
    + apply updTileIfPresent_dims. exact Hd.
    + apply updTileIfPresent_hidden; [reflexivity|exact Hh].
Qed.

Lemma generate_shape (width height : Z) (seed : option string) (style : LevelType)
    (env : Env R) (w : WorldMap) :
  fst (generate R width height seed style env) = Some w ->
  World.width w = width /\ World.height w = height /\
  dims (Z.to_nat width) (Z.to_nat height) (tiles w) /\ hidden (tiles w).
Proof.
  pose proof (conj (initTiles_dims width height wall) (initTiles_hidden width height wall))
    as Hwall.
  pose proof (conj (initTiles_dims width height grass) (initTiles_hidden width height grass))
    as Hgrass.
  assert (Hproc : fst (generateProceduralWorld R width height seed env) = Some w ->
          World.width w = width /\ World.height w = height /\
          dims (Z.to_nat width) (Z.to_nat height) (tiles w) /\ hidden (tiles w)).
  { unfold generateProceduralWorld.
    destruct (digger_create R _ _ _ _) as [[cells rooms] s1].
    destruct (paint 0 floor wall cells _) as [tiles1|] eqn:Ep; [|discriminate].
    pose proof (addResources_keeps rooms _ _ (addDoors rooms tiles1) s1
                  (addDoors_keeps rooms _ _ _ (paint_keeps _ _ _ _ _ _ _ _ Ep Hwall)))
      as Hres.
    destruct (addResources R rooms _ s1) as [tiles3 s2]. simpl in Hres.
    intros [= <-]. simpl. auto. }
  destruct style; simpl; try exact Hproc.
  unfold generateCellularWorld.
  destruct (cellular_randomize R _ _ _) as [c1 s1].
  destruct (iterate_create R 4 c1 s1) as [c2 s2].
  destruct (cellular_create R c2 s2) as [[c3 cells] s3].
  destruct (paint 1 grass water cells _) as [tiles1|] eqn:Ep; [|discriminate].
  destruct (addBuildings R 10 width height tiles1 s3) as [[tiles2|] s4] eqn:Eb;
    [|discriminate].
  intros [= <-]. simpl.
  pose proof (addBuildings_keeps 10 width height _ _ tiles1 s3 tiles2
                ltac:(rewrite Eb; reflexivity)
                (paint_keeps _ _ _ _ _ _ _ _ Ep Hgrass)).
  auto.
Qed.

Lemma see_dims (w h : nat) (acc : gset (Z * Z) * Grid) (v : Z * Z) :
  dims w h (snd acc) -> dims w h (snd (see acc v)).
Proof.
  destruct v as [vx vy]. simpl. apply updTileIfPresent_dims.
Qed.

Lemma calculateFOV_well_formed (w : WorldMap) (x y r : Z) :
  well_formed w -> well_formed (snd (calculateFOV R w x y r)).
Proof.
  intros (Hw & Hh & Hd). unfold well_formed.
  pose proof (calculateFOV_tiles R w x y r) as Ht.
  assert (E : World.width (snd (calculateFOV R w x y r)) = World.width w /\
              World.height (snd (calculateFOV R w x y r)) = World.height w).
  { unfold calculateFOV. destruct (fold_left see _ _). auto. }
  destruct E as [-> ->]. split; [exact Hw|]. split; [exact Hh|].
  rewrite Ht. change (dims (Z.to_nat (World.width w)) (Z.to_nat (World.height w))
                        (snd (fold_left see (fov_compute R (lightPasses w) x y r)
                                (∅, tiles w)))).
  generalize (fov_compute R (lightPasses w) x y r).
  assert (Hacc : dims (Z.to_nat (World.width w)) (Z.to_nat (World.height w))
                   (snd ((∅ : gset (Z * Z)), tiles w))) by exact Hd.
  revert Hacc. generalize ((∅ : gset (Z * Z)), tiles w).
  intros acc Hacc l. revert acc Hacc.
  induction l as [|v tl IH]; intros acc Hacc; simpl; [exact Hacc|].
  apply IH. apply see_dims. exact Hacc.
Qed.

(** Every world the program can hold is well formed and has [visible]
    inside [explored]. *)
Lemma reachable_invariant (w : WorldMap) :
  reachable R w -> well_formed w /\ visible_explored (tiles w).
Proof.
  induction 1 as [width height seed style env w Hw Hh Hgen
                 | w x y r Hreach [Hwf Hinv]
                 | w x y r w' Hreach [Hwf Hinv] Hupd].
  - destruct (generate_shape _ _ _ _ _ _ Hgen) as (Ew & Eh & [Hlen Hrows] & Hhid).
    split; [|apply hidden_visible_explored; exact Hhid].
    unfold well_formed. rewrite Ew, Eh. auto.
  - split; [apply calculateFOV_well_formed; exact Hwf|].
    apply calculateFOV_visible_explored. exact Hinv.
  - rewrite (updateVisibility_total R _ _ _ _ Hwf) in Hupd. injection Hupd as <-.
    split.
    + apply calculateFOV_well_formed.
      destruct Hwf as (Hw & Hh & Hlen & Hrows).
      unfold well_formed. simpl. split; [exact Hw|]. split; [exact Hh|].
      split; [rewrite length_map; exact Hlen|].
      change (map (map (set_visible false)) (tiles w))
        with (map (set_visible false) <$> tiles w).
      apply Forall_fmap. eapply Forall_impl; [exact Hrows|].
      intros row Hl. simpl. rewrite length_map. exact Hl.
    + apply calculateFOV_visible_explored. simpl.
      apply hidden_visible_explored, reset_hidden.
Qed.

(** A tile [calculateFOV] leaves visible and unexplored is a tile it
    did not touch: the callback sets both flags together. *)
Lemma fold_see_untouched (visited : list (Z * Z)) : forall acc x y t,
  tileAt (snd (fold_left see visited acc)) x y = Some t ->
  visible t = true -> explored t = false ->
  tileAt (snd acc) x y = Some t.
Proof.
  induction visited as [|[vx vy] tl IH]; intros acc x y t Ht Hv He;
    simpl in *; [exact Ht|].
  specialize (IH _ _ _ _ Ht Hv He). simpl in IH.
  rewrite tileAt_updTileIfPresent in IH.
  destruct (tileAt (snd acc) x y) as [t0|]; [|discriminate].
  destruct ((x =? vx) && (y =? vy)).
  - injection IH as <-. simpl in He. discriminate.
  - exact IH.
Qed.

(** A cell the field of view does not report keeps its tile as it was. *)
Lemma calculateFOV_unreported (w : WorldMap) (x y r vx vy : Z) :
  ~ In (vx, vy) (fov_compute R (lightPasses w) x y r) ->
  tileAt (tiles (snd (calculateFOV R w x y r))) vx vy = tileAt (tiles w) vx vy.
Proof.
  rewrite calculateFOV_tiles.
  generalize (∅ : gset (Z * Z)). generalize (tiles w).
  induction (fov_compute R (lightPasses w) x y r) as [|[cx cy] tl IH];
    intros g vis Hout; simpl; [reflexivity|].
  rewrite IH by (intros Hin; apply Hout; right; exact Hin). simpl.
  rewrite tileAt_updTileIfPresent.
  destruct (tileAt g vx vy) as [t|]; [|reflexivity].
  destruct (Z.eqb_spec vx cx) as [->|]; [|reflexivity].
  destruct (Z.eqb_spec vy cy) as [->|]; [|reflexivity].
  exfalso. apply Hout. left. reflexivity.
Qed.

(** C7, as amended -- the visibility invariant, on a well-formed world
    whatever its flags.  [calculateFOV] never clears a [visible] flag: it
    keeps [visible] inside [explored] where that held before, and a tile
    it leaves visible and unexplored is a tile that was so before the
    call.  [updateVisibility], which resets the flags first, returns a
    world in which every visible tile is explored.  Neither resets an
    [explored] flag. *)
Theorem recompute_keeps_visible_explored (w : WorldMap) (x y r : Z) :
  well_formed w ->
  let w1 := snd (calculateFOV R w x y r) in
  (visible_explored (tiles w) -> visible_explored (tiles w1)) /\
  (forall vx vy t, tileAt (tiles w1) vx vy = Some t ->
     visible t = true -> explored t = false ->
     tileAt (tiles w) vx vy = Some t) /\
  explored_kept (tiles w) (tiles w1) /\
  (exists w', updateVisibility R w x y r = Some w' /\
              visible_explored (tiles w') /\
              explored_kept (tiles w) (tiles w')).
Proof.
  intros Hwf. cbv zeta.
  destruct (recompute_preserves R w x y r Hwf) as (Hfov & Hkept & Hupd).
  split; [exact Hfov|]. split; [|split; [exact Hkept|exact Hupd]].
  intros vx vy t. rewrite calculateFOV_tiles.
  apply (fold_see_untouched _ (∅, tiles w)).
Qed.

(** On the worlds the program generates (and recomputes any number of
    times) the invariant holds outright: a generator leaves every tile
    hidden. *)
Corollary visibility_invariant (w : WorldMap) (x y r : Z) :
  reachable R w ->
  visible_explored (tiles (snd (calculateFOV R w x y r))) /\
  explored_kept (tiles w) (tiles (snd (calculateFOV R w x y r))) /\
  (exists w', updateVisibility R w x y r = Some w' /\
              visible_explored (tiles w') /\
              explored_kept (tiles w) (tiles w')).
Proof.
  intros Hreach. destruct (reachable_invariant w Hreach) as [Hwf Hinv].
  destruct (recompute_preserves R w x y r Hwf) as (Hfov & Hkept & Hupd).
  auto.
Qed.

End Generated.

(** *** Generation *)

Section Determinism.
Context (R : Rot).

(** C1, as amended -- generation from a supplied (non-empty) seed is
    deterministic: the world returned, and the state the random generator
    is left in, do not depend on the clock or on the state the generator
    was in before the call. *)
Theorem generation_deterministic (width height : Z) (seed : string)
    (style : LevelType) (env1 env2 : Env R) :
  seed <> "" ->
  fst (generate R width height (Some seed) style env1)
  = fst (generate R width height (Some seed) style env2) /\
  rngState (snd (generate R width height (Some seed) style env1))
  = rngState (snd (generate R width height (Some seed) style env2)).
Proof.
  intros Hne.
  assert (Hseed : forall now, actualSeed (Some seed) now = seed).
  { intros now. unfold actualSeed, Js.str_or.
    destruct (String.eqb_spec seed ""); [contradiction|reflexivity]. }
  assert (Hproc :
    fst (generateProceduralWorld R width height (Some seed) env1)
    = fst (generateProceduralWorld R width height (Some seed) env2) /\
    rngState (snd (generateProceduralWorld R width height (Some seed) env1))
    = rngState (snd (generateProceduralWorld R width height (Some seed) env2))).
  { unfold generateProceduralWorld. rewrite !Hseed.
    destruct (digger_create R _ _ _ _) as [[cells rooms] s1].
    destruct (paint 0 floor wall cells _) as [tiles1|]; [|auto].
    destruct (addResources R rooms _ s1) as [tiles3 s2]. auto. }
  destruct style; simpl; try exact Hproc.
  unfold generateCellularWorld. rewrite !Hseed.
  destruct (cellular_randomize R _ _ _) as [c1 s1].
  destruct (iterate_create R 4 c1 s1) as [c2 s2].
  destruct (cellular_create R c2 s2) as [[c3 cells] s3].
  destruct (paint 1 grass water cells _) as [tiles1|]; [|auto].
  destruct (addBuildings R 10 width height tiles1 s3) as [[tiles2|] s4]; auto.
Qed.

(** With no seed, or an empty one, the seed is the clock's reading. *)
Lemma seedless_generation_reads_the_clock (now : Z) :
  actualSeed None now = pretty now /\ actualSeed (Some "") now = pretty now.
Proof. split; reflexivity. Qed.

(** So the worlds two such calls return at different clock readings are
    never the same, whatever the library does: each records the reading
    it was seeded with. *)
Lemma seedless_generation_differs (width height : Z) (style : LevelType)
    (env1 env2 : Env R) (w1 w2 : WorldMap) :
  clock env1 <> clock env2 ->
  fst (generate R width height (Some "") style env1) = Some w1 ->
  fst (generate R width height (Some "") style env2) = Some w2 ->
  seed w1 = pretty (clock env1) /\ seed w2 = pretty (clock env2) /\ w1 <> w2.
Proof.
  intros Hclock H1 H2.
  assert (Hseed : forall env w,
            fst (generate R width height (Some "") style env) = Some w ->
            seed w = pretty (clock env)).
  { intros env w. unfold generate.
    assert (Hp : fst (generateProceduralWorld R width height (Some "") env) = Some w ->
                 seed w = pretty (clock env)).
    { unfold generateProceduralWorld.
      destruct (digger_create R _ _ _ _) as [[cells rooms] s1].
      destruct (paint 0 floor wall cells _) as [tiles1|]; [|discriminate].
      destruct (addResources R rooms _ s1) as [tiles3 s2].
      intros [= <-]. reflexivity. }
    destruct style; try exact Hp.
    unfold generateCellularWorld.
    destruct (cellular_randomize R _ _ _) as [c1 s1].
    destruct (iterate_create R 4 c1 s1) as [c2 s2].
    destruct (cellular_create R c2 s2) as [[c3 cells] s3].
    destruct (paint 1 grass water cells _) as [tiles1|]; [|discriminate].
    destruct (addBuildings R 10 width height tiles1 s3) as [[tiles2|] s4];
      [|discriminate].
    intros [= <-]. reflexivity. }
  split; [apply Hseed, H1|]. split; [apply Hseed, H2|].
  intros ->. apply Hclock.
  apply (inj (pretty : Z -> string)).
  rewrite <- (Hseed _ _ H1), <- (Hseed _ _ H2). reflexivity.
Qed.

(** *** Line of sight *)

(** C2 -- [hasLineOfSight] does not trace the segment: it asks the path
    search for any route of cells light passes through.  Whatever search
    is used, as long as the cells it reports other than the end point are
    cells it was told are passable, the answer is true whenever the end
    tile is not a wall -- walls on the segment are never seen. *)
Theorem line_of_sight_ignores_walls (w : WorldMap) (a b : Position) :
  (forall p, In p (astar_compute R (lightPasses w)
                     (pos_x b, pos_y b) (pos_x a, pos_y a)) ->
             p = (pos_x b, pos_y b) \/ lightPasses w (fst p) (snd p) = true) ->
  lightPasses w (pos_x b) (pos_y b) = true ->
  hasLineOfSight R w a b = true.
Proof.
  intros Hpath Hend. unfold hasLineOfSight.
  apply forallb_forall. intros [x y] Hin.
  destruct (Hpath _ Hin) as [[= -> ->]|H]; [exact Hend|exact H].
Qed.

(** When the search finds no route at all the answer is true as well. *)
Lemma line_of_sight_without_route (w : WorldMap) (a b : Position) :
  astar_compute R (lightPasses w) (pos_x b, pos_y b) (pos_x a, pos_y a) = [] ->
  hasLineOfSight R w a b = true.
Proof. intros H. unfold hasLineOfSight. rewrite H. reflexivity. Qed.

End Determinism.

(** *** Concrete worlds *)

Import SampleRot.

Lemma generation_deterministic_witness :
  "7" <> "" /\
  fst (generate rot 5 4 (Some "7") outdoor (Build_Env rot 1000 0))
  = fst (generate rot 5 4 (Some "7") outdoor (Build_Env rot 2000 99)) /\
  rngState (snd (generate rot 5 4 (Some "7") outdoor (Build_Env rot 1000 0)))
  = rngState (snd (generate rot 5 4 (Some "7") outdoor (Build_Env rot 2000 99))).
Proof.
  split; [discriminate|].
  apply (generation_deterministic rot 5 4 "7" outdoor). discriminate.
Defined.

(** The default dungeon and a small outdoor map, each generated twice
    with the same arguments and an empty seed, one millisecond apart: both
    calls return a world, the two worlds record different seeds, and
    their grids of tile types differ. *)
Lemma empty_seed_counterexample :
  let run width height style now :=
    fst (generate rot width height (Some "") style (Build_Env rot now 0)) in
  let types (w : option WorldMap) :=
    option_map (fun w => map (map t_type) (tiles w)) w in
  (option_map seed (run 40 30 dungeon 1700000000000) = Some "1700000000000" /\
   option_map seed (run 40 30 dungeon 1700000000001) = Some "1700000000001" /\
   types (run 40 30 dungeon 1700000000000) <> types (run 40 30 dungeon 1700000000001)) /\
  (option_map seed (run 5 4 outdoor 1700000000000) = Some "1700000000000" /\
   option_map seed (run 5 4 outdoor 1700000000001) = Some "1700000000001" /\
   types (run 5 4 outdoor 1700000000000) <> types (run 5 4 outdoor 1700000000001)).
Proof.
  cbv zeta.
  pose (probe := fun (x y : nat) (g : option (list (list TileType))) =>
                   option_map (fun g => nth x (nth y g []) wall) g).
  split.
  - split; [vm_compute; reflexivity|]. split; [vm_compute; reflexivity|].
    intros Heq. apply (f_equal (probe 2%nat 1%nat)) in Heq.
    vm_compute in Heq. discriminate Heq.
  - split; [vm_compute; reflexivity|]. split; [vm_compute; reflexivity|].
    intros Heq. apply (f_equal (probe 1%nat 1%nat)) in Heq.
    vm_compute in Heq. discriminate Heq.
Qed.

Lemma line_of_sight_ignores_walls_witness :
  lightPasses pillar 1 1 = false /\
  astar_compute (lightPasses pillar) (2, 1) (0, 1) = [(0, 1); (1, 2); (2, 1)] /\
  lightPasses pillar (pos_x east) (pos_y east) = true /\
  hasLineOfSight rot pillar west east = true.
Proof.
  split; [reflexivity|]. split; [vm_compute; reflexivity|].
  split; [reflexivity|].
  apply (line_of_sight_ignores_walls rot pillar west east); [|reflexivity].
  intros p Hin.
  change (In p [(0, 1); (1, 2); (2, 1)]) in Hin.
  destruct Hin as [<-|[<-|[<-|[]]]]; [right|right|left]; reflexivity.
Defined.

Lemma dungeon7_reachable : reachable rot dungeon7.
Proof.
  apply (reach_generate rot 5 4 (Some "7") dungeon (Build_Env rot 0 0) dungeon7);
    [lia | lia | vm_compute; reflexivity].
Defined.

Example dungeon7_visible_explored :
  reachable rot dungeon7 /\
  visible_explored (tiles (snd (calculateFOV rot dungeon7 2 1 1))) /\
  explored_kept (tiles dungeon7) (tiles (snd (calculateFOV rot dungeon7 2 1 1))) /\
  (exists w', updateVisibility rot dungeon7 2 1 1 = Some w' /\
              visible_explored (tiles w') /\
              explored_kept (tiles dungeon7) (tiles w')).
Proof.
  split; [exact dungeon7_reachable|].
  exact (visibility_invariant rot dungeon7 2 1 1 dungeon7_reachable).
Qed.

Lemma stale_well_formed : well_formed stale.
Proof.
  unfold well_formed. split; [vm_compute; discriminate|].
  split; [vm_compute; discriminate|]. split; [reflexivity|].
  repeat constructor.
Defined.

Lemma recompute_keeps_visible_explored_witness :
  let w := stale in
  let w1 := snd (calculateFOV rot w 0 0 1) in
  well_formed w /\
  (visible_explored (tiles w) -> visible_explored (tiles w1)) /\
  (forall vx vy t, tileAt (tiles w1) vx vy = Some t ->
     visible t = true -> explored t = false ->
     tileAt (tiles w) vx vy = Some t) /\
  explored_kept (tiles w) (tiles w1) /\
  (exists w', updateVisibility rot w 0 0 1 = Some w' /\
              visible_explored (tiles w') /\
              explored_kept (tiles w) (tiles w')).
Proof.
  intros w w1. split; [exact stale_well_formed|].
  exact (recompute_keeps_visible_explored rot w 0 0 1 stale_well_formed).
Defined.

(** [calculateFOV] from the near end of the corridor, radius 1: the far
    end is out of sight, so its flags stay as they were, visible and
    unexplored, and the invariant fails of the world the call leaves.
    [updateVisibility] on the same world clears the flag.  On a world
    that holds fewer rows than it declares [updateVisibility] returns no
    world at all: its reset loop raises a [TypeError] at the missing row. *)
Lemma stale_tile_counterexample :
  let w1 := snd (calculateFOV rot stale 0 0 1) in
  well_formed stale /\
  ((4, 0) ∉ fst (calculateFOV rot stale 0 0 1)) /\
  option_map (fun t => (visible t, explored t)) (tileAt (tiles w1) 4 0)
  = Some (true, false) /\
  ~ visible_explored (tiles w1) /\
  option_map (fun w' => option_map (fun t => (visible t, explored t))
                          (tileAt (tiles w') 4 0))
    (updateVisibility rot stale 0 0 1)
  = Some (Some (false, false)) /\
  ~ well_formed short /\ updateVisibility rot short 0 0 1 = None.
Proof.
  cbv zeta.
  split; [exact stale_well_formed|].
  assert (Hfar : option_map (fun t => (visible t, explored t))
                   (tileAt (tiles (snd (calculateFOV rot stale 0 0 1))) 4 0)
                 = Some (true, false)) by (vm_compute; reflexivity).
  split; [|split; [exact Hfar|split]].
  - assert (Hb : bool_decide ((4, 0) ∈ fst (calculateFOV rot stale 0 0 1)) = false)
      by (vm_compute; reflexivity).
    intros Hin. apply bool_decide_eq_false in Hb. exact (Hb Hin).
  - intros Hinv.
    destruct (tileAt (tiles (snd (calculateFOV rot stale 0 0 1))) 4 0)
      as [t|] eqn:Ht; [|discriminate].
    injection Hfar as Hv He. specialize (Hinv 4 0 t Ht Hv). congruence.
  - split; [vm_compute; reflexivity|].
    split; [intros (_ & _ & Hlen & _); discriminate Hlen|reflexivity].
Qed.

(** After the recompute the tiles around the origin are both visible and
    explored. *)
Example dungeon7_seen :
  option_map (fun w => map (map (fun t => (visible t, explored t))) (tiles w))
    (updateVisibility rot dungeon7 2 1 1)
  = Some (map (map (fun t => (visible t, explored t)))
            (tiles (snd (calculateFOV rot dungeon7 2 1 1)))) /\
  option_map (fun t => (visible t, explored t))
    (tileAt (tiles (snd (calculateFOV rot dungeon7 2 1 1))) 3 2)
  = Some (true, true).
Proof. vm_compute. split; reflexivity. Qed.

End WorldFacts.

(** ** The host's listener *)

Module HostFacts.
Import Host.

(** C9, as amended -- a STATE_REQUEST reaching the host elicits no
    reply.  The listener the host registers reacts to data whose type is
    ACTION and to nothing else: on a STATE_REQUEST, as on any other data
    that is no ACTION, it sends nothing and leaves the component state as
    it is, so the broadcast effect, which runs when the game state or the
    messages change, sends nothing either. *)
Theorem state_request_gets_no_reply :
  (forall c now reason s,
     hostOnData c now (Untyped (G_STATE_REQUEST reason)) s = (s, []) /\
     syncs_sent (snd (hostOnData c now (Untyped (G_STATE_REQUEST reason)) s)
                 ++ broadcast c false s) = 0%nat) /\
  (forall c now data s,
     data_type data <> "ACTION" -> hostOnData c now data s = (s, [])).
Proof.
  split; [intros c now reason s; split; reflexivity|].
  intros c now data s Hne. unfold hostOnData.
  destruct (String.eqb_spec (data_type data) "ACTION"); [contradiction|reflexivity].
Qed.

Lemma state_request_counterexample :
  syncs_sent
    (snd (hostOnData Sample.hosting 1000 (Untyped (G_STATE_REQUEST out_of_sync))
            Sample.screen)) = 0%nat /\
  syncs_sent
    (snd (hostOnData Sample.hosting 1000 (Untyped (G_STATE_REQUEST out_of_sync))
            Sample.screen)) <> 1%nat.
Proof. split; [reflexivity|discriminate]. Qed.

End HostFacts.

(** ** gameBalance.ts: damage, hit chance, spawning *)

Module BalanceFacts.
Import Balance Spawn JsFacts.

Lemma Qleb_le a b : Js.Qleb a b = true <-> (a <= b)%Q.
Proof. unfold Js.Qleb. apply Qle_bool_iff. Qed.

Lemma Qleb_gt a b : Js.Qleb a b = false <-> (b < a)%Q.
Proof.
  unfold Js.Qleb. split; intros H.
  - apply Qnot_le_lt. intros Hle. apply Qle_bool_iff in Hle. congruence.
  - destruct (Qle_bool a b) eqn:E; [|reflexivity].
    apply Qle_bool_iff in E. exfalso. apply (Qlt_not_le _ _ H E).
Qed.

(** Two comparisons that decide the same inequality are the same
    boolean. *)
Lemma Qleb_same a b c d :
  ((a <= b)%Q <-> (c <= d)%Q) -> Js.Qleb a b = Js.Qleb c d.
Proof.
  intros H. destruct (Js.Qleb c d) eqn:E.
  - apply Qleb_le. apply H. apply Qleb_le. exact E.
  - apply Qleb_gt. apply Qleb_gt in E. apply Qnot_le_lt. intros Hab.
    apply H in Hab. apply (Qlt_not_le _ _ E Hab).
Qed.

(** X1 -- an attack that lands never deals less than 1 damage, whatever
    the base damage, the defence and the draw, and a critical hit never
    deals less than the same hit without the critical multiplier. *)
Theorem calculateDamage_at_least_one (base targetDefense : Q) (isCritical : bool)
    (r : Q) :
  1 <= calculateDamage base targetDefense isCritical r /\
  calculateDamage base targetDefense false r <= calculateDamage base targetDefense true r.
Proof.
  unfold calculateDamage, criticalMultiplier.
  set (d := Qmax 1 (base * (1 + (r * 2 - 1) * damageVariance) - targetDefense)).
  assert (Hd : (1 <= d)%Q) by apply Q.le_max_l.
  split.
  - change 1 with (Qfloor 1). apply Qfloor_resp_le.
    destruct isCritical; [|exact Hd]. lra.
  - apply Qfloor_resp_le. lra.
Qed.

(** The chance to hit grows with the skill level and is capped:
    it never exceeds 0.9, and it is 0.9 from level 10 on. *)
Lemma hit_chance_is_capped (skillLevel : Z) :
  (calculateSkillSuccessChance skillLevel <= 0.9)%Q /\
  (10 <= skillLevel -> (calculateSkillSuccessChance skillLevel == 0.9)%Q) /\
  (forall higher, skillLevel <= higher ->
     (calculateSkillSuccessChance skillLevel <= calculateSkillSuccessChance higher)%Q).
Proof.
  unfold calculateSkillSuccessChance, baseSuccessChance, bonusPerLevel, maxSkillLevel.
  split; [|split].
  - assert (H : (inject_Z (Z.min skillLevel 10) <= inject_Z 10)%Q)
      by (rewrite <- Zle_Qle; lia).
    change (inject_Z 10) with 10%Q in H. lra.
  - intros H. rewrite Z.min_r by lia. reflexivity.
  - intros higher H.
    assert (H' : (inject_Z (Z.min skillLevel 10) <= inject_Z (Z.min higher 10))%Q)
      by (rewrite <- Zle_Qle; lia).
    lra.
Qed.

Ltac same_test :=
  apply Qleb_same; unfold Qminus; split; intros ?; lra.

(** X2 -- which zombie type a draw selects.  By day the five types share
    the unit interval in the proportions 50, 20, 10, 15 and 5 per cent, and
    a draw above 1 falls through the loop to the fallback, the first type.
    At night the weights of Runner, Tank and Screamer grow by half, the
    total becomes 1.175, and the thresholds move to 20/47, 32/47, 38/47
    and 44/47.  These are no numbers the code can hold exactly: a draw
    within a few units in the last place of one of them can fall on either
    side.  Every draw that keeps a distance of a billionth from them
    selects the type of its interval. *)
Theorem selectZombieType_distribution (r : Q) :
  selectZombieType false r =
    (if Js.Qleb r 0.5 then "Walker" else if Js.Qleb r 0.7 then "Runner"
     else if Js.Qleb r 0.8 then "Tank" else if Js.Qleb r 0.95 then "Spitter"
     else if Js.Qleb r 1 then "Screamer" else "Walker") /\
  let margin := (1 # 1000000000)%Q in
  ((r <= (20 # 47) - margin)%Q -> selectZombieType true r = "Walker") /\
  (((20 # 47) + margin <= r <= (32 # 47) - margin)%Q ->
   selectZombieType true r = "Runner") /\
  (((32 # 47) + margin <= r <= (38 # 47) - margin)%Q ->
   selectZombieType true r = "Tank") /\
  (((38 # 47) + margin <= r <= (44 # 47) - margin)%Q ->
   selectZombieType true r = "Spitter") /\
  (((44 # 47) + margin <= r <= 1)%Q -> selectZombieType true r = "Screamer").
Proof.
  split.
  - unfold selectZombieType. cbn [zombieTypeNames spawnTable map fst pick nth].
    unfold totalWeight. cbn [weights spawnTable map andb fold_left].
    replace (Js.Qleb (r * (0 + 0.5 + 0.2 + 0.1 + 0.15 + 0.05) - 0.5) 0)
      with (Js.Qleb r 0.5) by same_test.
    destruct (Js.Qleb r 0.5); [reflexivity|].
    replace (Js.Qleb (r * (0 + 0.5 + 0.2 + 0.1 + 0.15 + 0.05) - 0.5 - 0.2) 0)
      with (Js.Qleb r 0.7) by same_test.
    destruct (Js.Qleb r 0.7); [reflexivity|].
    replace (Js.Qleb (r * (0 + 0.5 + 0.2 + 0.1 + 0.15 + 0.05) - 0.5 - 0.2 - 0.1) 0)
      with (Js.Qleb r 0.8) by same_test.
    destruct (Js.Qleb r 0.8); [reflexivity|].
    replace (Js.Qleb (r * (0 + 0.5 + 0.2 + 0.1 + 0.15 + 0.05) - 0.5 - 0.2 - 0.1 - 0.15) 0)
      with (Js.Qleb r 0.95) by same_test.
    destruct (Js.Qleb r 0.95); [reflexivity|].
    replace (Js.Qleb (r * (0 + 0.5 + 0.2 + 0.1 + 0.15 + 0.05) - 0.5 - 0.2 - 0.1 - 0.15 - 0.05) 0)
      with (Js.Qleb r 1) by same_test.
    destruct (Js.Qleb r 1); reflexivity.
  - cbv zeta.
    assert (Hnight : selectZombieType true r =
      (if Js.Qleb r (20 # 47) then "Walker" else if Js.Qleb r (32 # 47) then "Runner"
       else if Js.Qleb r (38 # 47) then "Tank"
       else if Js.Qleb r (44 # 47) then "Spitter"
       else if Js.Qleb r 1 then "Screamer" else "Walker")).
    { unfold selectZombieType. cbn [zombieTypeNames spawnTable map fst pick nth].
      unfold totalWeight. cbn [weights spawnTable map andb fold_left].
      change (dangerous "Walker") with false. change (dangerous "Runner") with true.
      change (dangerous "Tank") with true. change (dangerous "Spitter") with false.
      change (dangerous "Screamer") with true. cbv iota.
      set (T := (0 + 0.5 + 0.2 * 1.5 + 0.1 * 1.5 + 0.15 + 0.05 * 1.5)%Q).
      replace (Js.Qleb (r * T - 0.5) 0) with (Js.Qleb r (20 # 47))
        by (subst T; same_test).
      destruct (Js.Qleb r (20 # 47)); [reflexivity|].
      replace (Js.Qleb (r * T - 0.5 - 0.2 * 1.5) 0) with (Js.Qleb r (32 # 47))
        by (subst T; same_test).
      destruct (Js.Qleb r (32 # 47)); [reflexivity|].
      replace (Js.Qleb (r * T - 0.5 - 0.2 * 1.5 - 0.1 * 1.5) 0) with (Js.Qleb r (38 # 47))
        by (subst T; same_test).
      destruct (Js.Qleb r (38 # 47)); [reflexivity|].
      replace (Js.Qleb (r * T - 0.5 - 0.2 * 1.5 - 0.1 * 1.5 - 0.15) 0)
        with (Js.Qleb r (44 # 47))
        by (subst T; same_test).
      destruct (Js.Qleb r (44 # 47)); [reflexivity|].
      replace (Js.Qleb (r * T - 0.5 - 0.2 * 1.5 - 0.1 * 1.5 - 0.15 - 0.05 * 1.5) 0)
        with (Js.Qleb r 1)
        by (subst T; same_test).
      destruct (Js.Qleb r 1); reflexivity. }
    rewrite Hnight.
    assert (Hyes : forall a, (r <= a)%Q -> Js.Qleb r a = true)
      by (intros a H; apply Qleb_le; exact H).
    assert (Hno : forall a, (a < r)%Q -> Js.Qleb r a = false)
      by (intros a H; apply Qleb_gt; exact H).
    repeat split.
    + intros H. rewrite Hyes by lra. reflexivity.
    + intros [Hlo Hhi]. rewrite Hno by lra. rewrite Hyes by lra. reflexivity.
    + intros [Hlo Hhi]. rewrite !Hno by lra. rewrite Hyes by lra. reflexivity.
    + intros [Hlo Hhi]. rewrite !Hno by lra. rewrite Hyes by lra. reflexivity.
    + intros [Hlo Hhi]. rewrite !Hno by lra. rewrite Hyes by lra. reflexivity.
Qed.

Lemma pick_In (types : list string) : forall ws random type,
  pick types ws random = Some type -> In type types.
Proof.
  induction types as [|t tl IH]; intros ws random type; simpl; [discriminate|].
  destruct ws as [|w ws']; [discriminate|].
  destruct (Js.Qleb _ _).
  - intros [= <-]. left. reflexivity.
  - intros H. right. eapply IH, H.
Qed.

(** The selected type is a key of the table. *)
Lemma selectZombieType_In (isNight : bool) (r : Q) :
  In (selectZombieType isNight r) zombieTypeNames.
Proof.
  unfold selectZombieType.
  destruct (pick _ _ _) as [type|] eqn:E.
  - eapply pick_In, E.
  - left. reflexivity.
Qed.

(** X3 -- the number of zombies an encounter spawns lies between 1 and
    4, and a safe location still spawns exactly one: its base count of 0
    is moved to 1 or -1 and then raised to the minimum of 1. *)
Theorem spawn_count_range (locationType : LocationType) (isNight : bool) (r : Q) :
  1 <= calculateZombieSpawnCount locationType isNight r <= 4 /\
  calculateZombieSpawnCount safe isNight r = 1.
Proof.
  unfold calculateZombieSpawnCount.
  destruct locationType, isNight, (Js.Qltb 0.5 r); simpl; lia.
Qed.

End BalanceFacts.

(** ** The combat engine: further properties *)

Module EngineFacts.
Import Balance Combat JsFacts Invariants.

Section Facts.
Variable random : nat -> Q.

Local Notation "'AP' s" := (playerActionPoints (combatState s))
  (at level 10, s at level 9).

Ltac run := unfold bind, get, ret, when, modify_gs, modify_cs, Math_random; simpl.

Ltac flow :=
  repeat (match goal with
          | |- context [(if ?b then _ else _) _] => destruct b eqn:?
          end; simpl).

(** *** Combat that has ended *)

Lemma not_player_turn_invalid (action : CombatAction) (s : Engine) :
  c_phase (combatState s) <> player_turn -> isActionValid action s = false.
Proof.
  unfold isActionValid. destruct (c_phase (combatState s)); congruence.
Qed.

(** X4 -- once the combat phase is no longer the player's turn (victory,
    defeat), the engine is final: every action is answered with the single
    "Invalid action" record and the engine state stays what it was,
    through any sequence of actions. *)
Theorem ended_combat_rejects_every_action (actions : list CombatAction) (s : Engine) :
  c_phase (combatState s) <> player_turn ->
  play random actions s = s /\
  Forall (fun action => processAction random action s = ([invalidResult], s)) actions.
Proof.
  intros Hp.
  assert (Hrej : forall action, processAction random action s = ([invalidResult], s)).
  { intros action. apply CombatFacts.processAction_rejected.
    apply not_player_turn_invalid. exact Hp. }
  split.
  - induction actions as [|action rest IH]; simpl; [reflexivity|].
    rewrite Hrej. simpl. exact IH.
  - apply Forall_forall. intros action _. apply Hrej.
Qed.

(** *** What the steps of an action leave alone *)

Lemma dispatch_frame (action : CombatAction) (s : Engine) :
  let s1 := snd (dispatch random action s) in
  log (combatState s1) = log (combatState s) /\
  round (combatState s1) = round (combatState s) /\
  (c_phase (combatState s1) = c_phase (combatState s) /\
   phase (gameState s1) = phase (gameState s)
   \/ c_phase (combatState s1) = fled /\ phase (gameState s1) = exploration /\
      enemies (gameState s1) = []).
Proof.
  unfold dispatch. destruct (a_type action).
  - pose proof (CombatFacts.processAttack_frame random
                  (Js.str_or (a_targetId action) "") s) as H.
    unfold attack_frame in H. simpl.
    destruct H as (_ & _ & Hp & Hr & _ & Hl & _ & _ & _ & _ & Hph). auto.
  - simpl. auto.
  - unfold processUseItem. destruct (isHealingItem _); simpl; auto.
  - unfold processFlee. run. destruct (Js.Qltb _ _); simpl; auto 6.
  - simpl. auto.
Qed.

Lemma deduct_frame (action : CombatAction) (results : list CombatResult) (s : Engine) :
  let s' := snd (deductActionPoint action results s) in
  log (combatState s') = log (combatState s) /\
  c_phase (combatState s') = c_phase (combatState s) /\
  phase (gameState s') = phase (gameState s) /\
  enemies (gameState s') = enemies (gameState s) /\
  actionPoints (gameState s') =
    (if deductsAP action results then AP s - 1 else actionPoints (gameState s)) /\
  AP s' = (if deductsAP action results then AP s - 1 else AP s).
Proof.
  unfold deductActionPoint. destruct (deductsAP action results); run; repeat split.
Qed.

Lemma enemiesAct_more (es : list Enemy) : forall s,
  let out := enemiesAct random es s in
  phase (gameState (snd out)) = phase (gameState s) /\
  actionPoints (gameState (snd out)) = actionPoints (gameState s) /\
  map e_hp (fst (fst out)) = map e_hp es /\
  map e_id (fst (fst out)) = map e_id es /\
  ((0 <= hp (gameState s))%Q -> (0 <= hp (gameState (snd out)))%Q).
Proof.
  induction es as [|e tl IH]; intros s; simpl.
  - repeat split; auto.
  - destruct (alive e).
    + unfold bind at 1. unfold enemyAct. destruct (isStunned e); run.
      * specialize (IH s). destruct (enemiesAct random tl s) as [[tl' rs] s2].
        simpl in *. destruct IH as (? & ? & ? & ? & ?).
        repeat split; auto; f_equal; auto.
      * match goal with |- context [enemiesAct random tl ?x] =>
          specialize (IH x); destruct (enemiesAct random tl x) as [[tl' rs] s2] end.
        simpl in *. destruct IH as (? & ? & ? & ? & Hhp).
        repeat split; auto; try (f_equal; auto).
        intros _. apply Hhp. apply Q.le_max_l.
    + unfold bind. specialize (IH s).
      destruct (enemiesAct random tl s) as [[tl' rs] s2].
      simpl in *. destruct IH as (? & ? & ? & ? & ?).
      repeat split; auto; f_equal; auto.
Qed.

Lemma processEnemyTurn_more (s : Engine) :
  let s' := snd (processEnemyTurn random s) in
  log (combatState s') = log (combatState s) /\
  c_phase (combatState s') = player_turn /\
  AP s' = baseActionPoints /\
  actionPoints (gameState s') = baseActionPoints /\
  phase (gameState s') = phase (gameState s) /\
  map e_hp (enemies (gameState s')) = map e_hp (enemies (gameState s)) /\
  map e_id (enemies (gameState s')) = map e_id (enemies (gameState s)) /\
  ((0 <= hp (gameState s))%Q -> (0 <= hp (gameState s'))%Q).
Proof.
  unfold processEnemyTurn. run.
  pose proof (CombatFacts.enemiesAct_frame random (enemies (gameState s)) s) as H.
  pose proof (enemiesAct_more (enemies (gameState s)) s) as H'.
  destruct (enemiesAct random (enemies (gameState s)) s) as [acted s1].
  simpl in *. destruct H as (Hc & _ & _). destruct H' as (? & ? & ? & ? & ?).
  rewrite Hc. repeat split; auto.
Qed.

Lemma checkCombatEnd_spec (s : Engine) :
  let s' := snd (checkCombatEnd s) in
  log (combatState s') = log (combatState s) /\
  hp (gameState s') = hp (gameState s) /\
  AP s' = AP s /\
  actionPoints (gameState s') = actionPoints (gameState s) /\
  (if Js.Qleb (hp (gameState s)) 0
   then c_phase (combatState s') = defeat /\ phase (gameState s') = exploration /\
        enemies (gameState s') = enemies (gameState s)
   else if (length (List.filter alive (enemies (gameState s))) =? 0)%nat
        then c_phase (combatState s') = victory /\
             phase (gameState s') = exploration /\ enemies (gameState s') = []
        else c_phase (combatState s') = c_phase (combatState s) /\
             phase (gameState s') = phase (gameState s) /\
             enemies (gameState s') = enemies (gameState s)).
Proof.
  unfold checkCombatEnd. run.
  destruct (Js.Qleb (hp (gameState s)) 0); simpl; [repeat split|].
  destruct (length (List.filter alive (enemies (gameState s))) =? 0)%nat; simpl;
    repeat split.
Qed.

Lemma filter_alive_nonempty (es : list Enemy) :
  (length (List.filter alive es) =? 0)%nat = false -> Exists (fun e => 0 < e_hp e) es.
Proof.
  induction es as [|e tl IH]; simpl; [discriminate|].
  unfold alive at 1. destruct (Z.ltb_spec 0 (e_hp e)) as [Hpos|Hneg].
  - intros _. left. exact Hpos.
  - intros Hl. right. auto.
Qed.

(** The state [finishAction] leaves, from the state the deduction left:
    the player's turn, or a successful flee. *)
Lemma finishAction_spec (results : list CombatResult) (s : Engine) :
  c_phase (combatState s) = player_turn \/
  c_phase (combatState s) = fled /\ enemies (gameState s) = [] ->
  let out := finishAction random results s in
  let s' := snd out in
  log (combatState s') = (log (combatState s) ++ fst out)%list /\
  (match c_phase (combatState s') with
   | defeat => (hp (gameState s') <= 0)%Q /\ phase (gameState s') = exploration
   | victory => (0 < hp (gameState s'))%Q /\ phase (gameState s') = exploration /\
                enemies (gameState s') = []
   | player_turn =>
     (0 < hp (gameState s'))%Q /\ phase (gameState s') = phase (gameState s) /\
     Exists (fun e => 0 < e_hp e) (enemies (gameState s')) /\
     map e_hp (enemies (gameState s')) = map e_hp (enemies (gameState s)) /\
     map e_id (enemies (gameState s')) = map e_id (enemies (gameState s))
   | _ => False
   end) /\
  AP s' = (if AP s <=? 0 then baseActionPoints else AP s) /\
  actionPoints (gameState s') =
    (if AP s <=? 0 then baseActionPoints else actionPoints (gameState s)).
Proof.
  intros Hstart.
  unfold finishAction, endTurnIfSpent, endPlayerTurn, appendLog. run.
  destruct (AP s <=? 0).
  - match goal with |- context [processEnemyTurn random ?x] =>
      pose proof (processEnemyTurn_more x) as HE;
      destruct (processEnemyTurn random x) as [er s1] end.
    simpl in HE. destruct HE as (Hl & Hp & Ha & Hga & Hph & Hhps & Hids & _).
    pose proof (checkCombatEnd_spec s1) as H2.
    destruct (checkCombatEnd s1) as [u s2]. simpl in *.
    destruct H2 as (Hl2 & Hh2 & Ha2 & Hga2 & Hcase).
    split; [congruence|]. split; [|split; congruence].
    destruct (Js.Qleb (hp (gameState s1)) 0) eqn:Ehp.
    + destruct Hcase as (-> & -> & _). split; [|reflexivity].
      rewrite Hh2. apply BalanceFacts.Qleb_le. exact Ehp.
    + apply BalanceFacts.Qleb_gt in Ehp. rewrite <- Hh2 in Ehp.
      destruct (length (List.filter alive (enemies (gameState s1))) =? 0)%nat eqn:El.
      * destruct Hcase as (-> & -> & ->). auto.
      * destruct Hcase as (Hc & Hg & He). rewrite Hc, Hp.
        apply filter_alive_nonempty in El. rewrite <- He in El.
        repeat split; auto; congruence.
  - pose proof (checkCombatEnd_spec s) as H2.
    destruct (checkCombatEnd s) as [u s2]. simpl in *.
    destruct H2 as (Hl2 & Hh2 & Ha2 & Hga2 & Hcase).
    split; [congruence|]. split; [|split; congruence].
    destruct (Js.Qleb (hp (gameState s)) 0) eqn:Ehp.
    + destruct Hcase as (-> & -> & _). split; [|reflexivity].
      rewrite Hh2. apply BalanceFacts.Qleb_le. exact Ehp.
    + apply BalanceFacts.Qleb_gt in Ehp. rewrite <- Hh2 in Ehp.
      destruct (length (List.filter alive (enemies (gameState s))) =? 0)%nat eqn:El.
      * destruct Hcase as (-> & -> & ->). auto.
      * destruct Hcase as (Hc & Hg & He). rewrite Hc.
        apply filter_alive_nonempty in El.
        destruct Hstart as [->|[_ Hnil]].
        -- rewrite <- He in El. repeat split; auto; congruence.
        -- rewrite Hnil in El. inversion El.
Qed.

(** The state [processAction] leaves after an accepted action. *)
Lemma accepted_spec (action : CombatAction) (s : Engine) :
  isActionValid action s = true ->
  let out := processAction random action s in
  let s' := snd out in
  log (combatState s') = (log (combatState s) ++ fst out)%list /\
  (match c_phase (combatState s') with
   | defeat => (hp (gameState s') <= 0)%Q /\ phase (gameState s') = exploration
   | victory => (0 < hp (gameState s'))%Q /\ phase (gameState s') = exploration /\
                enemies (gameState s') = []
   | player_turn =>
     (0 < hp (gameState s'))%Q /\ phase (gameState s') = phase (gameState s) /\
     Exists (fun e => 0 < e_hp e) (enemies (gameState s'))
   | _ => False
   end) /\
  (actionPoints (gameState s) = AP s -> actionPoints (gameState s') = AP s').
Proof.
  intros Hv. destruct (CombatFacts.isActionValid_true _ _ Hv) as [Hturn Hap].
  rewrite (CombatFacts.processAction_steps random _ _ Hv).
  pose proof (dispatch_frame action s) as Hd.
  pose proof (CombatFacts.dispatch_AP random action s) as Hdap.
  destruct (dispatch random action s) as [results s1] eqn:Edis. simpl in Hd, Hdap.
  destruct Hd as (Hl1 & _ & Hcase1).
  pose proof (deduct_frame action results s1) as Hded.
  destruct (deductActionPoint action results s1) as [u s2]. simpl in Hded.
  destruct Hded as (Hl2 & Hp2 & Hph2 & He2 & Hga2 & Ha2).
  assert (Hstart : c_phase (combatState s2) = player_turn \/
                   c_phase (combatState s2) = fled /\ enemies (gameState s2) = []).
  { destruct Hcase1 as [[Hc _]|(Hc & _ & He)]; [left|right]; [|split]; congruence. }
  pose proof (finishAction_spec results s2 Hstart) as Hfin.
  destruct (finishAction random results s2) as [res s3]. simpl in *.
  destruct Hfin as (Hl3 & Hout & Ha3 & Hga3).
  split; [congruence|]. split.
  - destruct (c_phase (combatState s3)); auto.
    destruct Hout as (Hhp & Hph & Hex & Hhps & _). repeat split; auto.
    rewrite Hph, Hph2.
    destruct Hcase1 as [[_ Hg]|(_ & _ & He)]; [exact Hg|].
    (* a successful flee leaves no enemy: the turn cannot go on *)
    exfalso. rewrite He2, He in Hhps. simpl in Hhps.
    apply map_eq_nil in Hhps. rewrite Hhps in Hex. inversion Hex.
  - intros Hsync. rewrite Ha3, Hga3, Hga2, Ha2.
    destruct (deductsAP action results) eqn:Eded.
    + reflexivity.
    + (* no deduction: the flee succeeded, the dispatch wrote no points *)
      assert (Hflee : AP s1 = AP s /\ actionPoints (gameState s1) = actionPoints (gameState s)).
      { revert Edis Eded. unfold dispatch, deductsAP.
        destruct (a_type action); try discriminate.
        unfold processFlee. run. destruct (Js.Qltb _ _); intros [= <- <-]; simpl; auto. }
      destruct Hflee as [-> ->]. rewrite Hsync. reflexivity.
Qed.

(** X5 -- the outcome of an accepted action.  After [processAction] has
    processed a valid action the combat phase is one of three: defeat,
    exactly when the player's hp is not positive; victory, with the enemy
    list emptied and the game back in exploration; or the player's turn
    again, with positive hp, a living enemy, at least one action point and
    the game phase untouched.  The phases enemy_turn and fled are never
    left behind: the enemy turn is played inside the call, and a
    successful flee is overwritten by the end-of-combat check. *)
Theorem accepted_action_outcome (action : CombatAction) (s : Engine) :
  isActionValid action s = true ->
  let s' := snd (processAction random action s) in
  match c_phase (combatState s') with
  | defeat => (hp (gameState s') <= 0)%Q /\ phase (gameState s') = exploration
  | victory => (0 < hp (gameState s'))%Q /\ phase (gameState s') = exploration /\
               enemies (gameState s') = []
  | player_turn =>
    (0 < hp (gameState s'))%Q /\ phase (gameState s') = phase (gameState s) /\
    Exists (fun e => 0 < e_hp e) (enemies (gameState s')) /\ 1 <= AP s'
  | enemy_turn | fled => False
  end.
Proof.
  intros Hv. pose proof (accepted_spec action s Hv) as (_ & H & _).
  pose proof (CombatFacts.processAction_AP random action s Hv) as Hap.
  cbv zeta in *.
  destruct (c_phase (combatState (snd (processAction random action s))));
    try exact H.
  destruct H as (? & ? & ?). repeat split; auto. apply Hap.
Qed.

(** X6 -- the combat log is append-only and records exactly what was
    returned: after an accepted action the log is the old log followed by
    the results of the call (the enemy turn's included); a rejected action
    is not logged. *)
Theorem log_records_the_results (action : CombatAction) (s : Engine) :
  let out := processAction random action s in
  log (combatState (snd out)) =
    if isActionValid action s then (log (combatState s) ++ fst out)%list
    else log (combatState s).
Proof.
  destruct (isActionValid action s) eqn:Hv.
  - apply (accepted_spec action s Hv).
  - simpl. rewrite (CombatFacts.processAction_rejected random _ _ Hv). reflexivity.
Qed.

(** *** Skills *)

Lemma processAttack_skills (targetId : string) (s : Engine) :
  let sk := skills (gameState s) in
  let sk' := skills (gameState (snd (processAttack random targetId s))) in
  sk' = sk \/
  exists name, skill_or_1 sk name < maxSkillLevel /\
               sk' = <[name := skill_or_1 sk name + skillGrowthOnCritical]> sk.
Proof.
  unfold processAttack, roll_if, modify_target, refundAP. run.
  destruct (find (has_id targetId) (enemies (gameState s))) as [target|];
    simpl; [|left; reflexivity].
  flow.
  all: try (left; reflexivity).
  all: right; eexists; (split; [|reflexivity]).
  all: match goal with
       | H : (_ && (_ <? maxSkillLevel)) = true |- _ =>
         apply andb_true_iff in H; destruct H as [_ H]; apply Z.ltb_lt in H; exact H
       end.
Qed.

Lemma dispatch_skills (action : CombatAction) (s : Engine) :
  let sk := skills (gameState s) in
  let sk' := skills (gameState (snd (dispatch random action s))) in
  sk' = sk \/
  exists name, skill_or_1 sk name < maxSkillLevel /\
               sk' = <[name := skill_or_1 sk name + skillGrowthOnCritical]> sk.
Proof.
  unfold dispatch. destruct (a_type action).
  - apply processAttack_skills.
  - left. reflexivity.
  - left. unfold processUseItem. destruct (isHealingItem _); reflexivity.
  - left. unfold processFlee. run. destruct (Js.Qltb _ _); reflexivity.
  - left. reflexivity.
Qed.

(** X7 -- skill levels only grow, and only up to the cap.  Whatever the
    action and the draws, a skill recorded before [processAction] is
    recorded after it with a level that is not lower, and a level recorded
    after it is either the level recorded before or at most
    [maxSkillLevel] (10). *)
Theorem skills_only_grow_to_the_cap (action : CombatAction) (s : Engine) :
  let sk := skills (gameState s) in
  let sk' := skills (gameState (snd (processAction random action s))) in
  (forall k v, sk !! k = Some v -> exists v', sk' !! k = Some v' /\ v <= v') /\
  (forall k v', sk' !! k = Some v' -> sk !! k = Some v' \/ v' <= maxSkillLevel).
Proof.
  cbv zeta.
  assert (Hsame : forall sk : gmap string Z,
            (forall k v, sk !! k = Some v -> exists v', sk !! k = Some v' /\ v <= v') /\
            (forall k v', sk !! k = Some v' -> sk !! k = Some v' \/ v' <= maxSkillLevel)).
  { intros sk. split; intros k v H; [exists v; split; [exact H|lia]|left; exact H]. }
  destruct (isActionValid action s) eqn:Hv;
    [|rewrite (CombatFacts.processAction_rejected random _ _ Hv); apply Hsame].
  rewrite (CombatFacts.processAction_steps random _ _ Hv).
  pose proof (dispatch_skills action s) as Hd.
  destruct (dispatch random action s) as [results s1]. simpl in Hd.
  pose proof (CombatFacts.deductActionPoint_AP action results s1) as (_ & Hk1 & _).
  destruct (deductActionPoint action results s1) as [u s2]. simpl in Hk1.
  pose proof (CombatFacts.finishAction_frame random results s2) as (Hk2 & _).
  destruct (finishAction random results s2) as [res s3]. simpl in *.
  destruct Hk1 as (Hk1 & _). destruct Hk2 as (Hk2 & _). rewrite Hk2, Hk1.
  destruct Hd as [->|(name & Hlt & ->)]; [apply Hsame|].
  unfold skillGrowthOnCritical, maxSkillLevel in *. split.
  - intros k v Hk. destruct (decide (k = name)) as [->|Hne].
    + rewrite lookup_insert_eq. eexists. split; [reflexivity|].
      unfold skill_or_1. rewrite Hk. destruct (Z.eqb_spec v 0); lia.
    + rewrite lookup_insert_ne by congruence. exists v. split; [exact Hk|lia].
  - intros k v'. destruct (decide (k = name)) as [->|Hne].
    + rewrite lookup_insert_eq. intros [= <-]. right. lia.
    + rewrite lookup_insert_ne by congruence. auto.
Qed.

(** *** Healing *)

Lemma remove_first_length (x : string) (l : list string) :
  In x l -> S (length (Js.remove_first x l)) = length l.
Proof.
  induction l as [|y tl IH]; simpl; [contradiction|].
  destruct (String.eqb_spec y x) as [->|Hne]; [reflexivity|].
  intros [->|Hin]; [contradiction|]. simpl. rewrite IH by exact Hin. reflexivity.
Qed.

(** X8 -- using a healing item.  In the player's turn, a [use_item]
    action on a held item whose name contains "bandage", "medkit" or
    "heal" removes exactly one copy of the item (the first) from the
    inventory; when the turn goes on (more than one action point), the
    player's hp becomes [min(maxHp, hp + 25)], or [min(maxHp, hp + 37.5)]
    from Medical level 4, so it never ends above [maxHp], and one action
    point is spent. *)
Theorem healing_item_restores_hp (action : CombatAction) (s : Engine)
    (itemId : string) :
  a_type action = use_item ->
  a_itemId action = Some itemId ->
  itemId <> "" ->
  In itemId (inventory (gameState s)) ->
  isHealingItem itemId = true ->
  c_phase (combatState s) = player_turn ->
  1 <= AP s ->
  let heal := if 4 <=? skill_or_1 (skills (gameState s)) "Medical"
              then 37.5%Q else 25%Q in
  let s' := snd (processAction random action s) in
  inventory (gameState s') = Js.remove_first itemId (inventory (gameState s)) /\
  S (length (inventory (gameState s'))) = length (inventory (gameState s)) /\
  (1 < AP s ->
     (hp (gameState s') == Qmin (maxHp (gameState s)) (hp (gameState s) + heal))%Q /\
     (hp (gameState s') <= maxHp (gameState s'))%Q /\
     AP s' = AP s - 1).
Proof.
  intros Ha Hitem Hne Hin Hheal Hp Hap.
  assert (Hv : isActionValid action s = true).
  { unfold isActionValid. rewrite Hp, Ha, Hitem.
    destruct (Z.ltb_spec (AP s) 1); [lia|]. simpl.
    destruct (String.eqb_spec itemId ""); [contradiction|]. simpl.
    apply CombatFacts.arr_includes_In. exact Hin. }
  cbv zeta. rewrite (CombatFacts.processAction_steps random _ _ Hv).
  unfold dispatch. rewrite Ha, Hitem. simpl.
  destruct (String.eqb_spec itemId ""); [contradiction|].
  unfold processUseItem. rewrite Hheal. run.
  unfold deductActionPoint, deductsAP. rewrite Ha. run.
  match goal with |- context [finishAction random ?r ?x] =>
    pose proof (CombatFacts.finishAction_frame random r x) as (Hk & Hpos & _);
    destruct (finishAction random r x) as [results s'] end.
  simpl in *. destruct Hk as (_ & Hinv & Hmax & _).
  rewrite Hinv. split; [reflexivity|]. split; [apply remove_first_length, Hin|].
  intros Hgt. destruct Hpos as (Hap' & Hhp & _); [lia|].
  rewrite Hhp, Hmax, Hap'. split; [|split; [apply Q.le_min_l|reflexivity]].
  apply Q.min_compat; [reflexivity|]. apply Qplus_comp; [reflexivity|].
  unfold medical_healingBonus.
  destruct (4 <=? skill_or_1 (skills (gameState s)) "Medical"); reflexivity.
Qed.

(** *** Hit points *)

Ltac keeps_walk leaf :=
  repeat (cbv zeta;
          match goal with
          | |- keeps _ (bind _ _) => apply CombatFacts.keeps_bind; [exact _| |intros ?]
          | |- keeps _ (ret _) => apply CombatFacts.keeps_ret; exact _
          | |- keeps _ get => apply CombatFacts.keeps_get; exact _
          | |- keeps _ (if ?b then _ else _) => destruct b
          | |- keeps _ (match ?x with Some _ => _ | None => _ end) => destruct x
          | |- keeps _ (when _ _) => unfold when
          | |- keeps _ (roll_if _ _ _) => unfold roll_if
          | |- keeps _ _ => leaf
          end).

Lemma update_target_Forall (P : Enemy -> Prop) (i : string) (f : Enemy -> Enemy)
    (es : list Enemy) :
  (forall e, P e -> P (f e)) -> Forall P es -> Forall P (update_target i f es).
Proof.
  intros Hf. induction 1 as [|e tl He Htl IH]; simpl; [constructor|].
  destruct (has_id i e); constructor; auto.
Qed.

#[local] Instance enemies_stand_preorder : PreOrder enemies_stand.
Proof.
  split.
  - intros s H. exact H.
  - intros s1 s2 s3 H12 H23 H. exact (H23 (H12 H)).
Qed.

Lemma processAttack_enemies_stand (targetId : string) :
  keeps enemies_stand (processAttack random targetId).
Proof.
  unfold processAttack.
  keeps_walk ltac:(solve [intros st Hst; unfold refundAP, modify_target; run;
                          first [ exact Hst
                                | apply update_target_Forall;
                                  [intros x Hx; simpl in *; lia | exact Hst] ]]).
Qed.

Lemma Forall_hp_map (es es' : list Enemy) :
  map e_hp es' = map e_hp es ->
  Forall (fun e => 0 <= e_hp e) es -> Forall (fun e => 0 <= e_hp e) es'.
Proof.
  intros Hmap H.
  apply (Forall_map e_hp (fun h => 0 <= h)). rewrite Hmap.
  apply (Forall_map e_hp (fun h => 0 <= h)). exact H.
Qed.

Lemma dispatch_hit_points (action : CombatAction) (s : Engine) :
  (0 <= maxHp (gameState s))%Q -> (0 <= hp (gameState s))%Q ->
  Forall (fun e => 0 <= e_hp e) (enemies (gameState s)) ->
  let s1 := snd (dispatch random action s) in
  (0 <= hp (gameState s1))%Q /\
  Forall (fun e => 0 <= e_hp e) (enemies (gameState s1)).
Proof.
  intros Hmax Hhp Hes. unfold dispatch. destruct (a_type action).
  - pose proof (CombatFacts.processAttack_frame random
                  (Js.str_or (a_targetId action) "") s) as H.
    unfold attack_frame in H.
    destruct H as (_ & _ & _ & _ & _ & _ & Hh & _).
    simpl. rewrite Hh. split; [exact Hhp|].
    apply (processAttack_enemies_stand (Js.str_or (a_targetId action) "") s Hes).
  - simpl. auto.
  - unfold processUseItem. destruct (isHealingItem _); simpl; [|auto].
    split; [|exact Hes]. apply Q.min_glb; [exact Hmax|].
    unfold medical_healingBonus.
    destruct (4 <=? skill_or_1 (skills (gameState s)) "Medical"); lra.
  - unfold processFlee. run. destruct (Js.Qltb _ _); simpl; auto.
  - simpl. split; [exact Hhp|].
    apply (Forall_hp_map (enemies (gameState s))); [|exact Hes].
    rewrite map_map. apply map_ext. intros e. unfold shift_range.
    destruct (is_closer _), (e_range e) as [[]|]; reflexivity.
Qed.

(** X9 -- hit points never go negative.  If the player's hp and maxHp
    and every enemy's hp are at least 0 before [processAction], the
    player's hp and every enemy's hp are at least 0 after it, whatever the
    action and the draws: damage is clamped at 0 on both sides. *)
Theorem hit_points_never_negative (action : CombatAction) (s : Engine) :
  (0 <= maxHp (gameState s))%Q -> (0 <= hp (gameState s))%Q ->
  Forall (fun e => 0 <= e_hp e) (enemies (gameState s)) ->
  let s' := snd (processAction random action s) in
  (0 <= hp (gameState s'))%Q /\
  Forall (fun e => 0 <= e_hp e) (enemies (gameState s')).
Proof.
  intros Hmax Hhp Hes. cbv zeta.
  destruct (isActionValid action s) eqn:Hv;
    [|rewrite (CombatFacts.processAction_rejected random _ _ Hv); auto].
  rewrite (CombatFacts.processAction_steps random _ _ Hv).
  pose proof (dispatch_hit_points action s Hmax Hhp Hes) as Hd.
  destruct (dispatch random action s) as [results s1]. simpl in Hd.
  destruct Hd as [Hhp1 Hes1].
  pose proof (CombatFacts.deductActionPoint_AP action results s1) as (_ & _ & Hh2 & _).
  pose proof (deduct_frame action results s1) as (_ & _ & _ & He2 & _).
  destruct (deductActionPoint action results s1) as [u s2]. simpl in Hh2, He2.
  rewrite <- Hh2 in Hhp1. rewrite <- He2 in Hes1. clear Hh2 He2.
  unfold finishAction, endTurnIfSpent, endPlayerTurn, appendLog. run.
  assert (Hend : forall x, (0 <= hp (gameState x))%Q ->
                   Forall (fun e => 0 <= e_hp e) (enemies (gameState x)) ->
                   let y := snd (checkCombatEnd x) in
                   (0 <= hp (gameState y))%Q /\
                   Forall (fun e => 0 <= e_hp e) (enemies (gameState y))).
  { intros x Hx Hex. pose proof (checkCombatEnd_spec x) as (_ & Hh & _ & _ & Hcase).
    simpl in *. rewrite Hh. split; [exact Hx|].
    destruct (Js.Qleb (hp (gameState x)) 0).
    - destruct Hcase as (_ & _ & ->). exact Hex.
    - destruct (length (List.filter alive (enemies (gameState x))) =? 0)%nat.
      + destruct Hcase as (_ & _ & ->). constructor.
      + destruct Hcase as (_ & _ & ->). exact Hex. }
  destruct (AP s2 <=? 0).
  - match goal with |- context [processEnemyTurn random ?x] =>
      pose proof (processEnemyTurn_more x) as HE;
      destruct (processEnemyTurn random x) as [er s3] end.
    simpl in HE. destruct HE as (_ & _ & _ & _ & _ & Hhps & _ & Hnn).
    specialize (Hend s3 (Hnn Hhp1) (Forall_hp_map _ _ Hhps Hes1)).
    destruct (checkCombatEnd s3) as [u3 s4]. simpl in *. exact Hend.
  - specialize (Hend s2 Hhp1 Hes1).
    destruct (checkCombatEnd s2) as [u3 s4]. simpl in *. exact Hend.
Qed.

(** *** The damage of the enemy turn *)

Lemma Qfloor_lb (n : Z) (x : Q) : (inject_Z n <= x)%Q -> n <= Qfloor x.
Proof.
  intros H. rewrite <- (Qfloor_Z n). apply Qfloor_resp_le. exact H.
Qed.

Lemma Qfloor_ub (n : Z) (x : Q) : (x < inject_Z n)%Q -> Qfloor x < n.
Proof.
  intros H. rewrite Zlt_Qlt. eapply Qle_lt_trans; [apply Qfloor_le|exact H].
Qed.

(** X10 -- how hard an enemy hits.  For a draw in [0, 1) an enemy deals
    between 6 and 18 damage to a player who does not defend and between 3
    and 8 to one who does; against the same draw, defending always lowers
    the damage.  The 18 is out of reach but for a draw within a billionth
    of 1, where the code's rounded factor can reach 1.2: every other draw
    deals 17 at most.  (The minimum of 1 that the code applies last is
    never needed.) *)
Theorem enemy_damage_bounds (enemyMaxHp : Z) (r : Q) :
  (0 <= r < 1)%Q ->
  6 <= enemyDamage enemyMaxHp false r <= 18 /\
  ((r <= 1 - (1 # 1000000000))%Q -> enemyDamage enemyMaxHp false r <= 17) /\
  3 <= enemyDamage enemyMaxHp true r <= 8 /\
  enemyDamage enemyMaxHp true r < enemyDamage enemyMaxHp false r.
Proof.
  intros [Hr0 Hr1]. unfold enemyDamage, defenseDamageReduction.
  destruct (50 <? enemyMaxHp).
  - change (Qfloor (inject_Z 15 * (1 - 0.5))) with 7.
    assert (12 <= Qfloor (inject_Z 15 * (0.8 + r * 0.4)) < 18).
    { split; [apply Qfloor_lb|apply Qfloor_ub];
        change (inject_Z 15) with 15%Q; [change (inject_Z 12) with 12%Q
                                        |change (inject_Z 18) with 18%Q]; lra. }
    assert (5 <= Qfloor (inject_Z 7 * (0.8 + r * 0.4)) < 9).
    { split; [apply Qfloor_lb|apply Qfloor_ub];
        change (inject_Z 7) with 7%Q; [change (inject_Z 5) with 5%Q
                                      |change (inject_Z 9) with 9%Q]; lra. }
    repeat split; intros; lia.
  - change (Qfloor (inject_Z 8 * (1 - 0.5))) with 4.
    assert (6 <= Qfloor (inject_Z 8 * (0.8 + r * 0.4)) < 10).
    { split; [apply Qfloor_lb|apply Qfloor_ub];
        change (inject_Z 8) with 8%Q; [change (inject_Z 6) with 6%Q
                                      |change (inject_Z 10) with 10%Q]; lra. }
    assert (3 <= Qfloor (inject_Z 4 * (0.8 + r * 0.4)) < 5).
    { split; [apply Qfloor_lb|apply Qfloor_ub];
        change (inject_Z 4) with 4%Q; [change (inject_Z 3) with 3%Q
                                      |change (inject_Z 5) with 5%Q]; lra. }
    repeat split; intros; lia.
Qed.

(** *** Starting a fight *)

Lemma z_id_inj : Inj (=) (=) (fun i : Z => ("z" ++ pretty i)%string).
Proof.
  intros i j H. simpl in H. injection H as H. apply (inj pretty). exact H.
Qed.

Lemma spawn_known (types : list string) :
  Forall (fun type => In type Spawn.zombieTypeNames) types ->
  forall index, exists es,
    spawn index types = Some es /\
    map e_id es
    = map (fun i : Z => ("z" ++ pretty i)%string)
          (seqZ (index + 1) (Z.of_nat (length types))) /\
    map e_name es = types /\
    Forall (fun e => e_hp e = e_maxHp e /\ 0 < e_hp e /\ e_status e = "Active" /\
                     e_range e = Some Near) es.
Proof.
  induction 1 as [|type tl Hin Htl IH]; intros index.
  - exists []. repeat split; constructor.
  - destruct (IH (index + 1)) as (rest & Hs & Hids & Hnames & Hall).
    assert (Hcfg : exists config, zombieTypes type = Some config /\
                     z_name config = type /\ z_hp config = z_maxHp config /\
                     0 < z_hp config).
    { simpl in Hin.
      destruct Hin as [<-|[<-|[<-|[<-|[<-|[]]]]]];
        (eexists; split; [reflexivity|]); repeat split. }
    destruct Hcfg as (config & Hc & Hn & Hh & Hpos).
    simpl. rewrite Hc, Hs. eexists. split; [reflexivity|].
    rewrite seqZ_cons by lia. simpl.
    replace (Z.succ (index + 1)) with (index + 1 + 1) by lia.
    replace (Z.pred (Z.of_nat (S (length tl)))) with (Z.of_nat (length tl)) by lia.
    rewrite Hids, Hnames, Hn. repeat split.
    constructor; [|exact Hall]. simpl. repeat split; auto.
Qed.

Lemma find_by_unique_id (es : list Enemy) (e : Enemy) :
  NoDup (map e_id es) -> In e es -> find (has_id (e_id e)) es = Some e.
Proof.
  induction es as [|x tl IH]; simpl; [contradiction|].
  intros Hnd Hin. apply NoDup_cons in Hnd as [Hx Hnd].
  unfold has_id at 1. destruct (String.eqb_spec (e_id x) (e_id e)) as [Heq|Hne].
  - destruct Hin as [->|Hin]; [reflexivity|].
    exfalso. apply Hx. rewrite Heq. apply list_elem_of_In, in_map, Hin.
  - destruct Hin as [->|Hin]; [contradiction|]. apply IH; assumption.
Qed.

(** X11 -- starting a fight.  For zombie types taken from the
    configuration table, [initiateCombat] returns a game state in the
    combat phase with 3 of 3 action points and one enemy per requested
    type, in order, at full health, Active and Near, with the ids z1, z2,
    ... which are pairwise distinct; the survivor's own fields are left
    alone.  An engine created on that state is in the player's turn and
    accepts an attack on each of the enemies, its target lookup by id
    finding that very enemy. *)
Theorem initiateCombat_lines_up_the_enemies (g : GameState) (types : list string)
    (isNight : bool) :
  Forall (fun type => In type Spawn.zombieTypeNames) types ->
  exists g',
    initiateCombat g types isNight = Some g' /\
    map e_name (enemies g') = types /\
    map e_id (enemies g')
    = map (fun i : Z => ("z" ++ pretty i)%string) (seqZ 1 (Z.of_nat (length types))) /\
    NoDup (map e_id (enemies g')) /\
    Forall (fun e => e_hp e = e_maxHp e /\ 0 < e_hp e /\ e_status e = "Active" /\
                     e_range e = Some Near) (enemies g') /\
    phase g' = combat /\ actionPoints g' = 3 /\ gs_maxActionPoints g' = 3 /\
    kit_kept g g' /\ hp g' = hp g /\
    forall e, In e (enemies g') ->
      find (has_id (e_id e)) (enemies g') = Some e /\
      isActionValid {| a_type := attack; a_targetId := Some (e_id e);
                       a_itemId := None; a_direction := None |}
                    (new_CombatEngine g') = true.
Proof.
  intros Hknown. destruct (spawn_known types Hknown 0) as (es & Hs & Hids & Hn & Hall).
  unfold initiateCombat. rewrite Hs. eexists. split; [reflexivity|]. simpl.
  assert (Hnd : NoDup (map e_id es)).
  { rewrite Hids. apply (NoDup_fmap_2 _). apply NoDup_seqZ. }
  repeat split; auto.
  - apply find_by_unique_id; assumption.
  - unfold isActionValid. simpl.
    assert (Hid : exists i : Z, e_id e = ("z" ++ pretty i)%string).
    { assert (Hin : In (e_id e) (map e_id es)) by (apply in_map; assumption).
      rewrite Hids in Hin. apply in_map_iff in Hin as (i & Hi & _). eauto. }
    destruct Hid as (i & Hi). rewrite Hi. simpl. rewrite <- Hi.
    rewrite (find_by_unique_id es e Hnd H).
    rewrite Forall_forall in Hall.
    destruct (Hall e) as (_ & Hpos & _); [apply list_elem_of_In; exact H|].
    destruct (Z.leb_spec (e_hp e) 0); [lia|reflexivity].
Qed.

(** *** The protocol's validator and the engine *)

Lemma in_step_processAction (action : CombatAction) (s : Engine) :
  in_step s -> in_step (snd (processAction random action s)).
Proof.
  intros [Hsync Hphase].
  destruct (isActionValid action s) eqn:Hv;
    [|rewrite (CombatFacts.processAction_rejected random _ _ Hv); split; assumption].
  destruct (CombatFacts.isActionValid_true _ _ Hv) as [Hturn _].
  rewrite Hturn in Hphase.
  pose proof (accepted_spec action s Hv) as (_ & Hout & Hs). cbv zeta in *.
  split; [apply Hs, Hsync|].
  destruct (c_phase (combatState (snd (processAction random action s))));
    try tauto.
  destruct Hout as (_ & -> & _). exact Hphase.
Qed.

Lemma in_step_play (actions : list CombatAction) : forall s,
  in_step s -> in_step (play random actions s).
Proof.
  induction actions as [|action rest IH]; intros s Hs; simpl; [exact Hs|].
  apply IH, in_step_processAction, Hs.
Qed.

(** X12 -- the protocol's validator predicts the engine.  Take an engine
    created on a game state in the combat phase and let it process any
    sequence of actions.  On the game state it then holds,
    [MessageValidator.validateAction] accepts an action exactly when the
    engine's own validity check accepts it: for every action while the
    fight goes on, and for every action but a flee once it has ended (the
    validator lets a flee through outside the combat phase, the engine
    rejects everything). *)
Theorem validateAction_predicts_the_engine (g : GameState)
    (actions : list CombatAction) (action : CombatAction) :
  phase g = combat ->
  let s := play random actions (new_CombatEngine g) in
  a_type action <> flee \/ c_phase (combatState s) = player_turn ->
  Protocol.valid (Protocol.validateAction action (gameState s))
  = isActionValid action s.
Proof.
  intros Hg s Hcase.
  assert (Hs : in_step s).
  { apply in_step_play. split; [reflexivity|exact Hg]. }
  destruct Hs as [Hsync Hphase].
  unfold Protocol.validateAction, isActionValid. rewrite Hsync.
  destruct (c_phase (combatState s)) eqn:Hc; try contradiction.
  - rewrite Hphase. simpl.
    destruct (AP s <? 1); [reflexivity|].
    destruct (a_type action); try reflexivity.
    + destruct (Js.truthy (a_targetId action)); simpl; [|reflexivity].
      destruct (find _ _) as [target|]; [|reflexivity].
      destruct (e_hp target <=? 0); reflexivity.
    + destruct (Js.truthy (a_itemId action)); simpl; [|reflexivity].
      destruct (Js.arr_includes _ _); reflexivity.
  - rewrite Hphase. destruct Hcase as [Hnf|]; [|discriminate].
    destruct (a_type action); try reflexivity. contradiction.
  - rewrite Hphase. destruct Hcase as [Hnf|]; [|discriminate].
    destruct (a_type action); try reflexivity. contradiction.
Qed.

End Facts.

(** *** Concrete fights *)

Import Sample.

Lemma ended_combat_rejects_every_action_witness :
  let s := snd (processAction (draws [0.1%Q]) (act flee None None)
                  (new_CombatEngine (survivor 1 [walker]))) in
  let actions := [act attack (Some "z1") None; act defend None None] in
  c_phase (combatState s) <> player_turn /\
  play (draws []) actions s = s /\
  Forall (fun action => processAction (draws []) action s = ([invalidResult], s)) actions.
Proof.
  intros s actions.
  assert (H : c_phase (combatState s) <> player_turn) by (vm_compute; discriminate).
  split; [exact H|].
  exact (ended_combat_rejects_every_action (draws []) actions s H).
Defined.

Lemma accepted_action_outcome_witness :
  let s := new_CombatEngine (survivor 1 [walker]) in
  let action := act defend None None in
  isActionValid action s = true /\
  let s' := snd (processAction (draws []) action s) in
  match c_phase (combatState s') with
  | defeat => (hp (gameState s') <= 0)%Q /\ phase (gameState s') = exploration
  | victory => (0 < hp (gameState s'))%Q /\ phase (gameState s') = exploration /\
               enemies (gameState s') = []
  | player_turn =>
    (0 < hp (gameState s'))%Q /\ phase (gameState s') = phase (gameState s) /\
    Exists (fun e => 0 < e_hp e) (enemies (gameState s')) /\ 1 <= playerActionPoints (combatState s')
  | enemy_turn | fled => False
  end.
Proof.
  intros s action.
  assert (H : isActionValid action s = true) by reflexivity.
  split; [exact H|].
  exact (accepted_action_outcome (draws []) action s H).
Defined.

Lemma healing_item_restores_hp_witness :
  let s := new_CombatEngine (survivor 1 [walker]) in
  let action := act use_item None (Some "Bandage") in
  let itemId := "Bandage" in
  In itemId (inventory (gameState s)) /\ isHealingItem itemId = true /\
  let heal := if 4 <=? skill_or_1 (skills (gameState s)) "Medical"
              then 37.5%Q else 25%Q in
  let s' := snd (processAction (draws []) action s) in
  inventory (gameState s') = Js.remove_first itemId (inventory (gameState s)) /\
  S (length (inventory (gameState s'))) = length (inventory (gameState s)) /\
  (1 < playerActionPoints (combatState s) ->
     (hp (gameState s') == Qmin (maxHp (gameState s)) (hp (gameState s) + heal))%Q /\
     (hp (gameState s') <= maxHp (gameState s'))%Q /\
     playerActionPoints (combatState s') = playerActionPoints (combatState s) - 1).
Proof.
  intros s action itemId.
  assert (Hin : In itemId (inventory (gameState s))) by (simpl; auto).
  assert (Hheal : isHealingItem itemId = true) by reflexivity.
  split; [exact Hin|]. split; [exact Hheal|].
  apply (healing_item_restores_hp (draws []) action s itemId);
    [reflexivity | reflexivity | discriminate | exact Hin | exact Hheal
    | reflexivity | vm_compute; discriminate].
Defined.

Lemma hit_points_never_negative_witness :
  let s := new_CombatEngine (survivor 1 [walker; tank]) in
  let action := act attack (Some "z1") None in
  Forall (fun e => 0 <= e_hp e) (enemies (gameState s)) /\
  let s' := snd (processAction (draws [0.1; 0.5; 0.5]%Q) action s) in
  (0 <= hp (gameState s'))%Q /\
  Forall (fun e => 0 <= e_hp e) (enemies (gameState s')).
Proof.
  intros s action.
  assert (H : Forall (fun e => 0 <= e_hp e) (enemies (gameState s)))
    by (repeat constructor; vm_compute; discriminate).
  split; [exact H|].
  apply (hit_points_never_negative (draws [0.1; 0.5; 0.5]%Q) action s);
    [vm_compute; discriminate | vm_compute; discriminate | exact H].
Defined.

Lemma enemy_damage_bounds_witness :
  let r := 0.75%Q in
  let enemyMaxHp := e_maxHp tank in
  (0 <= r < 1)%Q /\
  6 <= enemyDamage enemyMaxHp false r <= 18 /\
  ((r <= 1 - (1 # 1000000000))%Q -> enemyDamage enemyMaxHp false r <= 17) /\
  3 <= enemyDamage enemyMaxHp true r <= 8 /\
  enemyDamage enemyMaxHp true r < enemyDamage enemyMaxHp false r.
Proof.
  intros r enemyMaxHp.
  assert (H : (0 <= r < 1)%Q) by (split; vm_compute; [discriminate | reflexivity]).
  split; [exact H|].
  exact (enemy_damage_bounds enemyMaxHp r H).
Defined.

Lemma initiateCombat_lines_up_the_enemies_witness :
  let g := survivor 1 [] in
  let types := ["Walker"; "Tank"; "Walker"] in
  Forall (fun type => In type Spawn.zombieTypeNames) types /\
  exists g',
    initiateCombat g types false = Some g' /\
    map e_name (enemies g') = types /\
    map e_id (enemies g')
    = map (fun i : Z => ("z" ++ pretty i)%string) (seqZ 1 (Z.of_nat (length types))) /\
    NoDup (map e_id (enemies g')) /\
    Forall (fun e => e_hp e = e_maxHp e /\ 0 < e_hp e /\ e_status e = "Active" /\
                     e_range e = Some Near) (enemies g') /\
    phase g' = combat /\ actionPoints g' = 3 /\ gs_maxActionPoints g' = 3 /\
    kit_kept g g' /\ hp g' = hp g /\
    forall e, In e (enemies g') ->
      find (has_id (e_id e)) (enemies g') = Some e /\
      isActionValid {| a_type := attack; a_targetId := Some (e_id e);
                       a_itemId := None; a_direction := None |}
                    (new_CombatEngine g') = true.
Proof.
  intros g types.
  assert (H : Forall (fun type => In type Spawn.zombieTypeNames) types)
    by (repeat constructor; simpl; auto).
  split; [exact H|].
  exact (initiateCombat_lines_up_the_enemies g types false H).
Defined.

Lemma validateAction_predicts_the_engine_witness :
  let g := survivor 1 [walker] in
  let actions := [act defend None None] in
  let action := act attack (Some "z1") None in
  phase g = combat /\
  let s := play (draws []) actions (new_CombatEngine g) in
  Protocol.valid (Protocol.validateAction action (gameState s))
  = isActionValid action s.
Proof.
  intros g actions action.
  split; [reflexivity|].
  apply (validateAction_predicts_the_engine (draws []) g actions action);
    [reflexivity | left; discriminate].
Defined.

End EngineFacts.

(** ** peerGameProtocol.ts: the action queue and the sync throttle *)

Module ProtocolFacts.
Import Combat Protocol.

(** The pending id, when there is one, is a key of the queue. *)
Lemma call_keeps_pending_queued (c : QueueCall) (q : ActionQueue) :
  pending_is_queued q -> pending_is_queued (call c q).
Proof.
  intros Hq actionId. destruct c as [now i action|i|]; simpl.
  - destruct (negb (Js.truthy (pendingActionId q))).
    + intros [= <-]. rewrite lookup_insert_eq. eauto.
    + intros Hp. destruct (decide (i = actionId)) as [->|Hne].
      * rewrite lookup_insert_eq. eauto.
      * rewrite lookup_insert_ne by exact Hne. apply Hq, Hp.
  - destruct (decide (pendingActionId q = Some i)) as [Heq|Hne]; [discriminate|].
    intros Hp. rewrite lookup_delete_ne by congruence. apply Hq, Hp.
  - discriminate.
Qed.

Lemma calls_keep_pending_queued (cs : list QueueCall) : forall q,
  pending_is_queued q -> pending_is_queued (calls cs q).
Proof.
  unfold calls. induction cs as [|c rest IH]; intros q Hq; simpl; [exact Hq|].
  apply IH, call_keeps_pending_queued, Hq.
Qed.

(** X13 -- the pending action of a queue is always one of its entries.
    Through any sequence of [enqueue], [dequeue] and [clear] calls on a
    new queue, the pending id (when there is one) is a key of the map, so
    [getPending] returns the pending id with the action that was enqueued
    under it, and returns null only when there is no pending id (or the
    pending id is the empty string, which JavaScript takes for "none"). *)
Theorem pending_action_is_queued (cs : list QueueCall) :
  let q := calls cs new_ActionQueue in
  (forall actionId, pendingActionId q = Some actionId ->
     is_Some (queue q !! actionId)) /\
  (getPending q = None <-> Js.truthy (pendingActionId q) = false) /\
  (forall actionId action, getPending q = Some (actionId, action) ->
     pendingActionId q = Some actionId /\
     q_action <$> queue q !! actionId = Some action).
Proof.
  intros q.
  assert (Hq : pending_is_queued q).
  { apply calls_keep_pending_queued. intros i. discriminate. }
  split; [exact Hq|]. unfold getPending. split.
  - destruct (pendingActionId q) as [i|] eqn:Hp; simpl; [|tauto].
    destruct (String.eqb_spec i "") as [->|Hne]; simpl; [tauto|].
    destruct (Hq i Hp) as [entry ->]. split; discriminate.
  - intros actionId action.
    destruct (pendingActionId q) as [i|] eqn:Hp; simpl; [|discriminate].
    destruct (String.eqb_spec i "") as [->|Hne]; simpl; [discriminate|].
    destruct (queue q !! i) as [entry|] eqn:Hl; [|discriminate].
    intros [= <- <-]. rewrite Hl. auto.
Qed.

(** X14 -- acknowledging the pending action does not promote the next
    one.  When the pending action is dequeued while another action is
    still queued, that other action stays in the map but [getPending]
    answers null; it is not made pending by a later [enqueue] either,
    which makes the newly enqueued id pending instead. *)
Theorem dequeue_leaves_no_pending_action (q : ActionQueue) (actionId other : string)
    (entry : QueueEntry) :
  pendingActionId q = Some actionId ->
  other <> actionId ->
  queue q !! other = Some entry ->
  let q' := dequeue actionId q in
  queue q' !! other = Some entry /\
  getPending q' = None /\
  forall now next action, next <> "" ->
    pendingActionId (enqueue now next action q') = Some next.
Proof.
  intros Hp Hne Hl. unfold dequeue, getPending, enqueue. simpl.
  destruct (decide (pendingActionId q = Some actionId)); [|contradiction].
  simpl. rewrite lookup_delete_ne by congruence. auto.
Qed.

(** *** The sync throttle *)

Lemma granted_after_last (polls : list (bool * Z)) : forall m,
  Forall (fun t => lastSyncTimestamp m + syncIntervalMs <= t) (granted polls m).
Proof.
  induction polls as [|[forceSync now] rest IH]; intros m; simpl; [constructor|].
  unfold shouldSync. destruct forceSync; simpl; [apply IH|].
  destruct (Z.leb_spec syncIntervalMs (now - lastSyncTimestamp m)) as [Hle|Hgt]; simpl.
  - constructor; [lia|].
    eapply Forall_impl; [apply IH|]. simpl. unfold syncIntervalMs in *. intros t. lia.
  - apply IH.
Qed.

(** X15 -- unforced syncs are at least 500 ms apart.  In any sequence of
    [shouldSync] calls, forced or not, at any clock readings, two
    consecutive unforced calls that were answered [true] have readings at
    least [syncIntervalMs] apart; a forced call is always answered [true]
    and does not restart the interval. *)
Theorem unforced_syncs_are_spaced (polls : list (bool * Z)) (m : StateSyncManager) :
  Sorted (fun earlier later => earlier + syncIntervalMs <= later) (granted polls m) /\
  (forall now, shouldSync true now m = (true, m)).
Proof.
  split; [|reflexivity]. revert m.
  induction polls as [|[forceSync now] rest IH]; intros m; simpl; [constructor|].
  unfold shouldSync. destruct forceSync; simpl; [apply IH|].
  destruct (syncIntervalMs <=? now - lastSyncTimestamp m); simpl; [|apply IH].
  constructor; [apply IH|].
  pose proof (granted_after_last rest {| lastSyncTimestamp := now |}) as H.
  destruct (granted rest _); constructor. inversion H; subst. assumption.
Qed.

(** *** A concrete queue *)

Lemma dequeue_leaves_no_pending_action_witness :
  let action := Sample.act defend None None in
  let q := enqueue 20 "a2" action (enqueue 10 "a1" action new_ActionQueue) in
  let entry := {| q_action := action; q_timestamp := 20 |} in
  pendingActionId q = Some "a1" /\ queue q !! "a2" = Some entry /\
  let q' := dequeue "a1" q in
  queue q' !! "a2" = Some entry /\
  getPending q' = None /\
  forall now next action, next <> "" ->
    pendingActionId (enqueue now next action q') = Some next.
Proof.
  intros action q entry.
  assert (Hp : pendingActionId q = Some "a1") by reflexivity.
  assert (Hq : queue q !! "a2" = Some entry) by (vm_compute; reflexivity).
  split; [exact Hp|]. split; [exact Hq|].
  apply (dequeue_leaves_no_pending_action q "a1" "a2" entry);
    [exact Hp | discriminate | exact Hq].
Defined.

End ProtocolFacts.

(** ** rotjsIntegration.ts: searches on the map *)

Module NavFacts.
Import World Nav.

(** *** The nearest passable tile *)

Lemma ring_spec (radius dx dy : Z) :
  0 <= radius ->
  (dx, dy) ∈ ring radius <-> Z.max (Z.abs dx) (Z.abs dy) = radius.
Proof.
  intros Hr. unfold ring. rewrite list_elem_of_bind. split.
  - intros (dx' & Hin & Hdx). apply list_elem_of_bind in Hin as (dy' & Hin & Hdy).
    apply elem_of_seqZ in Hdx, Hdy.
    destruct (Z.eqb_spec (Z.abs dx') radius), (Z.eqb_spec (Z.abs dy') radius);
      simpl in Hin; try (apply elem_of_nil in Hin; contradiction);
      apply list_elem_of_singleton in Hin; injection Hin as -> ->; lia.
  - intros Hmax. exists dx. split; [|apply elem_of_seqZ; lia].
    apply list_elem_of_bind. exists dy. split; [|apply elem_of_seqZ; lia].
    destruct (Z.eqb_spec (Z.abs dx) radius), (Z.eqb_spec (Z.abs dy) radius);
      simpl; try (apply list_elem_of_singleton; reflexivity); lia.
Qed.

Lemma in_bounds_tileAt (world : WorldMap) (x y : Z) :
  well_formed world ->
  in_bounds world x y = true <-> is_Some (tileAt (tiles world) x y).
Proof.
  intros (Hw & Hh & Hlen & Hrows). unfold in_bounds, tileAt, at_index.
  rewrite !andb_true_iff, !Z.leb_le, !Z.ltb_lt. split.
  - intros (((Hx & Hy) & Hxw) & Hyh).
    destruct (Z.ltb_spec y 0); [lia|].
    destruct (tiles world !! Z.to_nat y) as [row|] eqn:Hrow.
    + destruct (Z.ltb_spec x 0); [lia|].
      rewrite Forall_forall in Hrows.
      assert (Hl : length row = Z.to_nat (width world)).
      { apply Hrows. eapply list_elem_of_lookup_2, Hrow. }
      apply lookup_lt_is_Some. lia.
    + apply lookup_ge_None in Hrow. lia.
  - intros [t Ht].
    destruct (Z.ltb_spec y 0); [discriminate|].
    destruct (tiles world !! Z.to_nat y) as [row|] eqn:Hrow; [|discriminate].
    destruct (Z.ltb_spec x 0); [discriminate|].
    rewrite Forall_forall in Hrows.
    assert (Hl : length row = Z.to_nat (width world)).
    { apply Hrows. eapply list_elem_of_lookup_2, Hrow. }
    apply lookup_lt_Some in Hrow, Ht. lia.
Qed.

Lemma firstPassable_find (world : WorldMap) (x y : Z) (offs : list (Z * Z)) :
  well_formed world ->
  firstPassable world x y offs
  = Some ((fun d => {| pos_x := x + fst d; pos_y := y + snd d |})
            <$> List.find (good world x y) offs).
Proof.
  intros Hwf. induction offs as [|[dx dy] rest IH]; simpl; [reflexivity|].
  unfold good at 1. simpl.
  destruct (in_bounds world (x + dx) (y + dy)) eqn:Hb; simpl; [|exact IH].
  apply (in_bounds_tileAt _ _ _ Hwf) in Hb as [tile ->].
  destruct (passable (t_type tile)); [reflexivity|exact IH].
Qed.

Lemma find_app_ {A} (f : A -> bool) (l1 l2 : list A) :
  List.find f (l1 ++ l2)%list
  = match List.find f l1 with Some a => Some a | None => List.find f l2 end.
Proof.
  induction l1 as [|a tl IH]; simpl; [reflexivity|].
  destruct (f a); [reflexivity|exact IH].
Qed.

Lemma offsets_succ (n : nat) :
  offsets (Z.of_nat n)
  = ((radius ← seqZ 0 (Z.of_nat n); ring radius) ++ ring (Z.of_nat n))%list.
Proof.
  unfold offsets. rewrite seqZ_app by lia. rewrite bind_app. f_equal.
  rewrite Z.add_0_l, seqZ_cons by lia.
  change (seqZ (Z.succ (Z.of_nat n)) (Z.pred 1)) with (@nil Z).
  cbn. apply app_nil_r.
Qed.

Lemma prefix_succ (n : nat) :
  (radius ← seqZ 0 (Z.of_nat (S n)); ring radius)
  = offsets (Z.of_nat n).
Proof.
  unfold offsets. f_equal. f_equal. lia.
Qed.

(** The first good offset found in the rings of radius below [n] is one
    of least radius; when none is found, no good offset has a radius
    below [n]. *)
Lemma rings_spec (world : WorldMap) (x y : Z) (n : nat) :
  match List.find (good world x y) (radius ← seqZ 0 (Z.of_nat n); ring radius) with
  | Some d =>
    good world x y d = true /\ Z.max (Z.abs (fst d)) (Z.abs (snd d)) < Z.of_nat n /\
    forall d', good world x y d' = true ->
      Z.max (Z.abs (fst d)) (Z.abs (snd d)) <= Z.max (Z.abs (fst d')) (Z.abs (snd d'))
  | None =>
    forall d', good world x y d' = true ->
      Z.of_nat n <= Z.max (Z.abs (fst d')) (Z.abs (snd d'))
  end.
Proof.
  induction n as [|n IH].
  - simpl. intros d' _. lia.
  - rewrite prefix_succ, offsets_succ, find_app_.
    destruct (List.find (good world x y) (radius ← seqZ 0 (Z.of_nat n); ring radius))
      as [d|].
    + destruct IH as (Hg & Hlt & Hmin). split; [exact Hg|]. split; [lia|exact Hmin].
    + destruct (List.find (good world x y) (ring (Z.of_nat n))) as [d|] eqn:Hfind.
      * apply find_some in Hfind as [Hin Hg].
        apply list_elem_of_In in Hin. destruct d as [dx dy].
        apply ring_spec in Hin; [|lia]. simpl.
        split; [exact Hg|]. split; [lia|]. intros d' Hg'. specialize (IH d' Hg'). lia.
      * intros d' Hg'. specialize (IH d' Hg').
        destruct (Z.eq_dec (Z.max (Z.abs (fst d')) (Z.abs (snd d'))) (Z.of_nat n))
          as [Heq|Hne]; [|lia].
        exfalso. destruct d' as [dx dy]. simpl in *.
        apply ring_spec in Heq; [|lia]. apply list_elem_of_In in Heq.
        rewrite (find_none _ _ Hfind _ Heq) in Hg'. discriminate.
Qed.

(** X16 -- [findNearestPassable] on a well-formed world.  The search
    never fails; when it returns a position, that position is a tile of
    the world that is neither wall nor water, at most 10 steps away in
    the larger coordinate difference, and no such tile of the world is
    nearer in that distance; when it returns null, every walkable tile is
    more than 10 away.  In particular a position that is itself walkable
    is returned as it is. *)
Theorem findNearestPassable_is_nearest (world : WorldMap) (position : Position) :
  well_formed world ->
  exists answer,
    findNearestPassable world position = Some answer /\
    (forall x y tile,
       tileAt (tiles world) x y = Some tile -> passable (t_type tile) = true ->
       match answer with
       | Some found =>
         chebyshev position found <= chebyshev position {| pos_x := x; pos_y := y |}
       | None => 10 < chebyshev position {| pos_x := x; pos_y := y |}
       end) /\
    (forall found, answer = Some found ->
       chebyshev position found <= 10 /\
       exists tile, tileAt (tiles world) (pos_x found) (pos_y found) = Some tile /\
                    passable (t_type tile) = true) /\
    (forall tile,
       tileAt (tiles world) (pos_x position) (pos_y position) = Some tile ->
       passable (t_type tile) = true -> answer = Some position).
Proof.
  intros Hwf. destruct position as [px py]. unfold findNearestPassable.
  cbn [pos_x pos_y].
  rewrite (firstPassable_find _ _ _ _ Hwf). eexists. split; [reflexivity|].
  pose proof (rings_spec world px py 11) as Hspec.
  rewrite (prefix_succ 10) in Hspec. change (Z.of_nat 10) with 10 in Hspec.
  change (Z.of_nat 11) with 11 in Hspec.
  assert (Hgood : forall x y tile,
            tileAt (tiles world) x y = Some tile -> passable (t_type tile) = true ->
            good world px py (x - px, y - py) = true).
  { intros x y tile Ht Hp. unfold good. cbn [fst snd].
    replace (px + (x - px)) with x by lia. replace (py + (y - py)) with y by lia.
    rewrite Ht, Hp, andb_true_r. apply (in_bounds_tileAt _ _ _ Hwf). eauto. }
  unfold chebyshev. cbn [pos_x pos_y].
  destruct (List.find (good world px py) (offsets 10)) as [[dx dy]|];
    cbn [fmap option_fmap option_map fst snd pos_x pos_y] in *.
  - destruct Hspec as (Hg & Hlt & Hmin). split; [|split].
    + intros x y tile Ht Hp. specialize (Hmin _ (Hgood x y tile Ht Hp)).
      cbn [fst snd] in Hmin. lia.
    + intros found [= <-]. cbn [pos_x pos_y]. split; [lia|].
      unfold good in Hg. cbn [fst snd] in Hg. apply andb_true_iff in Hg as [_ Hg].
      destruct (tileAt (tiles world) (px + dx) (py + dy)) as [tile|]; [|discriminate].
      eauto.
    + intros tile Ht Hp. specialize (Hmin _ (Hgood px py tile Ht Hp)).
      cbn [fst snd] in Hmin. f_equal. f_equal; lia.
  - split; [|split].
    + intros x y tile Ht Hp. specialize (Hspec _ (Hgood x y tile Ht Hp)).
      cbn [fst snd] in Hspec. lia.
    + discriminate.
    + intros tile Ht Hp. specialize (Hspec _ (Hgood px py tile Ht Hp)).
      cbn [fst snd] in Hspec. lia.
Qed.

(** *** Random positions *)

Section Random.
Context (R : Rot).
Hypothesis Hranged : ranged R.

Lemma drawn_tile (world : WorldMap) (s : rng R) :
  well_formed world -> 1 <= width world -> 1 <= height world ->
  let '(x, s1) := getUniformInt R 0 (width world - 1) s in
  let '(y, s2) := getUniformInt R 0 (height world - 1) s1 in
  in_bounds world x y = true /\ is_Some (tileAt (tiles world) x y).
Proof.
  intros Hwf Hw Hh.
  pose proof (Hranged 0 (width world - 1) s ltac:(lia)) as Hx.
  destruct (getUniformInt R 0 (width world - 1) s) as [x s1].
  pose proof (Hranged 0 (height world - 1) s1 ltac:(lia)) as Hy.
  destruct (getUniformInt R 0 (height world - 1) s1) as [y s2].
  simpl in *.
  assert (Hb : in_bounds world x y = true).
  { unfold in_bounds. rewrite !andb_true_iff, !Z.leb_le, !Z.ltb_lt. lia. }
  split; [exact Hb|]. apply (in_bounds_tileAt _ _ _ Hwf). exact Hb.
Qed.



(** X18 -- the starting position.  On a well-formed world with at least
    one column and one row, [getRandomPassablePosition] raises no error
    and returns a position inside the world; the tile there is neither
    wall nor water, unless all 100 draws failed and the position is the
    centre of the map, whatever tile lies there. *)
Theorem random_position_is_inside (world : WorldMap) (s : rng R) :
  well_formed world -> 1 <= width world -> 1 <= height world ->
  exists p,
    fst (getRandomPassablePosition R world s) = Some p /\
    in_bounds world (pos_x p) (pos_y p) = true /\
    ((exists tile, tileAt (tiles world) (pos_x p) (pos_y p) = Some tile /\
                   passable (t_type tile) = true)
     \/ p = centre world).
Proof.
  intros Hwf Hw Hh. unfold getRandomPassablePosition. generalize 100%nat. intros n.
  revert s. induction n as [|n IH]; intros s; simpl.
  - exists (centre world). split; [reflexivity|]. split; [|auto].
    unfold in_bounds, centre. simpl. rewrite !andb_true_iff, !Z.leb_le, !Z.ltb_lt.
    pose proof (Z.div_pos (width world) 2). pose proof (Z.div_pos (height world) 2).
    pose proof (Z.div_lt (width world) 2). pose proof (Z.div_lt (height world) 2). lia.
  - pose proof (drawn_tile world s Hwf Hw Hh) as Hd.
    destruct (getUniformInt R 0 (width world - 1) s) as [x s1].
    destruct (getUniformInt R 0 (height world - 1) s1) as [y s2].
    destruct Hd as [Hb [tile Ht]]. rewrite Ht.
    destruct (passable (t_type tile)) eqn:Hp; [|apply IH].
    simpl. eexists. split; [reflexivity|]. simpl. split; [exact Hb|]. eauto.
Qed.

(** *** Shuffling *)

Lemma replace_Permutation {A} (l : list A) (j : nat) (a b : A) :
  l !! j = Some b -> Permutation (b :: <[j := a]> l) (a :: l).
Proof.
  revert j. induction l as [|y tl IH]; intros [|j]; simpl; try discriminate.
  - intros [= ->]. apply perm_swap.
  - intros Hj. etransitivity; [apply perm_swap|].
    etransitivity; [apply perm_skip, (IH _ Hj)|]. apply perm_swap.
Qed.

Lemma swap_Permutation {A} (l : list A) : forall (i j : nat) (xi xj : A),
  l !! i = Some xi -> l !! j = Some xj ->
  Permutation (<[j := xi]> (<[i := xj]> l)) l.
Proof.
  induction l as [|y tl IH]; intros [|i] [|j] xi xj; simpl; try discriminate.
  - intros [= ->] [= ->]. reflexivity.
  - intros [= ->] Hj. apply (replace_Permutation _ _ _ _ Hj).
  - intros Hi [= ->]. apply (replace_Permutation _ _ _ _ Hi).
  - intros Hi Hj. apply perm_skip, IH; assumption.
Qed.

Lemma swap_in_range {A} (l : list A) (i j : nat) :
  (i < length l)%nat -> (j < length l)%nat ->
  exists l', swap (Z.of_nat i) (Z.of_nat j) {| elems := Some <$> l; props := ∅ |}
             = {| elems := Some <$> l'; props := ∅ |} /\
             Permutation l' l.
Proof.
  intros Hi Hj.
  destruct (lookup_lt_is_Some_2 l i Hi) as [xi Hxi].
  destruct (lookup_lt_is_Some_2 l j Hj) as [xj Hxj].
  exists (<[j := xi]> (<[i := xj]> l)). split; [|apply swap_Permutation; assumption].
  unfold swap, read, write. simpl.
  destruct (Z.ltb_spec (Z.of_nat i) 0); [lia|].
  destruct (Z.ltb_spec (Z.of_nat j) 0); [lia|].
  rewrite !Nat2Z.id, !list_lookup_fmap, Hxi, Hxj. simpl.
  rewrite length_fmap.
  destruct (Z.ltb_spec (Z.of_nat i) (Z.of_nat (length l))); [|lia]. simpl.
  rewrite length_insert, length_fmap.
  destruct (Z.ltb_spec (Z.of_nat j) (Z.of_nat (length l))); [|lia].
  rewrite !list_fmap_insert. reflexivity.
Qed.

Lemma shuffleLoop_spec {A} (array : list A) : forall (i : nat) (l : list A) (s : rng R),
  (i < length l)%nat -> Permutation l array ->
  exists l', fst (shuffleLoop R i {| elems := Some <$> l; props := ∅ |} s)
             = {| elems := Some <$> l'; props := ∅ |} /\
             Permutation l' array.
Proof.
  induction i as [|i IH]; intros l s Hi Hperm; simpl; [eauto|].
  pose proof (Hranged 0 (Z.of_nat (S i)) s ltac:(lia)) as Hj.
  destruct (getUniformInt R 0 (Z.of_nat (S i)) s) as [j s']. simpl in Hj.
  destruct (swap_in_range l (S i) (Z.to_nat j) Hi ltac:(lia)) as (l' & Hswap & Hp).
  rewrite Z2Nat.id in Hswap by lia. rewrite Hswap.
  apply IH.
  - apply Permutation_length in Hp. lia.
  - etransitivity; eassumption.
Qed.

(** X19 -- [SeededRNG.shuffle] returns a permutation.  With a random
    generator that keeps [getUniformInt] within its bounds, the array
    returned for [array] holds exactly the elements of [array], each as
    often as [array] does, and no [undefined]; [array] itself is not
    written. *)
Theorem shuffle_is_a_permutation {A} (array : list A) (s : rng R) :
  exists l', fst (shuffle R array s) = Some <$> l' /\ Permutation l' array.
Proof.
  unfold shuffle. destruct array as [|x tl].
  - exists []. split; [reflexivity|constructor].
  - destruct (shuffleLoop_spec (x :: tl) (length (x :: tl) - 1) (x :: tl) s)
      as (l' & Hl & Hp); [simpl; lia|reflexivity|].
    destruct (shuffleLoop R _ _ s) as [copy s']. simpl in *.
    exists l'. rewrite Hl. auto.
Qed.

End Random.

(** *** Concrete searches *)

Lemma sample_ranged : ranged SampleRot.rot.
Proof.
  intros lo hi s Hle. cbn. unfold SampleRot.getUniformInt. cbn [fst].
  pose proof (Z.mod_pos_bound s (Z.max lo hi - Z.min lo hi + 1)). lia.
Defined.

Lemma pillar_well_formed : well_formed SampleRot.pillar.
Proof.
  unfold well_formed. split; [vm_compute; discriminate|].
  split; [vm_compute; discriminate|]. split; [reflexivity|].
  repeat constructor.
Defined.

Lemma findNearestPassable_is_nearest_witness :
  let world := SampleRot.pillar in
  let position := {| pos_x := 1; pos_y := 1 |} in
  well_formed world /\
  exists answer,
    findNearestPassable world position = Some answer /\
    (forall x y tile,
       tileAt (tiles world) x y = Some tile -> passable (t_type tile) = true ->
       match answer with
       | Some found =>
         chebyshev position found <= chebyshev position {| pos_x := x; pos_y := y |}
       | None => 10 < chebyshev position {| pos_x := x; pos_y := y |}
       end) /\
    (forall found, answer = Some found ->
       chebyshev position found <= 10 /\
       exists tile, tileAt (tiles world) (pos_x found) (pos_y found) = Some tile /\
                    passable (t_type tile) = true) /\
    (forall tile,
       tileAt (tiles world) (pos_x position) (pos_y position) = Some tile ->
       passable (t_type tile) = true -> answer = Some position).
Proof.
  intros world position.
  split; [exact pillar_well_formed|].
  exact (findNearestPassable_is_nearest world position pillar_well_formed).
Defined.


Lemma random_position_is_inside_witness :
  let world := SampleRot.pillar in
  ranged SampleRot.rot /\ well_formed world /\
  exists p,
    fst (getRandomPassablePosition SampleRot.rot world 7) = Some p /\
    in_bounds world (pos_x p) (pos_y p) = true /\
    ((exists tile, tileAt (tiles world) (pos_x p) (pos_y p) = Some tile /\
                   passable (t_type tile) = true)
     \/ p = centre world).
Proof.
  intros world.
  split; [exact sample_ranged|]. split; [exact pillar_well_formed|].
  apply (random_position_is_inside SampleRot.rot sample_ranged world 7);
    [exact pillar_well_formed | vm_compute; discriminate | vm_compute; discriminate].
Defined.

Lemma shuffle_is_a_permutation_witness :
  ranged SampleRot.rot /\
  exists l', fst (shuffle SampleRot.rot ["a"; "b"; "c"; "d"] 7) = Some <$> l' /\
             Permutation l' ["a"; "b"; "c"; "d"].
Proof.
  split; [exact sample_ranged|].
  exact (shuffle_is_a_permutation SampleRot.rot sample_ranged ["a"; "b"; "c"; "d"] 7).
Defined.

End NavFacts.

(** ** worldStateManager.ts *)

Module ManagerFacts.
Import World Nav Manager.

Section Facts.
Context (R : Rot).

(** *** What [calculateFOV] does to the tiles *)

Lemma fold_see_types (visited : list (Z * Z)) : forall (acc : gset (Z * Z) * Grid) x y,
  t_type <$> tileAt (snd (fold_left see visited acc)) x y
  = t_type <$> tileAt (snd acc) x y.
Proof.
  induction visited as [|[vx vy] rest IH]; intros acc x y; simpl; [reflexivity|].
  rewrite IH. simpl. rewrite WorldFacts.tileAt_updTileIfPresent.
  destruct (tileAt (snd acc) x y) as [t|]; [|reflexivity].
  simpl. destruct ((x =? vx) && (y =? vy)); reflexivity.
Qed.

Lemma fold_see_flagged (visited : list (Z * Z)) : forall (acc : gset (Z * Z) * Grid),
  (forall x y tile, (x, y) ∈ fst acc -> tileAt (snd acc) x y = Some tile ->
     visible tile = true /\ explored tile = true) ->
  forall x y tile,
    (x, y) ∈ fst (fold_left see visited acc) ->
    tileAt (snd (fold_left see visited acc)) x y = Some tile ->
    visible tile = true /\ explored tile = true.
Proof.
  induction visited as [|[vx vy] rest IH]; intros acc Hacc; simpl; [exact Hacc|].
  apply IH. simpl. intros x y tile Hin. rewrite WorldFacts.tileAt_updTileIfPresent.
  destruct (tileAt (snd acc) x y) as [t|] eqn:Ht; [|discriminate].
  destruct ((x =? vx) && (y =? vy)) eqn:E; intros [= <-].
  - split; reflexivity.
  - apply (Hacc x y t); [|exact Ht].
    apply elem_of_union in Hin as [Hin|Hin]; [|exact Hin].
    apply elem_of_singleton in Hin. injection Hin as -> ->.
    rewrite !Z.eqb_refl in E. discriminate.
Qed.

Lemma calculateFOV_spec (w : WorldMap) (x y r : Z) :
  let out := calculateFOV R w x y r in
  width (snd out) = width w /\ height (snd out) = height w /\
  (forall x' y', t_type <$> tileAt (tiles (snd out)) x' y'
                 = t_type <$> tileAt (tiles w) x' y') /\
  (forall x' y' tile, (x', y') ∈ fst out -> tileAt (tiles (snd out)) x' y' = Some tile ->
     visible tile = true /\ explored tile = true).
Proof.
  unfold calculateFOV.
  pose proof (fold_see_types (fov_compute R (lightPasses w) x y r) (∅, tiles w)) as Ht.
  pose proof (fold_see_flagged (fov_compute R (lightPasses w) x y r) (∅, tiles w)) as Hf.
  destruct (fold_left see _ _) as [vis g]. simpl in *.
  repeat split; auto; apply (Hf ltac:(intros ? ? ? Hin; apply elem_of_empty in Hin as []) _ _ _ H H0).
Qed.

(** *** Moving *)

(** X20 -- [movePlayer].  A move that is refused (no world, a target
    outside the declared bounds, a missing tile, a wall or water) returns
    false and leaves the manager exactly as it was.  A move that is
    accepted puts the player on the requested position, which lies inside
    the bounds on a tile that is neither wall nor water; the map keeps its
    size and its tile types, the vision radius and the level are
    untouched.  On a well-formed world the call raises no error. *)
Theorem movePlayer_spec (newPosition : Position) (m : WorldStateManager) :
  match movePlayer R newPosition m with
  | Some (false, m') => m' = m
  | Some (true, m') =>
    playerPosition (worldState m') = newPosition /\
    visionRadius m' = visionRadius m /\
    currentLevel (worldState m') = currentLevel (worldState m) /\
    exists w w' tile,
      world (worldState m) = Some w /\ world (worldState m') = Some w' /\
      in_bounds w (pos_x newPosition) (pos_y newPosition) = true /\
      tileAt (tiles w') (pos_x newPosition) (pos_y newPosition) = Some tile /\
      passable (t_type tile) = true /\
      width w' = width w /\ height w' = height w /\
      forall x y, t_type <$> tileAt (tiles w') x y = t_type <$> tileAt (tiles w) x y
  | None => forall w, world (worldState m) = Some w -> ~ well_formed w
  end.
Proof.
  unfold movePlayer. destruct (world (worldState m)) as [w|] eqn:Hw; [|reflexivity].
  destruct (_ || _) eqn:Hout; [reflexivity|].
  apply orb_false_iff in Hout as [Hout Hh]. apply orb_false_iff in Hout as [Hout Hwd].
  apply orb_false_iff in Hout as [Hx Hy].
  apply Z.ltb_ge in Hx, Hy. apply Z.leb_gt in Hwd, Hh.
  destruct (at_index (tiles w) (pos_y newPosition)) as [row|] eqn:Hrow.
  - destruct (at_index row (pos_x newPosition)) as [tile|] eqn:Htile; [|reflexivity].
    destruct (passable (t_type tile)) eqn:Hp; [|reflexivity]. simpl.
    unfold updateFOV. simpl. rewrite ?Hw.
    pose proof (calculateFOV_spec w (pos_x newPosition) (pos_y newPosition)
                  (visionRadius m)) as (Ewd & Eh & Ety & _).
    destruct (calculateFOV R w _ _ _) as [vis w'] eqn:Hfov. simpl in *.
    repeat split.
    assert (Ht : tileAt (tiles w) (pos_x newPosition) (pos_y newPosition) = Some tile).
    { unfold tileAt. rewrite Hrow. exact Htile. }
    specialize (Ety (pos_x newPosition) (pos_y newPosition)) as Ety'.
    rewrite Ht in Ety'. simpl in Ety'.
    destruct (tileAt (tiles w') _ _) as [tile'|] eqn:Ht'; [|discriminate].
    injection Ety' as Ety'.
    exists w, w', tile'. repeat split; auto; [|congruence].
    unfold in_bounds. rewrite !andb_true_iff, !Z.leb_le, !Z.ltb_lt. lia.
  - intros w0 [= <-] (_ & _ & Hlen & _).
    unfold at_index in Hrow. destruct (Z.ltb_spec (pos_y newPosition) 0); [lia|].
    apply lookup_ge_None in Hrow. lia.
Qed.

(** *** Sessions *)

Lemma updateFOV_sound (m : WorldStateManager) :
  1 <= visionRadius m <= 20 ->
  0 <= currentLevel (worldState m) <= 1 ->
  match world (worldState m) with Some w => reachable R w | None => True end ->
  sound R (updateFOV R m) /\
  currentLevel (worldState (updateFOV R m)) = currentLevel (worldState m) /\
  visionRadius (updateFOV R m) = visionRadius m.
Proof.
  intros Hr Hl Hw. unfold updateFOV, sound.
  destruct (world (worldState m)) as [w|] eqn:E.
  - pose proof (calculateFOV_spec w (pos_x (playerPosition (worldState m)))
                  (pos_y (playerPosition (worldState m))) (visionRadius m))
      as (_ & _ & _ & Hflag).
    pose proof (reach_calculateFOV R w (pos_x (playerPosition (worldState m)))
                  (pos_y (playerPosition (worldState m))) (visionRadius m) Hw) as Hreach.
    destruct (calculateFOV R w _ _ _) as [vis w']. simpl in *. auto.
  - rewrite E. auto.
Qed.

Lemma sound_pre (m : WorldStateManager) :
  sound R m ->
  1 <= visionRadius m <= 20 /\ 0 <= currentLevel (worldState m) <= 1 /\
  match world (worldState m) with Some w => reachable R w | None => True end.
Proof.
  intros (Hr & Hl & Hw). split; [exact Hr|]. split; [exact Hl|].
  destruct (world (worldState m)); [apply Hw|exact I].
Qed.

Lemma initializeWorld_sound (width height : Z) (seed : option string) (type : LevelType)
    (env env' : Env R) (m m' : WorldStateManager) :
  0 <= width -> 0 <= height -> 1 <= visionRadius m <= 20 ->
  initializeWorld R width height seed type env m = (Some m', env') ->
  sound R m' /\ currentLevel (worldState m') = 1 /\
  exists w, world (worldState m') = Some w /\
            World.width w = width /\ World.height w = height.
Proof.
  intros Hw Hh Hr. unfold initializeWorld.
  destruct (generate R width height seed type env) as [[w|] env1] eqn:Hgen;
    [|discriminate].
  destruct (getRandomPassablePosition R w (rngState env1)) as [[start|] s];
    [|discriminate].
  intros [= <- _].
  assert (Hreach : reachable R w).
  { eapply reach_generate; [exact Hw|exact Hh|]. rewrite Hgen. reflexivity. }
  match goal with |- context [updateFOV R ?x] =>
    pose proof (updateFOV_sound x) as Hs end.
  simpl in Hs. destruct (Hs Hr ltac:(lia) Hreach) as (Hsound & Hlevel & _).
  split; [exact Hsound|]. split; [exact Hlevel|].
  destruct (WorldFacts.generate_shape R width height seed type env w) as (Ew & Eh & _);
    [rewrite Hgen; reflexivity|].
  unfold updateFOV. simpl.
  pose proof (calculateFOV_spec w (pos_x start) (pos_y start) (visionRadius m))
    as (Ewd & Ehd & _).
  destruct (calculateFOV R w _ _ _) as [vis w']. simpl in *.
  exists w'. repeat split; congruence.
Qed.

Lemma perform_sound (c : Call) (env env' : Env R) (m m' : WorldStateManager) :
  sized c -> sound R m -> perform R c env m = (Some m', env') -> sound R m'.
Proof.
  intros Hc Hs. destruct (sound_pre m Hs) as (Hr & Hl & Hw).
  destruct c as [width height seed type|p|d| |radius|]; simpl.
  - destruct Hc as [Hwd Hh]. intros H.
    apply (initializeWorld_sound _ _ _ _ _ _ _ _ Hwd Hh Hr H).
  - unfold movePlayer.
    destruct (world (worldState m)) as [w|] eqn:E; [|intros [= <- _]; exact Hs].
    destruct (_ || _); [intros [= <- _]; exact Hs|].
    destruct (at_index (tiles w) (pos_y p)) as [row|]; [|discriminate].
    destruct (at_index row (pos_x p)) as [tile|]; [|intros [= <- _]; exact Hs].
    destruct (negb (passable (t_type tile))); [intros [= <- _]; exact Hs|].
    simpl. intros [= <- _].
    match goal with |- context [updateFOV R ?x] =>
      pose proof (updateFOV_sound x) as Hu end.
    simpl in Hu. rewrite ?E in Hu. apply Hu; assumption.
  - unfold movePlayerDirection, movePlayer.
    destruct (world (worldState m)) as [w|] eqn:E; [|intros [= <- _]; exact Hs].
    destruct (_ || _); [intros [= <- _]; exact Hs|].
    destruct (at_index (tiles w) _) as [row|]; [|discriminate].
    destruct (at_index row _) as [tile|]; [|intros [= <- _]; exact Hs].
    destruct (negb (passable (t_type tile))); [intros [= <- _]; exact Hs|].
    simpl. intros [= <- _].
    match goal with |- context [updateFOV R ?x] =>
      pose proof (updateFOV_sound x) as Hu end.
    simpl in Hu. rewrite ?E in Hu. apply Hu; assumption.
  - intros [= <- _]. apply updateFOV_sound; assumption.
  - intros [= <- _]. unfold setVisionRadius.
    match goal with |- context [updateFOV R ?x] =>
      pose proof (updateFOV_sound x) as Hu end.
    simpl in Hu. apply Hu; [lia|assumption|assumption].
  - unfold generateNextLevel. intros H.
    apply initializeWorld_sound in H; [apply H| | |exact Hr].
    + pose proof (Z.div_pos (currentLevel (worldState m) + 1) 2). lia.
    + pose proof (Z.div_pos (currentLevel (worldState m) + 1) 2). lia.
Qed.

Lemma session_sound (cs : list Call) : forall env env' m m',
  Forall sized cs -> sound R m -> session R cs env m = (Some m', env') -> sound R m'.
Proof.
  induction cs as [|c rest IH]; intros env env' m m' Hcs Hs; simpl.
  - intros [= <- _]. exact Hs.
  - apply Forall_cons in Hcs as [Hc Hrest].
    destruct (perform R c env m) as [[m1|] env1] eqn:Hp; [|discriminate].
    apply IH; [exact Hrest|]. eapply perform_sound; eassumption.
Qed.

(** X21 -- what holds of a world manager through a whole session.  Start
    from a new manager and make any calls of [initializeWorld] (with sizes
    that are not negative), [movePlayer], [movePlayerDirection],
    [updateFOV], [setVisionRadius] and [generateNextLevel] that raise no
    error.  Then the vision radius lies between 1 and 20, and if the
    manager holds a world, that world has as many rows and columns as it
    declares, every tile flagged visible is flagged explored, and every
    position of the visible set that is a tile of the world is flagged
    both visible and explored. *)
Theorem session_keeps_the_map_consistent (cs : list Call) (env env' : Env R)
    (m' : WorldStateManager) :
  Forall sized cs ->
  session R cs env new_WorldStateManager = (Some m', env') ->
  1 <= visionRadius m' <= 20 /\
  match world (worldState m') with
  | None => True
  | Some w =>
    well_formed w /\ visible_explored (tiles w) /\
    forall x y tile, (x, y) ∈ visibleTiles (worldState m') ->
      tileAt (tiles w) x y = Some tile ->
      visible tile = true /\ explored tile = true
  end.
Proof.
  intros Hcs Hrun.
  assert (Hnew : sound R new_WorldStateManager).
  { unfold sound. simpl. repeat split; lia. }
  destruct (session_sound cs env env' _ m' Hcs Hnew Hrun) as (Hr & _ & Hw).
  split; [exact Hr|].
  destruct (world (worldState m')) as [w|]; [|exact I].
  destruct Hw as [Hreach Hflag].
  destruct (WorldFacts.reachable_invariant R w Hreach) as [Hwf Hinv]. auto.
Qed.

(** X22 -- the level counter never passes 1.  [generateNextLevel]
    computes the next level from the counter, but [initializeWorld], which
    it ends with, sets the counter back to 1.  So a successful call leaves
    [currentLevel] at 1, and a second successful call generates a world of
    45 by 35 tiles and leaves [currentLevel] at 1 again. *)
Theorem next_level_is_always_level_one (env env' : Env R) (m m' : WorldStateManager) :
  1 <= visionRadius m <= 20 -> 0 <= currentLevel (worldState m) ->
  generateNextLevel R env m = (Some m', env') ->
  currentLevel (worldState m') = 1 /\
  forall env'' m'', generateNextLevel R env' m' = (Some m'', env'') ->
    currentLevel (worldState m'') = 1 /\
    exists w, world (worldState m'') = Some w /\ width w = 45 /\ height w = 35.
Proof.
  intros Hr Hl H. unfold generateNextLevel in H.
  pose proof (Z.div_pos (currentLevel (worldState m) + 1) 2) as Hdiv.
  apply initializeWorld_sound in H as (Hs & Hlevel & _); [| lia | lia | exact Hr].
  split; [exact Hlevel|]. intros env'' m'' H2. unfold generateNextLevel in H2.
  rewrite Hlevel in H2. change ((1 + 1) / 2 * 5) with 5 in H2.
  apply initializeWorld_sound in H2 as (_ & Hlevel2 & w & Hw & Ewd & Eh);
    [| lia | lia | apply Hs].
  split; [exact Hlevel2|]. exists w. auto.
Qed.

End Facts.

(** *** A concrete session *)

Lemma session_keeps_the_map_consistent_witness :
  let cs := [InitializeWorld 5 4 (Some "7") dungeon; SetVisionRadius 3;
             MovePlayerDirection south; UpdateFOV] in
  let out := session SampleRot.rot cs (Build_Env SampleRot.rot 0 0) new_WorldStateManager in
  Forall sized cs /\
  exists m' env', out = (Some m', env') /\
    1 <= visionRadius m' <= 20 /\
    match world (worldState m') with
    | None => True
    | Some w =>
      well_formed w /\ visible_explored (tiles w) /\
      forall x y tile, (x, y) ∈ visibleTiles (worldState m') ->
        tileAt (tiles w) x y = Some tile ->
        visible tile = true /\ explored tile = true
    end.
Proof.
  intros cs out.
  assert (Hs : Forall sized cs) by (repeat constructor; lia).
  split; [exact Hs|].
  assert (Hr : visionRadius <$> fst out = Some 3) by (vm_compute; reflexivity).
  subst out.
  destruct (session SampleRot.rot cs (Build_Env SampleRot.rot 0 0) new_WorldStateManager)
    as [[m'|] env'] eqn:E; [|discriminate Hr].
  exists m', env'. split; [reflexivity|].
  exact (session_keeps_the_map_consistent SampleRot.rot cs
           (Build_Env SampleRot.rot 0 0) env' m' Hs E).
Defined.

Lemma next_level_is_always_level_one_witness :
  let m := new_WorldStateManager in
  let out := generateNextLevel SampleRot.rot (Build_Env SampleRot.rot 0 0) m in
  1 <= visionRadius m <= 20 /\ 0 <= currentLevel (worldState m) /\
  exists m' env', out = (Some m', env') /\
    currentLevel (worldState m') = 1 /\
    forall env'' m'', generateNextLevel SampleRot.rot env' m' = (Some m'', env'') ->
      currentLevel (worldState m'') = 1 /\
      exists w, world (worldState m'') = Some w /\ width w = 45 /\ height w = 35.
Proof.
  intros m out.
  assert (Hv : 1 <= visionRadius m <= 20) by (vm_compute; split; discriminate).
  assert (Hl : 0 <= currentLevel (worldState m)) by (vm_compute; discriminate).
  split; [exact Hv|]. split; [exact Hl|].
  assert (Hr : visionRadius <$> fst out = Some 8) by (vm_compute; reflexivity).
  subst out.
  destruct (generateNextLevel SampleRot.rot (Build_Env SampleRot.rot 0 0) m)
    as [[m'|] env'] eqn:E; [|discriminate Hr].
  exists m', env'. split; [reflexivity|].
  exact (next_level_is_always_level_one SampleRot.rot
           (Build_Env SampleRot.rot 0 0) env' m m' Hv Hl E).
Defined.

End ManagerFacts.

(** ** explorationSystem.ts *)

Module ExploreFacts.
Import Balance Combat Spawn Explore.

(** X23 -- the chance of an encounter per step is capped at 80 per cent;
    for a difficulty that is not negative it is at least 10 per cent; it
    does not fall when the difficulty grows, and it is never lower in the
    evening or at night than at the same place by day. *)
Theorem encounter_chance_is_capped (difficulty : Z) (time : string)
    (tileType : World.TileType) :
  (calculateEncounterChance difficulty time tileType <= 0.8)%Q /\
  (0 <= difficulty -> (0.1 <= calculateEncounterChance difficulty time tileType)%Q) /\
  (forall deeper, difficulty <= deeper ->
     (calculateEncounterChance difficulty time tileType
      <= calculateEncounterChance deeper time tileType)%Q) /\
  (0 <= difficulty ->
   (calculateEncounterChance difficulty "Noon" tileType
    <= calculateEncounterChance difficulty "Night" tileType)%Q).
Proof.
  unfold calculateEncounterChance, encounterBaseChance, encounterNightMultiplier.
  split; [apply Q.le_min_r|].
  assert (Hinj : forall a b : Z, a <= b -> (inject_Z a <= inject_Z b)%Q)
    by (intros a b H; rewrite <- Zle_Qle; exact H).
  split; [|split].
  - intros Hd. apply Hinj in Hd. change (inject_Z 0) with 0%Q in Hd.
    apply Q.min_glb; [|lra].
    destruct tileType, (isNightTime time); nra.
  - intros deeper Hd. apply Hinj in Hd.
    apply Q.min_le_compat_r.
    destruct tileType, (isNightTime time); nra.
  - intros Hd. apply Hinj in Hd. change (inject_Z 0) with 0%Q in Hd.
    change (isNightTime "Noon") with false. change (isNightTime "Night") with true.
    apply Q.min_le_compat_r. destruct tileType; nra.
Qed.

(** X24 -- resting.  Without a unit of supplies [handleRest] changes
    nothing.  With one, it spends exactly one unit and sets the hp to
    [min(hp + 20, maxHp)]: at most 20 points are restored and the result
    never exceeds [maxHp]. *)
Theorem rest_restores_up_to_twenty (gameState : GameState) :
  match handleRest gameState with
  | None => supplies gameState < 1
  | Some (hp', supplies') =>
    1 <= supplies gameState /\ supplies' = supplies gameState - 1 /\
    (hp' == Qmin (hp gameState + 20) (maxHp gameState))%Q /\
    (hp' <= maxHp gameState)%Q /\ (hp' <= hp gameState + 20)%Q
  end.
Proof.
  unfold handleRest. destruct (Z.ltb_spec (supplies gameState) 1) as [Hlt|Hge];
    [exact Hlt|].
  split; [exact Hge|]. split; [reflexivity|].
  set (h := hp gameState). set (M := maxHp gameState).
  assert (E : (Qmin (h + Qmin 20 (M - h)) M == Qmin (h + 20) M)%Q).
  { destruct (Qlt_le_dec (M - h) 20) as [Hlt|Hle].
    - rewrite (Q.min_r 20 (M - h)) by lra.
      rewrite (Q.min_r (h + 20) M) by lra.
      rewrite Q.min_r by lra. reflexivity.
    - rewrite (Q.min_l 20 (M - h)) by lra. reflexivity. }
  split; [exact E|]. split; [apply Q.le_min_r|].
  rewrite E. apply Q.le_min_l.
Qed.

Lemma zombie_count_range (locationType : LocationType) (isNight : bool) (r : Q) :
  1 <= calculateZombieSpawnCount locationType isNight r <= 4.
Proof.
  unfold calculateZombieSpawnCount.
  destruct locationType, isNight, (Js.Qltb 0.5 r); simpl; lia.
Qed.

Section Draws.
Variable random : nat -> Q.

Lemma spawnEnemies_spec (isNight : bool) (left : nat) : forall i drawn,
  exists enemies,
    spawnEnemies random isNight left i drawn = Some enemies /\
    map e_id enemies
    = map (fun k : Z => ("z" ++ pretty k)%string) (seqZ (i + 1) (Z.of_nat left)) /\
    Forall (fun e => In (e_name e) zombieTypeNames /\
                     zombieTypes (e_name e) <> None /\
                     e_hp e = e_maxHp e /\ 0 < e_hp e /\
                     e_status e = "Active" /\ e_range e = Some Near) enemies.
Proof.
  induction left as [|left IH]; intros i drawn.
  - exists []. repeat split; constructor.
  - destruct (IH (i + 1) (S drawn)) as (rest & Hs & Hids & Hall).
    pose proof (BalanceFacts.selectZombieType_In isNight (random drawn)) as Hin.
    assert (Hcfg : exists config,
              zombieTypes (selectZombieType isNight (random drawn)) = Some config /\
              In (z_name config) zombieTypeNames /\
              zombieTypes (z_name config) <> None /\
              z_hp config = z_maxHp config /\ 0 < z_hp config).
    { destruct Hin as [<-|[<-|[<-|[<-|[<-|[]]]]]];
        (eexists; split; [reflexivity|]); simpl; repeat split; auto 10; discriminate. }
    destruct Hcfg as (config & Hc & Hn & Hk & Hh & Hpos).
    simpl. rewrite Hc, Hs. eexists. split; [reflexivity|].
    rewrite seqZ_cons by lia. simpl.
    replace (Z.succ (i + 1)) with (i + 1 + 1) by lia.
    replace (Z.pred (Z.of_nat (S left))) with (Z.of_nat left) by lia.
    rewrite Hids. split; [reflexivity|].
    constructor; [|exact Hall]. simpl. repeat split; auto.
Qed.

(** X25 -- an encounter is always well formed.  Whatever the draws, the
    time of day and the tile under the player, [generateEncounter] raises
    no error and starts a combat with 3 of 3 action points against
    between 1 and 4 enemies; each enemy is of one of the five configured
    types, at full health, Active and Near, and the ids are z1, z2, ...,
    pairwise distinct. *)
Theorem encounter_is_well_formed (time : string) (currentTile : option World.Tile)
    (drawn : nat) :
  exists encounter,
    generateEncounter random time currentTile drawn = Some encounter /\
    en_phase encounter = combat /\
    en_actionPoints encounter = 3 /\ en_maxActionPoints encounter = 3 /\
    (1 <= length (en_enemies encounter) <= 4)%nat /\
    map e_id (en_enemies encounter)
    = map (fun k : Z => ("z" ++ pretty k)%string)
          (seqZ 1 (Z.of_nat (length (en_enemies encounter)))) /\
    NoDup (map e_id (en_enemies encounter)) /\
    Forall (fun e => In (e_name e) zombieTypeNames /\
                     zombieTypes (e_name e) <> None /\
                     e_hp e = e_maxHp e /\ 0 < e_hp e /\
                     e_status e = "Active" /\ e_range e = Some Near)
           (en_enemies encounter).
Proof.
  unfold generateEncounter.
  pose proof (zombie_count_range
                (getLocationTypeFromTile currentTile) (isNightTime time) (random drawn))
    as Hcount.
  set (n := calculateZombieSpawnCount _ _ _) in *.
  destruct (spawnEnemies_spec (isNightTime time) (Z.to_nat n) 0 (S drawn))
    as (enemies & Hs & Hids & Hall).
  rewrite Hs. eexists. split; [reflexivity|]. simpl.
  assert (Hlen : length enemies = Z.to_nat n).
  { rewrite <- (length_map e_id), Hids, length_map, length_seqZ. lia. }
  rewrite Hlen. repeat split; try lia; auto.
  rewrite Hids. apply (NoDup_fmap_2 _). apply NoDup_seqZ.
Qed.

End Draws.

End ExploreFacts.

(** ** components/MapView.tsx *)

Module ViewFacts.
Import World View.

(** X26 -- the viewport lies on the map and holds the player.  For a
    world whose width and height are not negative, the columns and rows
    the map view draws start at 0 or later and end at the width and the
    height or earlier; a player standing inside the world stands inside
    the viewport. *)
Theorem viewport_holds_the_player (showMinimap : bool) (world : WorldMap)
    (playerPosition : Position) :
  0 <= width world -> 0 <= height world ->
  let x0 := startX showMinimap world playerPosition in
  let y0 := startY showMinimap world playerPosition in
  let w := viewportWidth showMinimap (width world) in
  let h := viewportHeight showMinimap (height world) in
  0 <= x0 /\ x0 + w <= width world /\ 0 <= y0 /\ y0 + h <= height world /\
  (0 <= pos_x playerPosition < width world -> x0 <= pos_x playerPosition < x0 + w) /\
  (0 <= pos_y playerPosition < height world -> y0 <= pos_y playerPosition < y0 + h).
Proof.
  intros Hw Hh. unfold startX, startY, viewportWidth, viewportHeight.
  assert (Hhalf : forall v, 0 <= v -> 0 <= v / 2 /\ (1 <= v -> v / 2 < v)).
  { intros v Hv. split; [apply Z.div_pos; lia|]. intros H1. apply Z.div_lt; lia. }
  destruct showMinimap; cbv zeta.
  - pose proof (Hhalf (Z.min (width world) 20) ltac:(lia)) as [Hx0 Hx1].
    pose proof (Hhalf (Z.min (height world) 15) ltac:(lia)) as [Hy0 Hy1].
    revert Hx0 Hx1 Hy0 Hy1.
    generalize (Z.min (width world) 20 / 2), (Z.min (height world) 15 / 2).
    intros qx qy Hx0 Hx1 Hy0 Hy1. repeat split; intros; lia.
  - pose proof (Hhalf (Z.min (width world) 40) ltac:(lia)) as [Hx0 Hx1].
    pose proof (Hhalf (Z.min (height world) 30) ltac:(lia)) as [Hy0 Hy1].
    revert Hx0 Hx1 Hy0 Hy1.
    generalize (Z.min (width world) 40 / 2), (Z.min (height world) 30 / 2).
    intros qx qy Hx0 Hx1 Hy0 Hy1. repeat split; intros; lia.
Qed.

(** X27 -- the fog of war hides enemies and unexplored ground.  For a
    cell outside the visible set, the colour of the cell does not depend
    on the enemies (it is the colour drawn with no enemy at all), and the
    cell shows neither an enemy nor a resource marker; if moreover the
    tile is unexplored and the player does not stand on it, the cell has
    the colour of a cell outside the map, whatever the tile is. *)
Theorem fog_hides_enemies (world : WorldMap) (playerPosition : Position)
    (visibleTiles : gset (Z * Z)) (enemies : list Marker) (x y : Z) :
  (x, y) ∉ visibleTiles ->
  getTileColor world playerPosition visibleTiles enemies x y
  = getTileColor world playerPosition visibleTiles [] x y /\
  getTileContent world playerPosition visibleTiles enemies x y <> Skull /\
  getTileContent world playerPosition visibleTiles enemies x y <> Dot /\
  (forall tile, tileAt (tiles world) x y = Some tile -> explored tile = false ->
     (x, y) <> (pos_x playerPosition, pos_y playerPosition) ->
     getTileColor world playerPosition visibleTiles enemies x y = "bg-slate-950").
Proof.
  intros Hv. unfold getTileColor, getTileContent.
  rewrite (bool_decide_eq_false_2 _ Hv).
  destruct (tileAt (tiles world) x y) as [tile|]; [|repeat split; discriminate].
  rewrite !andb_false_r. simpl.
  destruct ((x =? pos_x playerPosition) && (y =? pos_y playerPosition)) eqn:E.
  - repeat split; try discriminate.
    intros t _ _ Hne. exfalso. apply Hne.
    apply andb_true_iff in E as [Ex Ey]. apply Z.eqb_eq in Ex, Ey. congruence.
  - repeat split; try discriminate.
    intros t [= <-] ->. reflexivity.
Qed.

(** *** A concrete view *)

Lemma viewport_holds_the_player_witness :
  let world := SampleRot.pillar in
  let playerPosition := SampleRot.east in
  let showMinimap := false in
  0 <= width world /\ 0 <= height world /\
  let x0 := startX showMinimap world playerPosition in
  let y0 := startY showMinimap world playerPosition in
  let w := viewportWidth showMinimap (width world) in
  let h := viewportHeight showMinimap (height world) in
  0 <= x0 /\ x0 + w <= width world /\ 0 <= y0 /\ y0 + h <= height world /\
  (0 <= pos_x playerPosition < width world -> x0 <= pos_x playerPosition < x0 + w) /\
  (0 <= pos_y playerPosition < height world -> y0 <= pos_y playerPosition < y0 + h).
Proof.
  intros world playerPosition showMinimap.
  assert (Hw : 0 <= width world) by (vm_compute; discriminate).
  assert (Hh : 0 <= height world) by (vm_compute; discriminate).
  split; [exact Hw|]. split; [exact Hh|].
  exact (viewport_holds_the_player showMinimap world playerPosition Hw Hh).
Defined.

Lemma fog_hides_enemies_witness :
  let world := SampleRot.pillar in
  let playerPosition := SampleRot.west in
  let visibleTiles : gset (Z * Z) := {[ (0, 1); (0, 0) ]} in
  let enemies := [{| mk_id := "z1"; mk_position := SampleRot.east;
                     mk_name := "Walker"; mk_hp := 30 |}] in
  let x := 2 in
  let y := 1 in
  ((x, y) ∉ visibleTiles) /\
  getTileColor world playerPosition visibleTiles enemies x y
  = getTileColor world playerPosition visibleTiles [] x y /\
  getTileContent world playerPosition visibleTiles enemies x y <> Skull /\
  getTileContent world playerPosition visibleTiles enemies x y <> Dot /\
  (forall tile, tileAt (tiles world) x y = Some tile -> explored tile = false ->
     (x, y) <> (pos_x playerPosition, pos_y playerPosition) ->
     getTileColor world playerPosition visibleTiles enemies x y = "bg-slate-950").
Proof.
  intros world playerPosition visibleTiles enemies x y.
  assert (Hfog : (x, y) ∉ visibleTiles).
  { subst visibleTiles x y. intros Hin.
    apply elem_of_union in Hin as [Hin|Hin]; apply elem_of_singleton in Hin;
      discriminate Hin. }
  split; [exact Hfog|].
  exact (fog_hides_enemies world playerPosition visibleTiles enemies x y Hfog).
Defined.

End ViewFacts.

(** ** components/GameScreen.tsx: from the client to the engine and back *)

Module ClientFacts.
Import Combat Host Client.

(** X28 -- an action typed on a client reaches the host's engine
    verbatim, and the host's answer unlocks the client.  A client that is
    not waiting sends a non-blank text as one ACTION packet, asks no
    engine itself and starts waiting, its messages and game state
    untouched.  The host's listener hands that very text to the engine,
    appends it as a user message and sends one STATE_SYNC with the new
    message list.  When the client receives that packet it shows the
    host's messages and game state and stops waiting. *)
Theorem client_action_round_trip (client host : GameConfig) (now now' : Z)
    (customAction : option string) (c h : Screen) :
  isClient client = true -> isHost host = true ->
  s_isProcessing c = false -> connOpen c = true -> connOpen h = true ->
  let actionText := Js.str_or customAction (s_input c) in
  blank actionText = false ->
  let (c1, sent) := handleSend client now customAction c in
  sent = [Sent (ACTION actionText)] /\
  s_isProcessing c1 = true /\ s_input c1 = "" /\
  s_messages c1 = s_messages c /\ s_gameState c1 = s_gameState c /\
  let (h1, effects) := hostOnData host now' (Typed (ACTION actionText)) h in
  exists userMsg,
    text userMsg = actionText /\ role userMsg = user /\
    s_messages h1 = (s_messages h ++ [userMsg])%list /\
    effects = [Sent (STATE_SYNC (s_gameState h1) (s_messages h1));
               AskEngine actionText] /\
    let c2 := clientOnData (STATE_SYNC (s_gameState h1) (s_messages h1)) c1 in
    s_messages c2 = s_messages h1 /\ s_gameState c2 = s_gameState h1 /\
    s_isProcessing c2 = false.
Proof.
  intros Hc Hh Hp Hco Hho actionText Hb.
  unfold handleSend. fold actionText. rewrite Hb, Hp, Hc. simpl.
  unfold send. rewrite Hco. repeat split.
  unfold hostOnData. simpl.
  assert (Hne : actionText <> "").
  { intros E. rewrite E in Hb. discriminate. }
  destruct actionText as [|a rest] eqn:Et; [contradiction|].
  unfold Host.handleSend. simpl Js.str_or. rewrite Hb. simpl.
  unfold broadcast. rewrite Hh. simpl. unfold send. simpl. rewrite Hho.
  eexists. repeat split; reflexivity.
Qed.

(** *** A concrete exchange *)

Lemma client_action_round_trip_witness :
  let client := {| isMultiplayer := true; cfg_isHost := false |} in
  let host := Sample.hosting in
  let customAction := Some "search the shelves" in
  let c := Sample.screen in
  let h := Sample.screen in
  let actionText := Js.str_or customAction (s_input c) in
  blank actionText = false /\
  let (c1, sent) := handleSend client 100 customAction c in
  sent = [Sent (ACTION actionText)] /\
  s_isProcessing c1 = true /\ s_input c1 = "" /\
  s_messages c1 = s_messages c /\ s_gameState c1 = s_gameState c /\
  let (h1, effects) := hostOnData host 200 (Typed (ACTION actionText)) h in
  exists userMsg,
    text userMsg = actionText /\ role userMsg = user /\
    s_messages h1 = (s_messages h ++ [userMsg])%list /\
    effects = [Sent (STATE_SYNC (s_gameState h1) (s_messages h1));
               AskEngine actionText] /\
    let c2 := clientOnData (STATE_SYNC (s_gameState h1) (s_messages h1)) c1 in
    s_messages c2 = s_messages h1 /\ s_gameState c2 = s_gameState h1 /\
    s_isProcessing c2 = false.
Proof.
  intros client host customAction c h actionText.
  split; [reflexivity|].
  apply (client_action_round_trip client host 100 200 customAction c h); reflexivity.
Defined.

End ClientFacts.

(** ** The zombie AI *)

Module AiFacts.
Import Combat World Nav Spawn Ai.

Section Facts.
Context (R : Rot).
Variable random : nat -> Q.

Lemma store_store (zombieId : string) (a b : ZombieAIState) (ai : ZombieAI) :
  store zombieId a (store zombieId b ai) = store zombieId a ai.
Proof.
  unfold store. cbn. f_equal. apply insert_insert_eq.
Qed.

Lemma stunned_turns (k : nat) (zombie : Enemy) (zombieId : string)
    (p : Position) (ai : ZombieAI) (drawn : nat) (a : ZombieAIState) :
  aiStates ai !! zombieId = Some a ->
  Z.of_nat k <= stunDuration a ->
  turns R random k zombie zombieId p ai drawn =
    Some (repeat {| ai_type := act_wait; targetPosition := None; ai_damage := None;
                    description := (e_name zombie ++ " is stunned and recovering")%string |} k,
          (if k is O then ai
           else store zombieId (set_stunDuration (stunDuration a - Z.of_nat k) a) ai),
          drawn).
Proof.
  revert ai a. induction k as [|k IH]; intros ai a Ha Hk; [reflexivity|].
  cbn [turns]. unfold calculateAction. rewrite Ha.
  change (default _ (Some a)) with a.
  destruct (Z.ltb_spec 0 (stunDuration a)) as [_|Hn]; [|lia].
  rewrite (IH _ (set_stunDuration (stunDuration a - 1) a)).
  - cbn [repeat]. do 2 f_equal. f_equal.
    destruct k.
    + reflexivity.
    + rewrite store_store. f_equal. unfold set_stunDuration. cbn [stunDuration position lastKnownPlayerPosition aggroLevel state screamCooldown]. f_equal. lia.
  - unfold store. cbn. apply lookup_insert_eq.
  - cbn. lia.
Qed.

(** X29 -- a stun lasts as long as it says.  After [stunZombie] with a
    duration of [n] turns on a zombie the AI knows, the next [n] calls of
    [calculateAction] all answer with the same waiting action, draw no
    random number, and leave the zombie where it was with its scream
    cooldown untouched and the stun used up. *)
Theorem stunned_zombie_waits (n : nat) (zombie : Enemy) (zombieId : string)
    (p : Position) (ai : ZombieAI) (drawn : nat) (a : ZombieAIState) :
  aiStates ai !! zombieId = Some a ->
  turns R random n zombie zombieId p (stunZombie zombieId (Z.of_nat n) ai) drawn =
    Some (repeat {| ai_type := act_wait; targetPosition := None; ai_damage := None;
                    description := (e_name zombie ++ " is stunned and recovering")%string |} n,
          store zombieId (set_state stunned (set_stunDuration 0 a)) ai,
          drawn).
Proof.
  intros Ha. unfold stunZombie. rewrite Ha.
  rewrite (stunned_turns n _ _ _ _ _ (set_state stunned (set_stunDuration (Z.of_nat n) a))).
  - do 2 f_equal. f_equal. destruct n; [reflexivity|].
    rewrite store_store. f_equal. unfold set_state, set_stunDuration. cbn.
    f_equal. lia.
  - unfold store. cbn. apply lookup_insert_eq.
  - cbn. lia.
Qed.

Lemma known_config (name : string) :
  In name zombieTypeNames -> exists config, zombieTypes name = Some config.
Proof.
  intros Hin. simpl in Hin.
  destruct Hin as [<-|[<-|[<-|[<-|[<-|[]]]]]]; eexists; reflexivity.
Qed.

Lemma calculateAction_returns (zombie : Enemy) (zombieId : string) (p : Position)
    (ai : ZombieAI) (drawn : nat) :
  In (e_name zombie) zombieTypeNames ->
  exists action ai' drawn',
    calculateAction R random zombie zombieId p ai drawn = Some (action, ai', drawn') /\
    drawn' = (drawn + if is_attack action then 1 else 0)%nat.
Proof.
  intros Hname. unfold calculateAction.
  set (a0 := default _ _).
  destruct (0 <? stunDuration a0).
  { eexists _, _, _. split; [reflexivity|]. cbn. lia. }
  cbv zeta.
  set (a1 := if 0 <? screamCooldown a0 then _ else _).
  set (a2 := match ai_world ai with Some _ => _ | None => _ end).
  unfold decideAction.
  destruct (calculateDistance zombie <=? 1).
  { destruct (known_config _ Hname) as [config ->].
    eexists _, _, _. split; [reflexivity|]. cbn. lia. }
  destruct (_ && _ && _).
  { eexists _, _, _. split; [reflexivity|]. cbn. lia. }
  destruct (_ && _).
  { eexists _, _, _. split; [reflexivity|]. cbn. lia. }
  destruct (lastKnownPlayerPosition a2), (ai_world ai) as [w|];
    try (eexists _, _, _; split; [reflexivity|]; cbn; lia).
  destruct (findPath R w (position a2) p);
    eexists _, _, _; (split; [reflexivity|]); cbn; lia.
Qed.

Lemma updateEnemyRange_same_body (e : Enemy) (p : Position) (ai : ZombieAI) :
  same_body e (updateEnemyRange e p ai).
Proof.
  unfold updateEnemyRange. destruct (aiStates ai !! e_id e); repeat split.
Qed.

(** X30 -- a round of zombie turns only reports.  On a well-formed
    world, when every enemy is of a configured type,
    [processZombieTurns] returns one action for each
    enemy that is alive, in order; it leaves every enemy's id, name, hit
    points and status as they were, and the dead enemies entirely; each
    living enemy's intent becomes the label of its action; and one random
    number is drawn for each attack, none for anything else. *)
Theorem zombie_turns_only_report (enemies : list Enemy) (p : Position)
    (ai : ZombieAI) (drawn : nat) :
  world_ok ai ->
  Forall (fun e => In (e_name e) zombieTypeNames) enemies ->
  exists actions enemies' ai' drawn',
    processZombieTurns R random enemies p ai drawn = Some (actions, enemies', ai', drawn') /\
    Forall2 same_body enemies enemies' /\
    Forall2 (fun e e' => alive e = false -> e' = e) enemies enemies' /\
    map e_intent (List.filter alive enemies') =
      map (fun a => Some (getIntentDescription (ai_type a))) actions /\
    length actions = length (List.filter alive enemies) /\
    drawn' = (drawn + length (List.filter is_attack actions))%nat.
Proof.
  intros _ Hnames. revert ai drawn.
  induction Hnames as [|e rest He _ IH]; intros ai drawn.
  { exists [], [], ai, drawn. cbn. repeat split; try constructor. lia. }
  cbn [processZombieTurns List.filter]. fold (alive e).
  destruct (alive e) eqn:Ealive.
  - destruct (calculateAction_returns e (e_id e) p ai drawn He)
      as (action & ai1 & drawn1 & -> & Hd).
    destruct (IH ai1 drawn1) as (actions & rest' & ai2 & drawn2 & -> & Hb & Hdead & Hint & Hlen & Hd2).
    eexists _, _, _, _. split; [reflexivity|].
    set (e1 := set_e_intent _ e).
    set (e2 := match ai_type action with act_move => _ | _ => e1 end).
    assert (Hbody : same_body e e2).
    { subst e2. destruct (ai_type action); try (repeat split).
      all: destruct (updateEnemyRange_same_body e1 p ai1) as (?&?&?&?&?); assumption. }
    assert (Hint2 : e_intent e2 = Some (getIntentDescription (ai_type action))).
    { subst e2. destruct (ai_type action); try reflexivity.
      unfold updateEnemyRange. destruct (aiStates ai1 !! e_id e1); reflexivity. }
    assert (Halive2 : alive e2 = true).
    { unfold alive in *. destruct Hbody as (_ & _ & -> & _). exact Ealive. }
    repeat split.
    + constructor; assumption.
    + constructor; [|assumption]. congruence.
    + cbn [List.filter]. rewrite Halive2. cbn [map]. rewrite Hint2, Hint. reflexivity.
    + cbn [length]. rewrite Hlen. reflexivity.
    + cbn [List.filter]. subst drawn2 drawn1.
      destruct (is_attack action); cbn [length]; lia.
  - destruct (IH ai drawn) as (actions & rest' & ai2 & drawn2 & -> & Hb & Hdead & Hint & Hlen & Hd2).
    eexists _, _, _, _. split; [reflexivity|].
    repeat split; try assumption.
    + constructor; [repeat split|assumption].
    + constructor; [reflexivity|assumption].
    + cbn [List.filter]. rewrite Ealive. exact Hint.
Qed.

End Facts.

(** *** Concrete turns *)

Lemma stunned_zombie_waits_witness :
  let zombie := Sample.walker in
  let p := SampleRot.west in
  let ai := initializeZombie "z1" SampleRot.east new_ZombieAI in
  let a := fresh SampleRot.east in
  aiStates ai !! "z1" = Some a /\
  turns SampleRot.rot (Sample.draws []) 2 zombie "z1" p (stunZombie "z1" 2 ai) 0 =
    Some (repeat {| ai_type := act_wait; targetPosition := None; ai_damage := None;
                    description := (e_name zombie ++ " is stunned and recovering")%string |} 2,
          store "z1" (set_state stunned (set_stunDuration 0 a)) ai,
          0%nat).
Proof.
  intros zombie p ai a.
  assert (H : aiStates ai !! "z1" = Some a) by (vm_compute; reflexivity).
  split; [exact H|].
  exact (stunned_zombie_waits SampleRot.rot (Sample.draws []) 2 zombie "z1" p ai 0 a H).
Defined.

Lemma zombie_turns_only_report_witness :
  let enemies := [Sample.walker; Sample.tank] in
  let p := SampleRot.west in
  let random := Sample.draws [0.25%Q] in
  let ai := setWorld SampleRot.pillar new_ZombieAI in
  world_ok ai /\
  Forall (fun e => In (e_name e) zombieTypeNames) enemies /\
  exists actions enemies' ai' drawn',
    processZombieTurns SampleRot.rot random enemies p ai 0
    = Some (actions, enemies', ai', drawn') /\
    Forall2 same_body enemies enemies' /\
    Forall2 (fun e e' => alive e = false -> e' = e) enemies enemies' /\
    map e_intent (List.filter alive enemies') =
      map (fun a => Some (getIntentDescription (ai_type a))) actions /\
    length actions = length (List.filter alive enemies) /\
    drawn' = (0 + length (List.filter is_attack actions))%nat.
Proof.
  intros enemies p random ai.
  assert (Hw : world_ok ai) by exact NavFacts.pillar_well_formed.
  assert (H : Forall (fun e => In (e_name e) zombieTypeNames) enemies)
    by (repeat constructor; simpl; auto).
  split; [exact Hw|]. split; [exact H|].
  exact (zombie_turns_only_report SampleRot.rot random enemies p ai 0 Hw H).
Defined.

End AiFacts.
